(** * Shallow embedding of the container runtime shim

    The development follows three source files:
    - [pkg/store/sandbox] (the prefix-addressable entity store),
    - [pkg/server/container_create.go] (the execution-spec compiler),
    - [pkg/server/streaming.go] (terminal resize handling).

    Go values are embedded as follows.  A Go [string] is a Rocq [string]
    (a sequence of bytes).  A Go slice is an [option (list A)]: [None] is the
    [nil] slice and [Some []] the empty, non-nil one, because the compiler
    tells them apart.  A Go [error] is a value of the inductive type [error];
    each [fmt.Errorf] site of the sources has a constructor of its own.  A Go
    map is a [gmap].  Functions that return [(T, error)] return [error + T]. *)

From Stdlib Require Import ZArith Ascii String Lia.
From stdpp Require Import base option list gmap sets strings.

Local Open Scope string_scope.
Local Open Scope list_scope.
Local Open Scope Z_scope.
Local Open Scope nat_scope.

(** ** Go's [strings] package, on byte strings *)

Module strings.

(** [strings.HasPrefix(s, prefix)]. *)
Definition HasPrefix (s prefix : string) : bool := String.prefix prefix s.

Fixpoint drop_bytes (n : nat) (s : string) : string :=
  match n, s with
  | O, _ => s
  | S n', String _ s' => drop_bytes n' s'
  | S _, EmptyString => EmptyString
  end.

(** [strings.TrimPrefix(s, prefix)]. *)
Definition TrimPrefix (s prefix : string) : string :=
  if HasPrefix s prefix then drop_bytes (String.length prefix) s else s.

(** [strings.ToUpper] on the ASCII range: the bytes ['a'..'z'] are mapped
  to ['A'..'Z'], every other byte is kept. *)
Definition upper_byte (c : ascii) : ascii :=
  let n := nat_of_ascii c in
  if (97 <=? n)%nat && (n <=? 122)%nat then ascii_of_nat (n - 32) else c.

Fixpoint ToUpper (s : string) : string :=
  match s with
  | EmptyString => EmptyString
  | String c s' => String (upper_byte c) (ToUpper s')
  end.

(** [strings.Split(s, sep)] for a separator of one byte: all the fields
  between separators; the empty string yields one empty field. *)
Fixpoint Split (s : string) (sep : ascii) : list string :=
  match s with
  | EmptyString => [EmptyString]
  | String c s' =>
      if Ascii.eqb c sep then EmptyString :: Split s' sep
      else match Split s' sep with
           | f :: fs => String c f :: fs
           | [] => [String c EmptyString]
           end
  end.

(** The cut of [s] at the first occurrence of [sep], if there is one. *)
Fixpoint cut (s : string) (sep : ascii) : option (string * string) :=
  match s with
  | EmptyString => None
  | String c s' =>
      if Ascii.eqb c sep then Some (EmptyString, s')
      else match cut s' sep with
           | Some (k, v) => Some (String c k, v)
           | None => None
           end
  end.

(** [strings.SplitN(s, sep, 2)] for a separator of one byte: at most two
  fields, the second one being the unsplit remainder. *)
Definition SplitN2 (s : string) (sep : ascii) : list string :=
  match cut s sep with
  | Some (k, v) => [k; v]
  | None => [s]
  end.

End strings.

(** ** Errors *)

(** Errors made outside the files embedded here: the sentinel values the
  sources compare against, and any other error of a collaborator, known by
  its message. *)
Inductive exterror : Type :=
  | truncindex_ErrNotExist
  | unix_ENOTSUP
  | ErrorString (msg : string).

(** The errors the embedded functions return: a collaborator's error passed
  on as it is, the sentinels of package [store], and one constructor for
  each [fmt.Errorf] site ([cause] is the error the message embeds). *)
Inductive error : Type :=
  | External (e : exterror)
  | store_ErrAlreadyExist
  | store_ErrNotExist
  | ErrNoCommandSpecified
  | ErrInvalidEnvironmentVariable (e : string)
  | ErrInitSelinuxOptions (cause : error)
  | ErrSetOCIBindMounts (cause : error)
  | ErrNoPrivilegedContainerAllowed
  | ErrSetDevicesMapping (cause : error)
  | ErrSetCapabilities (cause : error)
  | ErrStat (src : string) (cause : error)
  | ErrMkdir (src : string) (cause : error)
  | ErrResolveSymlink (cause : error)
  | ErrRelabel (src label : string) (cause : error)
  | ErrSeccompNotSupported
  | ErrInvalidSeccompProfile (prof : string)
  | ErrApparmorNotSupported
  | ErrInvalidApparmorProfile (prof : string)
  | ErrNotSharedMount (path mountpoint : string)
  | ErrNotSharedOrSlaveMount (path mountpoint : string).

(** ** The sandbox store *)

Module sandbox.

(** The operations [Store] uses of [truncindex.TruncIndex]. *)
Class TruncIndex (I : Type) : Type := {
  NewTruncIndex : list string -> I;
  idx_Add : I -> string -> exterror + I;
  idx_Get : I -> string -> exterror + string;
  (* Delete changes the index in place and reports an error *)
  idx_Delete : I -> string -> I * option exterror
  }.

Record Metadata : Type := { ID : string; Name : string }.

Record Sandbox : Type := {
  metadata : Metadata;
  Container : nat;        (* handle of the containerd container *)
  NetNS : option nat      (* handle of the network namespace *)
  }.

(** The zero value [Sandbox{}]. *)
Definition Sandbox_zero : Sandbox :=
  {| metadata := {| ID := ""; Name := "" |}; Container := 0; NetNS := None |}.

Section Store.
Context {I : Type} `{TruncIndex I}.

(** [Store]; the lock is left out: every method holds it from entry to
  return, so a method is one atomic step on the two indices. *)
Record Store : Type := {
    sandboxes : gmap string Sandbox;
    idIndex : I
  }.

Definition NewStore : Store :=
    {| sandboxes := ∅; idIndex := NewTruncIndex [] |}.

Definition Add (s : Store) (sb : Sandbox) : error + Store :=
    let id := ID (metadata sb) in
    match sandboxes s !! id with
    | Some _ => inl store_ErrAlreadyExist
    | None =>
        match idx_Add (idIndex s) id with
        | inl err => inl (External err)
        | inr idx' =>
            inr {| sandboxes := <[id := sb]> (sandboxes s); idIndex := idx' |}
        end
    end.

Definition Get (s : Store) (id : string) : error + Sandbox :=
    match idx_Get (idIndex s) id with
    | inl err =>
        inl (match err with
             | truncindex_ErrNotExist => store_ErrNotExist
             | _ => External err
             end)
    | inr id' =>
        match sandboxes s !! id' with
        | Some sb => inr sb
        | None => inl store_ErrNotExist
        end
    end.

Definition List (s : Store) : list Sandbox :=
    (map_to_list (sandboxes s)).*2.

Definition Delete (s : Store) (id : string) : Store :=
    match idx_Get (idIndex s) id with
    | inl _ => s
    | inr id' =>
        {| sandboxes := delete id' (sandboxes s);
           idIndex := (idx_Delete (idIndex s) id').1 |}
    end.

End Store.

Arguments Store I : clear implicits.

(** Modelled from the spec: [truncindex.TruncIndex] (package
  docker/pkg/truncindex), of which only the calls are in the sources.
  The spec's data model has "a prefix index supporting unambiguous-prefix
  lookup (an abbreviated ID resolves if and only if exactly one stored ID
  has it as a prefix; zero matches is not found, more than one is
  ambiguous, also not found)". *)
Definition matching (prefix : string) (ids : gset string) : gset string :=
  filter (λ id, strings.HasPrefix id prefix = true) ids.

#[export] Instance spec_index : TruncIndex (gset string) := {|
  NewTruncIndex ids := list_to_set ids;
  idx_Add ids id := inr ({[ id ]} ∪ ids);
  idx_Get ids prefix :=
    match elements (matching prefix ids) with
    | [id] => inr id
    | _ => inl truncindex_ErrNotExist
    end;
  idx_Delete ids id := (ids ∖ {[ id ]}, None)
  |}.

Abbreviation SpecStore := (Store (gset string)).

(** The two indices of a store agree: the index holds the keys of the map,
  and each entity is stored under its own ID. *)
Definition consistent (s : SpecStore) : Prop :=
  (∀ id, id ∈ idIndex s ↔ is_Some (sandboxes s !! id)) ∧
  (∀ id sb, sandboxes s !! id = Some sb → ID (metadata sb) = id).

(** [id] is stored and has [prefix] as a prefix. *)
Definition matches (s : SpecStore) (prefix id : string) : Prop :=
  is_Some (sandboxes s !! id) ∧ strings.HasPrefix id prefix = true.

End sandbox.

(** ** Go slices *)

(** A slice whose [nil] matters: [None] is [nil], [Some l] a non-nil slice
    with the elements [l]. *)
Definition slice (A : Type) : Type := option (list A).

Definition len {A : Type} (s : slice A) : nat :=
  match s with
  | None => 0
  | Some l => length l
  end.

Definition is_nil {A : Type} (s : slice A) : bool :=
  match s with
  | None => true
  | Some _ => false
  end.

Definition elems {A : Type} (s : slice A) : list A :=
  match s with
  | None => []
  | Some l => l
  end.

(** [append([]T{}, s...)]: a fresh, non-nil slice with the elements of [s]. *)
Definition copy_of {A : Type} (s : slice A) : slice A := Some (elems s).

(** ** The CRI messages read by the compiler (package [runtime]) *)

Module runtime.

(** [MountPropagation] is an [int32] enumeration: the three declared values,
    and any other number a message may carry. *)
Inductive MountPropagation : Type :=
  | PROPAGATION_PRIVATE
  | PROPAGATION_HOST_TO_CONTAINER
  | PROPAGATION_BIDIRECTIONAL
  | PROPAGATION_undeclared (n : Z).

Record Mount : Type := {
  ContainerPath : string;
  HostPath : string;
  Readonly : bool;
  SelinuxRelabel : bool;
  Propagation : MountPropagation
}.

Record KeyValue : Type := { Key : string; Value : string }.

Record Device : Type := {
  dev_ContainerPath : string;
  dev_HostPath : string;
  dev_Permissions : string
}.

Record Capability : Type := {
  AddCapabilities : list string;
  DropCapabilities : list string
}.

Record NamespaceOption : Type := {
  HostNetwork : bool;
  HostPid : bool;
  HostIpc : bool
}.

Record LinuxContainerResources : Type := {
  CpuPeriod : Z;
  CpuQuota : Z;
  CpuShares : Z;
  MemoryLimitInBytes : Z;
  OomScoreAdj : Z;
  CpusetCpus : string;
  CpusetMems : string
}.

Record LinuxContainerSecurityContext : Type := {
  Capabilities : option Capability;
  Privileged : bool;
  NamespaceOptions : option NamespaceOption;
  SelinuxOptions : option string;
  ReadonlyRootfs : bool;
  SupplementalGroups : list Z;
  NoNewPrivs : bool
}.

Record LinuxContainerConfig : Type := {
  Resources : option LinuxContainerResources;
  SecurityContext : option LinuxContainerSecurityContext
}.

Record ContainerConfig : Type := {
  Command : slice string;
  Args : slice string;
  WorkingDir : string;
  Envs : list KeyValue;
  Mounts : list Mount;
  Devices : list Device;
  Tty : bool;
  Linux : option LinuxContainerConfig
}.

Record PodSandboxConfig : Type := {
  (* [GetLinux().GetCgroupParent()] *)
  CgroupParent : string
}.

(** The generated getters are nil-safe: on a nil message they return the
    zero value of the field. *)
Definition GetSecurityContext (l : option LinuxContainerConfig)
  : option LinuxContainerSecurityContext :=
  match l with
  | Some c => SecurityContext c
  | None => None
  end.

Definition GetResources (l : option LinuxContainerConfig)
  : option LinuxContainerResources :=
  match l with
  | Some c => Resources c
  | None => None
  end.

Definition GetPrivileged (sc : option LinuxContainerSecurityContext) : bool :=
  match sc with
  | Some c => Privileged c
  | None => false
  end.

Definition GetCapabilities (sc : option LinuxContainerSecurityContext)
  : option Capability :=
  match sc with
  | Some c => Capabilities c
  | None => None
  end.

Definition GetNamespaceOptions (sc : option LinuxContainerSecurityContext)
  : option NamespaceOption :=
  match sc with
  | Some c => NamespaceOptions c
  | None => None
  end.

Definition GetSelinuxOptions (sc : option LinuxContainerSecurityContext)
  : option string :=
  match sc with
  | Some c => SelinuxOptions c
  | None => None
  end.

Definition GetReadonlyRootfs (sc : option LinuxContainerSecurityContext) : bool :=
  match sc with
  | Some c => ReadonlyRootfs c
  | None => false
  end.

Definition GetSupplementalGroups (sc : option LinuxContainerSecurityContext)
  : list Z :=
  match sc with
  | Some c => SupplementalGroups c
  | None => []
  end.

Definition GetNoNewPrivs (sc : option LinuxContainerSecurityContext) : bool :=
  match sc with
  | Some c => NoNewPrivs c
  | None => false
  end.

Definition GetHostPid (n : option NamespaceOption) : bool :=
  match n with
  | Some o => HostPid o
  | None => false
  end.

Definition GetAddCapabilities (c : option Capability) : list string :=
  match c with
  | Some x => AddCapabilities x
  | None => []
  end.

Definition GetDropCapabilities (c : option Capability) : list string :=
  match c with
  | Some x => DropCapabilities x
  | None => []
  end.

End runtime.

(** ** The image configuration (package [imagespec]) *)

Module imagespec.

Record ImageConfig : Type := {
  Env : list string;
  Entrypoint : slice string;
  Cmd : slice string;
  WorkingDir : string
}.

End imagespec.

(** ** The host mount table (package [mount]) *)

Module mount.

Record Info : Type := {
  Mountpoint : string;
  (* the optional fields of the mountinfo line, separated by spaces *)
  Optional : string
}.

End mount.

(** ** The low-level specification (package [runtimespec]) *)

Module runtimespec.

Record Mount : Type := {
  Destination : string;
  Type_ : string;
  Source : string;
  Options : list string
}.

Record LinuxDevice : Type := {
  dev_Path : string;
  dev_Type : string;
  dev_Major : Z;
  dev_Minor : Z;
  dev_UID : Z;
  dev_GID : Z
}.

Record LinuxDeviceCgroup : Type := {
  Allow : bool;
  cg_Type : string;
  cg_Major : option Z;
  cg_Minor : option Z;
  Access : string
}.

Record Process : Type := {
  Terminal : bool;
  Args : list string;
  Env : gmap string string;
  Cwd : string;
  Capabilities : list string;
  NoNewPrivileges : bool;
  ApparmorProfile : string;
  OOMScoreAdj : Z;
  SelinuxLabel : string;
  AdditionalGids : list Z
}.

Record Root : Type := {
  Path : string;
  root_Readonly : bool
}.

Record LinuxResources : Type := {
  res_Devices : list LinuxDeviceCgroup;
  CPUPeriod : Z;
  CPUQuota : Z;
  CPUShares : Z;
  CPUCpus : string;
  CPUMems : string;
  MemoryLimit : Z
}.

Record Linux : Type := {
  RootfsPropagation : string;
  MountLabel : string;
  CgroupsPath : string;
  (* namespace type and path *)
  Namespaces : list (string * string);
  Devices : list LinuxDevice;
  ReadonlyPaths : list string;
  MaskedPaths : list string;
  (* name of the seccomp profile, if one is set *)
  Seccomp : option string;
  Resources : LinuxResources
}.

Record Spec : Type := {
  process : Process;
  root : Root;
  Mounts : list Mount;
  linux : Linux
}.

(** Field updates. *)

Definition with_process (f : Process -> Process) (s : Spec) : Spec :=
  {| process := f (process s); root := root s; Mounts := Mounts s;
     linux := linux s |}.

Definition with_root (f : Root -> Root) (s : Spec) : Spec :=
  {| process := process s; root := f (root s); Mounts := Mounts s;
     linux := linux s |}.

Definition with_Mounts (f : list Mount -> list Mount) (s : Spec) : Spec :=
  {| process := process s; root := root s; Mounts := f (Mounts s);
     linux := linux s |}.

Definition with_linux (f : Linux -> Linux) (s : Spec) : Spec :=
  {| process := process s; root := root s; Mounts := Mounts s;
     linux := f (linux s) |}.

Definition set_Terminal (v : bool) (p : Process) : Process :=
  {| Terminal := v; Args := Args p; Env := Env p; Cwd := Cwd p;
     Capabilities := Capabilities p; NoNewPrivileges := NoNewPrivileges p;
     ApparmorProfile := ApparmorProfile p; OOMScoreAdj := OOMScoreAdj p;
     SelinuxLabel := SelinuxLabel p; AdditionalGids := AdditionalGids p |}.

Definition set_Args (v : list string) (p : Process) : Process :=
  {| Terminal := Terminal p; Args := v; Env := Env p; Cwd := Cwd p;
     Capabilities := Capabilities p; NoNewPrivileges := NoNewPrivileges p;
     ApparmorProfile := ApparmorProfile p; OOMScoreAdj := OOMScoreAdj p;
     SelinuxLabel := SelinuxLabel p; AdditionalGids := AdditionalGids p |}.

Definition set_Env (v : gmap string string) (p : Process) : Process :=
  {| Terminal := Terminal p; Args := Args p; Env := v; Cwd := Cwd p;
     Capabilities := Capabilities p; NoNewPrivileges := NoNewPrivileges p;
     ApparmorProfile := ApparmorProfile p; OOMScoreAdj := OOMScoreAdj p;
     SelinuxLabel := SelinuxLabel p; AdditionalGids := AdditionalGids p |}.

Definition set_Cwd (v : string) (p : Process) : Process :=
  {| Terminal := Terminal p; Args := Args p; Env := Env p; Cwd := v;
     Capabilities := Capabilities p; NoNewPrivileges := NoNewPrivileges p;
     ApparmorProfile := ApparmorProfile p; OOMScoreAdj := OOMScoreAdj p;
     SelinuxLabel := SelinuxLabel p; AdditionalGids := AdditionalGids p |}.

Definition set_Capabilities (v : list string) (p : Process) : Process :=
  {| Terminal := Terminal p; Args := Args p; Env := Env p; Cwd := Cwd p;
     Capabilities := v; NoNewPrivileges := NoNewPrivileges p;
     ApparmorProfile := ApparmorProfile p; OOMScoreAdj := OOMScoreAdj p;
     SelinuxLabel := SelinuxLabel p; AdditionalGids := AdditionalGids p |}.

Definition set_NoNewPrivileges (v : bool) (p : Process) : Process :=
  {| Terminal := Terminal p; Args := Args p; Env := Env p; Cwd := Cwd p;
     Capabilities := Capabilities p; NoNewPrivileges := v;
     ApparmorProfile := ApparmorProfile p; OOMScoreAdj := OOMScoreAdj p;
     SelinuxLabel := SelinuxLabel p; AdditionalGids := AdditionalGids p |}.

Definition set_ApparmorProfile (v : string) (p : Process) : Process :=
  {| Terminal := Terminal p; Args := Args p; Env := Env p; Cwd := Cwd p;
     Capabilities := Capabilities p; NoNewPrivileges := NoNewPrivileges p;
     ApparmorProfile := v; OOMScoreAdj := OOMScoreAdj p;
     SelinuxLabel := SelinuxLabel p; AdditionalGids := AdditionalGids p |}.

Definition set_OOMScoreAdj (v : Z) (p : Process) : Process :=
  {| Terminal := Terminal p; Args := Args p; Env := Env p; Cwd := Cwd p;
     Capabilities := Capabilities p; NoNewPrivileges := NoNewPrivileges p;
     ApparmorProfile := ApparmorProfile p; OOMScoreAdj := v;
     SelinuxLabel := SelinuxLabel p; AdditionalGids := AdditionalGids p |}.

Definition set_SelinuxLabel (v : string) (p : Process) : Process :=
  {| Terminal := Terminal p; Args := Args p; Env := Env p; Cwd := Cwd p;
     Capabilities := Capabilities p; NoNewPrivileges := NoNewPrivileges p;
     ApparmorProfile := ApparmorProfile p; OOMScoreAdj := OOMScoreAdj p;
     SelinuxLabel := v; AdditionalGids := AdditionalGids p |}.

Definition set_AdditionalGids (v : list Z) (p : Process) : Process :=
  {| Terminal := Terminal p; Args := Args p; Env := Env p; Cwd := Cwd p;
     Capabilities := Capabilities p; NoNewPrivileges := NoNewPrivileges p;
     ApparmorProfile := ApparmorProfile p; OOMScoreAdj := OOMScoreAdj p;
     SelinuxLabel := SelinuxLabel p; AdditionalGids := v |}.

Definition set_Path (v : string) (r : Root) : Root :=
  {| Path := v; root_Readonly := root_Readonly r |}.

Definition set_root_Readonly (v : bool) (r : Root) : Root :=
  {| Path := Path r; root_Readonly := v |}.

Definition set_RootfsPropagation (v : string) (l : Linux) : Linux :=
  {| RootfsPropagation := v; MountLabel := MountLabel l;
     CgroupsPath := CgroupsPath l; Namespaces := Namespaces l;
     Devices := Devices l; ReadonlyPaths := ReadonlyPaths l;
     MaskedPaths := MaskedPaths l; Seccomp := Seccomp l;
     Resources := Resources l |}.

Definition set_MountLabel (v : string) (l : Linux) : Linux :=
  {| RootfsPropagation := RootfsPropagation l; MountLabel := v;
     CgroupsPath := CgroupsPath l; Namespaces := Namespaces l;
     Devices := Devices l; ReadonlyPaths := ReadonlyPaths l;
     MaskedPaths := MaskedPaths l; Seccomp := Seccomp l;
     Resources := Resources l |}.

Definition set_CgroupsPath (v : string) (l : Linux) : Linux :=
  {| RootfsPropagation := RootfsPropagation l; MountLabel := MountLabel l;
     CgroupsPath := v; Namespaces := Namespaces l;
     Devices := Devices l; ReadonlyPaths := ReadonlyPaths l;
     MaskedPaths := MaskedPaths l; Seccomp := Seccomp l;
     Resources := Resources l |}.

Definition set_Namespaces (v : list (string * string)) (l : Linux) : Linux :=
  {| RootfsPropagation := RootfsPropagation l; MountLabel := MountLabel l;
     CgroupsPath := CgroupsPath l; Namespaces := v;
     Devices := Devices l; ReadonlyPaths := ReadonlyPaths l;
     MaskedPaths := MaskedPaths l; Seccomp := Seccomp l;
     Resources := Resources l |}.

Definition set_Devices (v : list LinuxDevice) (l : Linux) : Linux :=
  {| RootfsPropagation := RootfsPropagation l; MountLabel := MountLabel l;
     CgroupsPath := CgroupsPath l; Namespaces := Namespaces l;
     Devices := v; ReadonlyPaths := ReadonlyPaths l;
     MaskedPaths := MaskedPaths l; Seccomp := Seccomp l;
     Resources := Resources l |}.

Definition set_ReadonlyPaths (v : list string) (l : Linux) : Linux :=
  {| RootfsPropagation := RootfsPropagation l; MountLabel := MountLabel l;
     CgroupsPath := CgroupsPath l; Namespaces := Namespaces l;
     Devices := Devices l; ReadonlyPaths := v;
     MaskedPaths := MaskedPaths l; Seccomp := Seccomp l;
     Resources := Resources l |}.

Definition set_MaskedPaths (v : list string) (l : Linux) : Linux :=
  {| RootfsPropagation := RootfsPropagation l; MountLabel := MountLabel l;
     CgroupsPath := CgroupsPath l; Namespaces := Namespaces l;
     Devices := Devices l; ReadonlyPaths := ReadonlyPaths l;
     MaskedPaths := v; Seccomp := Seccomp l;
     Resources := Resources l |}.

Definition set_Seccomp (v : option string) (l : Linux) : Linux :=
  {| RootfsPropagation := RootfsPropagation l; MountLabel := MountLabel l;
     CgroupsPath := CgroupsPath l; Namespaces := Namespaces l;
     Devices := Devices l; ReadonlyPaths := ReadonlyPaths l;
     MaskedPaths := MaskedPaths l; Seccomp := v;
     Resources := Resources l |}.

Definition with_Resources (f : LinuxResources -> LinuxResources) (l : Linux)
  : Linux :=
  {| RootfsPropagation := RootfsPropagation l; MountLabel := MountLabel l;
     CgroupsPath := CgroupsPath l; Namespaces := Namespaces l;
     Devices := Devices l; ReadonlyPaths := ReadonlyPaths l;
     MaskedPaths := MaskedPaths l; Seccomp := Seccomp l;
     Resources := f (Resources l) |}.

Definition set_res_Devices (v : list LinuxDeviceCgroup) (r : LinuxResources)
  : LinuxResources :=
  {| res_Devices := v; CPUPeriod := CPUPeriod r; CPUQuota := CPUQuota r;
     CPUShares := CPUShares r; CPUCpus := CPUCpus r; CPUMems := CPUMems r;
     MemoryLimit := MemoryLimit r |}.

End runtimespec.

(** ** The compiler's collaborators *)

Module devices.

Record Device : Type := {
  Path : string;
  Type_ : string;
  Major : Z;
  Minor : Z;
  Uid : Z;
  Gid : Z;
  Permissions : string
}.

End devices.

(** The host the service runs on, of state [H]: the calls on [c.os], on
    package [label] and on package [devices].  A call that changes the host
    returns the new state. *)
Class HostOS (H : Type) : Type := {
  os_Stat : H -> string -> option exterror;
  os_IsNotExist : exterror -> bool;
  os_MkdirAll : H -> string -> Z -> H * option exterror;
  os_ResolveSymbolicLink : H -> string -> exterror + string;
  os_LookupMount : H -> string -> exterror + mount.Info;
  label_Relabel : H -> string -> string -> bool -> H * option exterror;
  devices_DeviceFromPath : H -> string -> string -> exterror + devices.Device;
  devices_HostDevices : H -> exterror + list devices.Device
}.

(** What the compiler uses of the rest of the service and of its libraries:
    constants and helpers of package [server] declared in other files, the
    default specification of containerd, the capability table of package
    [capability] with the bound and the validity test of package [validate],
    and [util.InStringSlice]. *)
Class Collaborators : Type := {
  relativeRootfsPath : string;
  config_SystemdCgroup : bool;
  containerd_GenerateSpec : string -> exterror + runtimespec.Spec;
  initSelinuxOpts : option string -> exterror + (string * string);
  getCgroupsPath : string -> string -> bool -> string;
  getNetworkNamespace : Z -> string;
  getIPCNamespace : Z -> string;
  getUTSNamespace : Z -> string;
  capability_List : list Z;
  cap_String : Z -> string;
  validate_LastCap : Z;
  validate_CapValid : string -> option exterror;
  util_InStringSlice : list string -> string -> bool
}.

(** ** The state and error monad of the compiler *)

(** A run of the compiler holds the generator's specification, the host, and
    the warnings logged so far. *)
Record State (H : Type) : Type := {
  gen : runtimespec.Spec;
  host : H;
  warnings : list string
}.

Arguments gen {H} _.
Arguments host {H} _.
Arguments warnings {H} _.

Definition M (H A : Type) : Type := State H -> error + (A * State H).

Definition M_ret {H A : Type} (a : A) : M H A := fun st => inr (a, st).

Definition M_bind {H A B : Type} (f : A -> M H B) (m : M H A) : M H B :=
  fun st =>
    match m st with
    | inl e => inl e
    | inr (a, st') => f a st'
    end.

#[export] Instance M_mret {H : Type} : MRet (M H) := @M_ret H.
#[export] Instance M_mbind {H : Type} : MBind (M H) := @M_bind H.

(** [return err]. *)
Definition fail {H A : Type} (e : error) : M H A := fun _ => inl e.

(** A call on the generator that cannot fail. *)
Definition call {H : Type} (f : runtimespec.Spec -> runtimespec.Spec)
  : M H unit :=
  fun st =>
    inr (tt, {| gen := f (gen st); host := host st; warnings := warnings st |}).

(** A call on the generator that returns an error. *)
Definition call_err {H : Type}
  (f : runtimespec.Spec -> exterror + runtimespec.Spec) : M H unit :=
  fun st =>
    match f (gen st) with
    | inl e => inl (External e)
    | inr g => inr (tt, {| gen := g; host := host st; warnings := warnings st |})
    end.

(** [g.Spec()]. *)
Definition Spec {H : Type} : M H runtimespec.Spec := fun st => inr (gen st, st).

(** A call that reads the host. *)
Definition ask {H A : Type} (f : H -> A) : M H A := fun st => inr (f (host st), st).

(** A call that changes the host. *)
Definition act {H A : Type} (f : H -> H * A) : M H A :=
  fun st =>
    let (h, a) := f (host st) in
    inr (a, {| gen := gen st; host := h; warnings := warnings st |}).

(** [glog.Warningf]. *)
Definition Warningf {H : Type} (msg : string) : M H unit :=
  fun st =>
    inr (tt, {| gen := gen st; host := host st;
                warnings := warnings st ++ [msg] |}).

(** [if err != nil { return fmt.Errorf(..., err) }] around a call. *)
Definition wrap {H A : Type} (w : error -> error) (m : M H A) : M H A :=
  fun st =>
    match m st with
    | inl e => inl (w e)
    | inr r => inr r
    end.

(** The state after a change of the generator's specification. *)
Definition put_gen {H : Type} (g : runtimespec.Spec) (st : State H) : State H :=
  {| gen := g; host := host st; warnings := warnings st |}.

(** [m] never returns the error [e]. *)
Definition avoids {H A : Type} (e : error) (m : M H A) : Prop :=
  forall st, m st <> inl e.

(** A run of [m] that succeeds leaves the part [f] of the specification as
    it was. *)
Definition keeps {H A X : Type} (f : runtimespec.Spec -> X) (m : M H A) : Prop :=
  forall st a st', m st = inr (a, st') -> f (gen st') = f (gen st).

(** A run of [m] that succeeds returns the specification it ends with. *)
Definition returns_spec {H : Type} (m : M H runtimespec.Spec) : Prop :=
  forall st a st', m st = inr (a, st') -> a = gen st'.

(** [for _, x := range l { body }]. *)
Fixpoint range {H A : Type} (l : list A) (body : A -> M H unit) : M H unit :=
  match l with
  | [] => mret tt
  | x :: l' => body x ;; range l' body
  end.

(** ** The specification generator (package [generate]) *)

Module generate.
Import runtimespec.

Section Generator.
Context `{Collaborators}.

(** Modelled from the spec: the methods of [generate.Generator], which the
    sources call and do not define.  Each setter writes the field of the
    ExecutionSpec it is named after; the environment is a map from names to
    values where the last write of a name wins; the mounts are an ordered
    list to which a mount is appended; the capability sets are one set, which
    [AddProcessCapability] and [DropProcessCapability] change after
    validating the name. *)
Definition SetRootPath (path : string) : Spec -> Spec :=
  with_root (set_Path path).

Definition SetRootReadonly (b : bool) : Spec -> Spec :=
  with_root (set_root_Readonly b).

Definition SetProcessArgs (args : list string) : Spec -> Spec :=
  with_process (set_Args args).

Definition SetProcessCwd (cwd : string) : Spec -> Spec :=
  with_process (set_Cwd cwd).

Definition SetProcessTerminal (tty : bool) : Spec -> Spec :=
  with_process (set_Terminal tty).

Definition AddProcessEnv (name value : string) : Spec -> Spec :=
  with_process (fun p => set_Env (<[name := value]> (Env p)) p).

Definition SetProcessSelinuxLabel (l : string) : Spec -> Spec :=
  with_process (set_SelinuxLabel l).

Definition SetProcessNoNewPrivileges (b : bool) : Spec -> Spec :=
  with_process (set_NoNewPrivileges b).

Definition SetProcessOOMScoreAdj (adj : Z) : Spec -> Spec :=
  with_process (set_OOMScoreAdj adj).

Definition AddProcessAdditionalGid (gid : Z) : Spec -> Spec :=
  with_process (fun p => set_AdditionalGids (AdditionalGids p ++ [gid]) p).

Definition AddCgroupsMount (mountCgroupOption : string) : Spec -> Spec :=
  with_Mounts (fun ms =>
    ms ++ [{| Destination := "/sys/fs/cgroup"; Type_ := "cgroup";
              Source := "cgroup";
              Options := ["nosuid"; "noexec"; "nodev"; "relatime";
                          mountCgroupOption] |}]).

Definition AddBindMount (source dest : string) (options : list string)
  : Spec -> Spec :=
  with_Mounts (fun ms =>
    ms ++ [{| Destination := dest; Type_ := "bind"; Source := source;
              Options := options |}]).

Definition SetLinuxRootPropagation (rp : string) : Spec -> Spec :=
  with_linux (set_RootfsPropagation rp).

Definition SetLinuxMountLabel (l : string) : Spec -> Spec :=
  with_linux (set_MountLabel l).

Definition SetLinuxCgroupsPath (path : string) : Spec -> Spec :=
  with_linux (set_CgroupsPath path).

Definition AddDevice (d : LinuxDevice) : Spec -> Spec :=
  with_linux (fun l => set_Devices (Devices l ++ [d]) l).

Definition RemoveLinuxNamespace (ns : string) : Spec -> Spec :=
  with_linux (fun l =>
    set_Namespaces (filter (fun n => n.1 ≠ ns) (Namespaces l)) l).

Definition AddOrReplaceLinuxNamespace (ns path : string) : Spec -> Spec :=
  with_linux (fun l =>
    set_Namespaces (filter (fun n => n.1 ≠ ns) (Namespaces l) ++ [(ns, path)]) l).

Definition SetLinuxResourcesCPUPeriod (v : Z) : Spec -> Spec :=
  with_linux (with_Resources (fun r =>
    {| res_Devices := res_Devices r; CPUPeriod := v; CPUQuota := CPUQuota r;
       CPUShares := CPUShares r; CPUCpus := CPUCpus r; CPUMems := CPUMems r;
       MemoryLimit := MemoryLimit r |})).

Definition SetLinuxResourcesCPUQuota (v : Z) : Spec -> Spec :=
  with_linux (with_Resources (fun r =>
    {| res_Devices := res_Devices r; CPUPeriod := CPUPeriod r; CPUQuota := v;
       CPUShares := CPUShares r; CPUCpus := CPUCpus r; CPUMems := CPUMems r;
       MemoryLimit := MemoryLimit r |})).

Definition SetLinuxResourcesCPUShares (v : Z) : Spec -> Spec :=
  with_linux (with_Resources (fun r =>
    {| res_Devices := res_Devices r; CPUPeriod := CPUPeriod r;
       CPUQuota := CPUQuota r; CPUShares := v; CPUCpus := CPUCpus r;
       CPUMems := CPUMems r; MemoryLimit := MemoryLimit r |})).

Definition SetLinuxResourcesMemoryLimit (v : Z) : Spec -> Spec :=
  with_linux (with_Resources (fun r =>
    {| res_Devices := res_Devices r; CPUPeriod := CPUPeriod r;
       CPUQuota := CPUQuota r; CPUShares := CPUShares r; CPUCpus := CPUCpus r;
       CPUMems := CPUMems r; MemoryLimit := v |})).

Definition SetLinuxResourcesCPUCpus (v : string) : Spec -> Spec :=
  with_linux (with_Resources (fun r =>
    {| res_Devices := res_Devices r; CPUPeriod := CPUPeriod r;
       CPUQuota := CPUQuota r; CPUShares := CPUShares r; CPUCpus := v;
       CPUMems := CPUMems r; MemoryLimit := MemoryLimit r |})).

Definition SetLinuxResourcesCPUMems (v : string) : Spec -> Spec :=
  with_linux (with_Resources (fun r =>
    {| res_Devices := res_Devices r; CPUPeriod := CPUPeriod r;
       CPUQuota := CPUQuota r; CPUShares := CPUShares r; CPUCpus := CPUCpus r;
       CPUMems := v; MemoryLimit := MemoryLimit r |})).

(** The name of a capability of the table, as the specification spells it. *)
Definition capName (cap : Z) : string := "CAP_" ++ strings.ToUpper (cap_String cap).

Definition AddProcessCapability (c : string) (g : Spec) : exterror + Spec :=
  let cp := strings.ToUpper c in
  match validate_CapValid cp with
  | Some err => inl err
  | None =>
      inr (with_process (fun p =>
             set_Capabilities
               (if decide (cp ∈ Capabilities p) then Capabilities p
                else Capabilities p ++ [cp]) p) g)
  end.

Definition DropProcessCapability (c : string) (g : Spec) : exterror + Spec :=
  let cp := strings.ToUpper c in
  match validate_CapValid cp with
  | Some err => inl err
  | None =>
      inr (with_process (fun p =>
             set_Capabilities (filter (fun x => x ≠ cp) (Capabilities p)) p) g)
  end.

(** [SetupPrivileged(true)] grants every capability of the table and clears
    the security profiles. *)
Definition SetupPrivileged (privileged : bool) (g : Spec) : Spec :=
  if privileged then
    with_linux (set_Seccomp None)
      (with_process (fun p =>
         set_ApparmorProfile "" (set_SelinuxLabel ""
           (set_Capabilities (capName <$> capability_List) p))) g)
  else g.

End Generator.
End generate.

(** ** The specification compiler ([container_create.go]) *)

Module server.
Import runtime imagespec.

Definition profileNamePrefix : string := "localhost/".
Definition runtimeDefault : string := "runtime/default".
Definition dockerDefault : string := "docker/default".
Definition appArmorDefaultProfileName : string := "cri-containerd.apparmor.d".
Definition unconfinedProfile : string := "unconfined".
Definition seccompDefaultProfile : string := dockerDefault.

(** The options [containerd.SpecOpts] the two profile functions return. *)
Inductive SpecOpts : Type :=
  | seccomp_WithDefaultProfile
  | seccomp_WithProfile (profile : string)
  | apparmor_WithDefaultProfile (name : string)
  | apparmor_WithProfile (profile : string).

(** [uint64(v)] and [uint32(v)] of a signed integer. *)
Definition uint64 (v : Z) : Z := (v mod 2 ^ 64)%Z.
Definition uint32 (v : Z) : Z := (v mod 2 ^ 32)%Z.

Definition clearReadOnly (m : runtimespec.Mount) : runtimespec.Mount :=
  {| runtimespec.Destination := runtimespec.Destination m;
     runtimespec.Type_ := runtimespec.Type_ m;
     runtimespec.Source := runtimespec.Source m;
     runtimespec.Options :=
       List.filter (fun o => negb (String.eqb o "ro")) (runtimespec.Options m) |}.

(** [ensureShared]: the mount point [path] is mounted on is shared. *)
Definition ensureShared (path : string)
  (lookupMount : string -> exterror + mount.Info) : option error :=
  match lookupMount path with
  | inl err => Some (External err)
  | inr mountInfo =>
      let optsSplit := strings.Split (mount.Optional mountInfo) " " in
      if existsb (fun opt => strings.HasPrefix opt "shared:") optsSplit
      then None
      else Some (ErrNotSharedMount path (mount.Mountpoint mountInfo))
  end.

(** [ensureSharedOrSlave]: the mount point is shared or slave. *)
Definition ensureSharedOrSlave (path : string)
  (lookupMount : string -> exterror + mount.Info) : option error :=
  match lookupMount path with
  | inl err => Some (External err)
  | inr mountInfo =>
      let optsSplit := strings.Split (mount.Optional mountInfo) " " in
      if existsb (fun opt =>
                    if strings.HasPrefix opt "shared:" then true
                    else if strings.HasPrefix opt "master:" then true
                    else false) optsSplit
      then None
      else Some (ErrNotSharedOrSlaveMount path (mount.Mountpoint mountInfo))
  end.

(** [generateSeccompSpecOpts]. *)
Definition generateSeccompSpecOpts (seccompProf : string)
  (privileged seccompEnabled : bool) : error + option SpecOpts :=
  if privileged then inr None
  else
    let seccompProf :=
      if String.eqb seccompProf runtimeDefault
         || String.eqb seccompProf dockerDefault
      then seccompDefaultProfile else seccompProf in
    if negb seccompEnabled then
      if negb (String.eqb seccompProf "")
         && negb (String.eqb seccompProf unconfinedProfile)
      then inl ErrSeccompNotSupported
      else inr None
    else if String.eqb seccompProf "" || String.eqb seccompProf unconfinedProfile
    then inr None
    else if String.eqb seccompProf dockerDefault
    then inr (Some seccomp_WithDefaultProfile)
    else if negb (strings.HasPrefix seccompProf profileNamePrefix)
    then inl (ErrInvalidSeccompProfile seccompProf)
    else inr (Some (seccomp_WithProfile
                      (strings.TrimPrefix seccompProf profileNamePrefix))).

(** [generateApparmorSpecOpts]. *)
Definition generateApparmorSpecOpts (apparmorProf : string)
  (privileged apparmorEnabled : bool) : error + option SpecOpts :=
  if negb apparmorEnabled then
    if negb (String.eqb apparmorProf "")
       && negb (String.eqb apparmorProf unconfinedProfile)
    then inl ErrApparmorNotSupported
    else inr None
  else if String.eqb apparmorProf runtimeDefault
  then inr (Some (apparmor_WithDefaultProfile appArmorDefaultProfileName))
  else if String.eqb apparmorProf unconfinedProfile
  then inr None
  else if String.eqb apparmorProf ""
  then if privileged then inr None
       else inr (Some (apparmor_WithDefaultProfile appArmorDefaultProfileName))
  else if negb (strings.HasPrefix apparmorProf profileNamePrefix)
  then inl (ErrInvalidApparmorProfile apparmorProf)
  else inr (Some (apparmor_WithProfile
                    (strings.TrimPrefix apparmorProf profileNamePrefix))).

Section Compiler.
Context {H : Type} `{HostOS H} `{Collaborators}.

(** [setOCIProcessArgs]. *)
Definition setOCIProcessArgs (config : ContainerConfig)
  (imageConfig : ImageConfig) : M H unit :=
  let command := Command config in
  let args := Args config in
  let '(command, args) :=
    if Nat.eqb (len command) 0 then
      let args :=
        if Nat.eqb (len args) 0 then copy_of (Cmd imageConfig) else args in
      let command :=
        if is_nil command then copy_of (Entrypoint imageConfig) else command in
      (command, args)
    else (command, args) in
  if Nat.eqb (len command) 0 && Nat.eqb (len args) 0
  then fail ErrNoCommandSpecified
  else call (generate.SetProcessArgs (elems command ++ elems args)).

(** [addImageEnvs]. *)
Definition addImageEnvs (imageEnvs : list string) : M H unit :=
  range imageEnvs (fun e =>
    match strings.SplitN2 e "=" with
    | [k; v] => call (generate.AddProcessEnv k v)
    | _ => fail (ErrInvalidEnvironmentVariable e)
    end).

(** [setOCIBindMountsPrivileged]. *)
Definition setOCIBindMountsPrivileged : M H unit :=
  call (fun spec =>
    let readonly := runtimespec.root_Readonly (runtimespec.root spec) in
    let spec :=
      runtimespec.with_Mounts
        (List.map (fun m =>
           let m1 :=
             if String.eqb (runtimespec.Destination m) "/sys" && negb readonly
             then clearReadOnly m else m in
           if String.eqb (runtimespec.Type_ m) "cgroup"
           then clearReadOnly m1 else m1)) spec in
    runtimespec.with_linux
      (fun l => runtimespec.set_MaskedPaths []
                  (runtimespec.set_ReadonlyPaths [] l)) spec).

(** [addOCIDevices]. *)
Definition addOCIDevices (devs : list Device) : M H unit :=
  range devs (fun device =>
    r ← ask (fun h => os_ResolveSymbolicLink h (dev_HostPath device));
    match r with
    | inl err => fail (External err)
    | inr path =>
        d ← ask (fun h => devices_DeviceFromPath h path (dev_Permissions device));
        match d with
        | inl err => fail (External err)
        | inr dev =>
            call (generate.AddDevice
                    {| runtimespec.dev_Path := dev_ContainerPath device;
                       runtimespec.dev_Type := devices.Type_ dev;
                       runtimespec.dev_Major := devices.Major dev;
                       runtimespec.dev_Minor := devices.Minor dev;
                       runtimespec.dev_UID := devices.Uid dev;
                       runtimespec.dev_GID := devices.Gid dev |}) ;;
            call (runtimespec.with_linux (runtimespec.with_Resources (fun r =>
                    runtimespec.set_res_Devices
                      (runtimespec.res_Devices r ++
                         [{| runtimespec.Allow := true;
                             runtimespec.cg_Type := devices.Type_ dev;
                             runtimespec.cg_Major := Some (devices.Major dev);
                             runtimespec.cg_Minor := Some (devices.Minor dev);
                             runtimespec.Access := devices.Permissions dev |}])
                      r)))
        end
    end).

(** [setOCIDevicesPrivileged]. *)
Definition setOCIDevicesPrivileged : M H unit :=
  r ← ask (fun h => devices_HostDevices h);
  match r with
  | inl err => fail (External err)
  | inr hostDevices =>
      range hostDevices (fun hostDevice =>
        if Z.eqb (devices.Major hostDevice) 0 && Z.eqb (devices.Minor hostDevice) 0
        then mret tt
        else call (generate.AddDevice
                     {| runtimespec.dev_Path := devices.Path hostDevice;
                        runtimespec.dev_Type := devices.Type_ hostDevice;
                        runtimespec.dev_Major := devices.Major hostDevice;
                        runtimespec.dev_Minor := devices.Minor hostDevice;
                        runtimespec.dev_UID := devices.Uid hostDevice;
                        runtimespec.dev_GID := devices.Gid hostDevice |})) ;;
      call (runtimespec.with_linux (runtimespec.with_Resources
              (runtimespec.set_res_Devices
                 [{| runtimespec.Allow := true; runtimespec.cg_Type := "";
                     runtimespec.cg_Major := None; runtimespec.cg_Minor := None;
                     runtimespec.Access := "rwm" |}])))
  end.

(** [setOCIPrivileged]. *)
Definition setOCIPrivileged (config : ContainerConfig) : M H unit :=
  call (generate.SetupPrivileged true) ;;
  setOCIBindMountsPrivileged ;;
  wrap ErrSetDevicesMapping setOCIDevicesPrivileged.

(** The loop of [addOCIBindMounts], first part: the host path of a mount is
    created if it does not exist, and its symbolic links are resolved. *)
Definition resolveHostPath (src : string) : M H string :=
  statErr ← ask (fun h => os_Stat h src);
  match statErr with
  | Some err =>
      if negb (os_IsNotExist err) then fail (ErrStat src (External err))
      else
        mkErr ← act (fun h => os_MkdirAll h src 493);
        match mkErr with
        | Some err' => fail (ErrMkdir src (External err'))
        | None => mret tt
        end
  | None => mret tt
  end ;;
  r ← ask (fun h => os_ResolveSymbolicLink h src);
  match r with
  | inl err => fail (ErrResolveSymlink (External err))
  | inr src => mret src
  end.

(** The loop of [addOCIBindMounts], second part: the [switch] on the
    propagation of the mount, which gives the option to add. *)
Definition propagationOption (mount : Mount) (src : string) : M H string :=
  match Propagation mount with
  | PROPAGATION_PRIVATE => mret "rprivate"
  | PROPAGATION_BIDIRECTIONAL =>
      e ← ask (fun h => ensureShared src (os_LookupMount h));
      match e with
      | Some err => fail err
      | None =>
          call (generate.SetLinuxRootPropagation "rshared") ;;
          mret "rshared"
      end
  | PROPAGATION_HOST_TO_CONTAINER =>
      e ← ask (fun h => ensureSharedOrSlave src (os_LookupMount h));
      match e with
      | Some err => fail err
      | None =>
          spec ← Spec;
          let rp := runtimespec.RootfsPropagation (runtimespec.linux spec) in
          (if negb (String.eqb rp "rshared") && negb (String.eqb rp "rslave")
           then call (generate.SetLinuxRootPropagation "rslave")
           else mret tt) ;;
          mret "rslave"
      end
  | PROPAGATION_undeclared _ =>
      Warningf ("Unknown propagation mode for hostPath " ++ HostPath mount) ;;
      mret "rprivate"
  end.

(** The body of the loop of [addOCIBindMounts], for one mount. *)
Definition addOCIBindMounts_body (mountLabel : string) (mount : Mount)
  : M H unit :=
  let dst := ContainerPath mount in
  src ← resolveHostPath (HostPath mount);
  propagation ← propagationOption mount src;
  let options :=
    ["rbind"; propagation; if Readonly mount then "ro" else "rw"] in
  (if SelinuxRelabel mount then
     relabelErr ← act (fun h => label_Relabel h src mountLabel true);
     match relabelErr with
     | Some unix_ENOTSUP => mret tt
     | Some err => fail (ErrRelabel src mountLabel (External err))
     | None => mret tt
     end
   else mret tt) ;;
  call (generate.AddBindMount src dst options).

(** [addOCIBindMounts]. *)
Definition addOCIBindMounts (mounts : list Mount) (mountLabel : string)
  : M H unit :=
  call (generate.AddCgroupsMount "ro") ;;
  range mounts (addOCIBindMounts_body mountLabel).

(** [setOCILinuxResource]. *)
Definition setOCILinuxResource (resources : option LinuxContainerResources)
  : M H unit :=
  match resources with
  | None => mret tt
  | Some r =>
      call (generate.SetLinuxResourcesCPUPeriod (uint64 (CpuPeriod r))) ;;
      call (generate.SetLinuxResourcesCPUQuota (CpuQuota r)) ;;
      call (generate.SetLinuxResourcesCPUShares (uint64 (CpuShares r))) ;;
      call (generate.SetLinuxResourcesMemoryLimit (MemoryLimitInBytes r)) ;;
      call (generate.SetProcessOOMScoreAdj (OomScoreAdj r)) ;;
      call (generate.SetLinuxResourcesCPUCpus (CpusetCpus r)) ;;
      call (generate.SetLinuxResourcesCPUMems (CpusetMems r))
  end.

(** [getOCICapabilitiesList]: the capabilities of the table up to the last
    one the host knows, under their specification names. *)
Definition getOCICapabilitiesList : list string :=
  generate.capName <$> List.filter (fun cap => negb (validate_LastCap <? cap)%Z)
                                   capability_List.

(** [setOCICapabilities]. *)
Definition setOCICapabilities (capabilities : option Capability) : M H unit :=
  match capabilities with
  | None => mret tt
  | Some _ =>
      (if util_InStringSlice (GetAddCapabilities capabilities) "ALL" then
         range getOCICapabilitiesList (fun c =>
           call_err (generate.AddProcessCapability c))
       else mret tt) ;;
      (if util_InStringSlice (GetDropCapabilities capabilities) "ALL" then
         range getOCICapabilitiesList (fun c =>
           call_err (generate.DropProcessCapability c))
       else mret tt) ;;
      range (GetAddCapabilities capabilities) (fun c =>
        if String.eqb (strings.ToUpper c) "ALL" then mret tt
        else call_err (generate.AddProcessCapability ("CAP_" ++ strings.ToUpper c))) ;;
      range (GetDropCapabilities capabilities) (fun c =>
        if String.eqb (strings.ToUpper c) "ALL" then mret tt
        else call_err (generate.DropProcessCapability ("CAP_" ++ strings.ToUpper c)))
  end.

(** [setOCINamespaces]. *)
Definition setOCINamespaces (namespaces : option NamespaceOption)
  (sandboxPid : Z) : M H unit :=
  call (generate.AddOrReplaceLinuxNamespace "network" (getNetworkNamespace sandboxPid)) ;;
  call (generate.AddOrReplaceLinuxNamespace "ipc" (getIPCNamespace sandboxPid)) ;;
  call (generate.AddOrReplaceLinuxNamespace "uts" (getUTSNamespace sandboxPid)) ;;
  if GetHostPid namespaces then call (generate.RemoveLinuxNamespace "pid")
  else mret tt.

(** [defaultRuntimeSpec]. *)
Definition defaultRuntimeSpec (id : string) : error + runtimespec.Spec :=
  match containerd_GenerateSpec id with
  | inl err => inl (External err)
  | inr spec =>
      let spec :=
        runtimespec.with_Mounts
          (List.filter (fun m =>
             negb (String.eqb (runtimespec.Destination m) "/run"))) spec in
      let spec :=
        runtimespec.with_process (runtimespec.set_ApparmorProfile "") spec in
      inr (runtimespec.with_linux (runtimespec.set_Seccomp None) spec)
  end.

(** [generate.NewFromSpec(spec)]: from here on the run works on [spec]. *)
Definition NewFromSpec (spec : runtimespec.Spec) : M H unit :=
  call (fun _ => spec).

(** [generateContainerSpec]. *)
Definition generateContainerSpec (id : string) (sandboxPid : Z)
  (config : ContainerConfig) (sandboxConfig : PodSandboxConfig)
  (imageConfig : ImageConfig) (extraMounts : list Mount)
  : M H runtimespec.Spec :=
  match defaultRuntimeSpec id with
  | inl err => fail err
  | inr spec =>
      NewFromSpec spec ;;
      call (generate.SetRootPath relativeRootfsPath) ;;
      setOCIProcessArgs config imageConfig ;;
      (if negb (String.eqb (runtime.WorkingDir config) "")
       then call (generate.SetProcessCwd (runtime.WorkingDir config))
       else if negb (String.eqb (imagespec.WorkingDir imageConfig) "")
       then call (generate.SetProcessCwd (imagespec.WorkingDir imageConfig))
       else mret tt) ;;
      call (generate.SetProcessTerminal (Tty config)) ;;
      (if Tty config then call (generate.AddProcessEnv "TERM" "xterm")
       else mret tt) ;;
      addImageEnvs (imagespec.Env imageConfig) ;;
      range (Envs config) (fun e =>
        call (generate.AddProcessEnv (Key e) (Value e))) ;;
      let securityContext := GetSecurityContext (Linux config) in
      let selinuxOpt := GetSelinuxOptions securityContext in
      match initSelinuxOpts selinuxOpt with
      | inl err => fail (ErrInitSelinuxOptions (External err))
      | inr (processLabel, mountLabel) =>
          let mounts := extraMounts ++ runtime.Mounts config in
          wrap ErrSetOCIBindMounts (addOCIBindMounts mounts mountLabel) ;;
          (if GetPrivileged securityContext then
             (if negb (GetPrivileged securityContext)
              then fail ErrNoPrivilegedContainerAllowed
              else mret tt) ;;
             setOCIPrivileged config
           else
             wrap ErrSetDevicesMapping (addOCIDevices (runtime.Devices config)) ;;
             wrap ErrSetCapabilities
               (setOCICapabilities (GetCapabilities securityContext))) ;;
          call (generate.SetProcessSelinuxLabel processLabel) ;;
          call (generate.SetLinuxMountLabel mountLabel) ;;
          call (generate.SetProcessNoNewPrivileges (GetNoNewPrivs securityContext)) ;;
          call (generate.SetRootReadonly (GetReadonlyRootfs securityContext)) ;;
          setOCILinuxResource (GetResources (Linux config)) ;;
          (if negb (String.eqb (CgroupParent sandboxConfig) "") then
             call (generate.SetLinuxCgroupsPath
                     (getCgroupsPath (CgroupParent sandboxConfig) id
                                     config_SystemdCgroup))
           else mret tt) ;;
          setOCINamespaces (GetNamespaceOptions securityContext) sandboxPid ;;
          range (GetSupplementalGroups securityContext) (fun group =>
            call (generate.AddProcessAdditionalGid (uint32 group))) ;;
          Spec
      end
  end.

End Compiler.
End server.

(** ** Terminal resizing ([streaming.go]) *)

Module streaming.

(** [remotecommand.TerminalSize]. *)
Record TerminalSize : Type := { Width : Z; Height : Z }.

(** One receive [size, ok := <-resize]: a size sent on the channel, or the
    report that the channel is closed ([ok] false). *)
Inductive recv : Type :=
  | Sent (size : TerminalSize)
  | Closed.

(** A goroutine is running (blocked on its next receive) or has returned. *)
Inductive status : Type :=
  | Running
  | Returned.

(** One turn of the [for] loop of the goroutine on a receive: the status
    after it and the calls of [resizeFunc] it made. *)
Definition turn (r : recv) : status * list TerminalSize :=
  match r with
  | Closed => (Returned, [])
  | Sent size =>
      if (Height size <? 1)%Z || (Width size <? 1)%Z then (Running, [])
      else (Running, [size])
  end.

(** The goroutine on the receives the channel gives it, in order: its status
    after them and the calls of [resizeFunc] in the order made.  Once it has
    returned it receives nothing more. *)
Fixpoint drain (rs : list recv) : status * list TerminalSize :=
  match rs with
  | [] => (Running, [])
  | r :: rs' =>
      match turn r with
      | (Returned, calls) => (Returned, calls)
      | (Running, calls) =>
          let (st, calls') := drain rs' in (st, calls ++ calls')
      end
  end.

(** A goroutine spawned by [handleResizing], by the channel it drains. *)
Inductive goroutine (chan : Type) : Type :=
  | draining (resize : chan).

Arguments draining {chan} _.

(** [handleResizing]: the goroutines the call spawns before it returns.  The
    channel argument is [None] for a [nil] channel. *)
Definition handleResizing {chan : Type} (resize : option chan)
  : list (goroutine chan) :=
  match resize with
  | None => []
  | Some ch => [draining ch]
  end.

(** The calls of [resizeFunc] made by spawned goroutines, when [history]
    gives the receives of each channel. *)
Definition resizeFunc_calls {chan : Type} (history : chan -> list recv)
  (gs : list (goroutine chan)) : list TerminalSize :=
  concat ((fun g => match g with draining ch => (drain (history ch)).2 end) <$> gs).

(** Both dimensions are at least 1. *)
Definition positive (size : TerminalSize) : bool :=
  (1 <=? Width size)%Z && (1 <=? Height size)%Z.

End streaming.

(** ** The argument vector, in the words of the specification *)

Module argv.
Import runtime imagespec.

(** The vector as the specification words it: the explicit command if it is
    non-empty, else the image entrypoint; then the explicit args if non-empty,
    else the image's default args, those only when no explicit command was
    given. *)
Definition specified (config : ContainerConfig) (imageConfig : ImageConfig)
  : list string :=
  match elems (Command config) with
  | [] =>
      elems (Entrypoint imageConfig) ++
      match elems (Args config) with
      | [] => elems (Cmd imageConfig)
      | args => args
      end
  | command => command ++ elems (Args config)
  end.

(** The same with one change: the image entrypoint stands in for a command
    that is absent ([nil]) only; a command that is present and empty stays
    empty. *)
Definition resolved (config : ContainerConfig) (imageConfig : ImageConfig)
  : list string :=
  match Command config with
  | Some (c :: command) => (c :: command) ++ elems (Args config)
  | Some [] =>
      match elems (Args config) with
      | [] => elems (Cmd imageConfig)
      | args => args
      end
  | None =>
      elems (Entrypoint imageConfig) ++
      match elems (Args config) with
      | [] => elems (Cmd imageConfig)
      | args => args
      end
  end.

End argv.

(** ** The environment, in the words of the specification *)

Module env.

(** The value the last entry named [name] gives it, if an entry does. *)
Fixpoint last_value (name : string) (l : list (string * string))
  : option string :=
  match l with
  | [] => None
  | (k, v) :: l' =>
      match last_value name l' with
      | Some v' => Some v'
      | None => if String.eqb k name then Some v else None
      end
  end.

(** The entries [key=value] of an image, cut at the first [=]; an entry
    without [=] gives none. *)
Definition image_pairs (imageEnvs : list string) : list (string * string) :=
  omap (fun e => strings.cut e "=") imageEnvs.

Definition caller_pairs (envs : list runtime.KeyValue) : list (string * string) :=
  (fun e => (runtime.Key e, runtime.Value e)) <$> envs.

(** Image first, then caller, the last write of a name winning, over the
    environment [base] the process had before. *)
Definition effective (base : gmap string string) (imageEnvs : list string)
  (envs : list runtime.KeyValue) (name : string) : option string :=
  match last_value name (caller_pairs envs) with
  | Some v => Some v
  | None =>
      match last_value name (image_pairs imageEnvs) with
      | Some v => Some v
      | None => base !! name
      end
  end.

(** The environment before the image's entries are applied: that of the
    default specification, with [TERM] set for a terminal. *)
Definition base (spec : runtimespec.Spec) (tty : bool) : gmap string string :=
  if tty then <["TERM" := "xterm"]> (runtimespec.Env (runtimespec.process spec))
  else runtimespec.Env (runtimespec.process spec).

(** The process environment of a specification. *)
Definition of_spec (spec : runtimespec.Spec) : gmap string string :=
  runtimespec.Env (runtimespec.process spec).

(** The first image entry that is not of the form [key=value]. *)
Definition first_invalid (imageEnvs : list string) : option string :=
  List.find (fun e => match strings.cut e "=" with
                      | Some _ => false
                      | None => true
                      end) imageEnvs.

End env.

(** ** Mount propagation, in the words of the specification *)

Module propagation.



(** The low-level option of a propagation mode. *)
Definition option_of (p : runtime.MountPropagation) : string :=
  match p with
  | runtime.PROPAGATION_PRIVATE => "rprivate"
  | runtime.PROPAGATION_BIDIRECTIONAL => "rshared"
  | runtime.PROPAGATION_HOST_TO_CONTAINER => "rslave"
  | runtime.PROPAGATION_undeclared _ => "rprivate"
  end.

(** The root propagation of the container in a run. *)
Definition root {H : Type} (st : State H) : string :=
  runtimespec.RootfsPropagation (runtimespec.linux (gen st)).

(** The bind mount the compiler adds for a mount whose source resolves to
    [src]. *)
Definition bind_of (mount : runtime.Mount) (src : string) : runtimespec.Mount :=
  {| runtimespec.Destination := runtime.ContainerPath mount;
     runtimespec.Type_ := "bind";
     runtimespec.Source := src;
     runtimespec.Options :=
       ["rbind"; option_of (runtime.Propagation mount);
        if runtime.Readonly mount then "ro" else "rw"] |}.


End propagation.

(** ** Capabilities, in the words of the specification *)

Module caps.

(** The capabilities of the process in a run. *)
Definition of_state {H : Type} (st : State H) : list string :=
  runtimespec.Capabilities (runtimespec.process (gen st)).

(** [x] is the name, with the [CAP_] prefix, of an entry of [l] other than
    [ALL]. *)
Definition individually (l : list string) (x : string) : Prop :=
  ∃ c, c ∈ l ∧ strings.ToUpper c ≠ "ALL" ∧ x = ("CAP_" ++ strings.ToUpper c)%string.

(** The name of an entry, none for [ALL]. *)
Definition individual (c : string) : option string :=
  if String.eqb (strings.ToUpper c) "ALL" then None
  else Some ("CAP_" ++ strings.ToUpper c)%string.

(** The names of the entries of [l] other than [ALL]. *)
Definition names (l : list string) : list string :=
  (fun c => ("CAP_" ++ strings.ToUpper c)%string)
    <$> List.filter (fun c => negb (String.eqb (strings.ToUpper c) "ALL")) l.

(** [x] names an available capability: one of the capability table that is
    not above the last capability the host knows, under the name the
    specification gives it. *)
Definition available `{Collaborators} (x : string) : Prop :=
  ∃ cap, cap ∈ capability_List ∧ (cap ≤ validate_LastCap)%Z ∧
         x = ("CAP_" ++ strings.ToUpper (cap_String cap))%string.

(** Every name a declaration makes the compiler pass to the generator. *)
Definition requested `{Collaborators} (c : runtime.Capability) : list string :=
  (if util_InStringSlice (runtime.AddCapabilities c) "ALL"
   then server.getOCICapabilitiesList else []) ++
  (if util_InStringSlice (runtime.DropCapabilities c) "ALL"
   then server.getOCICapabilitiesList else []) ++
  names (runtime.AddCapabilities c) ++ names (runtime.DropCapabilities c).

End caps.

(** ** Worked instances *)

Module instances.
Import sandbox.

Definition sb (id : string) : Sandbox :=
  {| metadata := {| ID := id; Name := "sandbox-" ++ id |};
     Container := 0; NetNS := None |}.

(** The store after [Add] of the sandboxes [abc123] and [abd456]. *)
Definition two_sandboxes : SpecStore :=
  {| sandboxes := <["abd456" := sb "abd456"]> (<["abc123" := sb "abc123"]> ∅);
     idIndex := {[ "abd456" ]} ∪ ({[ "abc123" ]} ∪ ∅) |}.

(** The store after [Add] of the sandbox [abc123] alone. *)
Definition one_sandbox : SpecStore :=
  {| sandboxes := <["abc123" := sb "abc123"]> ∅;
     idIndex := {[ "abc123" ]} ∪ ∅ |}.

(** A host with one directory tree: [/data] exists and is a shared mount,
    [/mnt/slave] exists and is a slave mount, every other path exists and is a
    private mount; nothing fails. *)
#[export] Instance quiet_host : HostOS unit := {|
  os_Stat _ _ := None;
  os_IsNotExist _ := false;
  os_MkdirAll h _ _ := (h, None);
  os_ResolveSymbolicLink _ p := inr p;
  os_LookupMount _ p :=
    inr {| mount.Mountpoint := p;
           mount.Optional :=
             if String.eqb p "/data" then "shared:12"
             else if String.eqb p "/mnt/slave" then "master:3"
             else "" |};
  label_Relabel h _ _ _ := (h, None);
  devices_DeviceFromPath _ p perm :=
    inr {| devices.Path := p; devices.Type_ := "c"; devices.Major := 1;
           devices.Minor := 3; devices.Uid := 0; devices.Gid := 0;
           devices.Permissions := perm |};
  devices_HostDevices _ := inr []
|}.

Definition empty_process : runtimespec.Process :=
  {| runtimespec.Terminal := false; runtimespec.Args := [];
     runtimespec.Env := {[ "PATH" := "/usr/bin:/bin" ]};
     runtimespec.Cwd := "/";
     runtimespec.Capabilities := ["CAP_KILL"];
     runtimespec.NoNewPrivileges := false; runtimespec.ApparmorProfile := "";
     runtimespec.OOMScoreAdj := 0; runtimespec.SelinuxLabel := "";
     runtimespec.AdditionalGids := [] |}.

Definition default_spec : runtimespec.Spec :=
  {| runtimespec.process := empty_process;
     runtimespec.root := {| runtimespec.Path := ""; runtimespec.root_Readonly := false |};
     runtimespec.Mounts :=
       [{| runtimespec.Destination := "/proc"; runtimespec.Type_ := "proc";
           runtimespec.Source := "proc"; runtimespec.Options := [] |};
        {| runtimespec.Destination := "/run"; runtimespec.Type_ := "tmpfs";
           runtimespec.Source := "tmpfs"; runtimespec.Options := ["nosuid"] |}];
     runtimespec.linux :=
       {| runtimespec.RootfsPropagation := ""; runtimespec.MountLabel := "";
          runtimespec.CgroupsPath := ""; runtimespec.Namespaces := [("pid", "")];
          runtimespec.Devices := []; runtimespec.ReadonlyPaths := ["/proc/sys"];
          runtimespec.MaskedPaths := ["/proc/kcore"];
          runtimespec.Seccomp := None;
          runtimespec.Resources :=
            {| runtimespec.res_Devices := []; runtimespec.CPUPeriod := 0;
               runtimespec.CPUQuota := 0; runtimespec.CPUShares := 0;
               runtimespec.CPUCpus := ""; runtimespec.CPUMems := "";
               runtimespec.MemoryLimit := 0 |} |} |}.

(** Three capabilities (0 chown, 1 dac_override, 5 kill), all known to the
    host and valid; membership in a slice up to the case of the letters. *)
Definition cap_names (cap : Z) : string :=
  if (cap =? 0)%Z then "chown"
  else if (cap =? 1)%Z then "dac_override"
  else "kill".

#[export] Instance small_world : Collaborators := {|
  relativeRootfsPath := "rootfs";
  config_SystemdCgroup := false;
  containerd_GenerateSpec _ := inr default_spec;
  initSelinuxOpts _ := inr ("", "");
  getCgroupsPath parent id _ := (parent ++ "/" ++ id)%string;
  getNetworkNamespace pid := "/proc/1/ns/net";
  getIPCNamespace pid := "/proc/1/ns/ipc";
  getUTSNamespace pid := "/proc/1/ns/uts";
  capability_List := [0; 1; 5]%Z;
  cap_String := cap_names;
  validate_LastCap := 37%Z;
  validate_CapValid c :=
    if existsb (String.eqb c) ["CAP_CHOWN"; "CAP_DAC_OVERRIDE"; "CAP_KILL"]
    then None else Some (ErrorString "Invalid capability");
  util_InStringSlice ss str :=
    existsb (fun s => String.eqb (strings.ToUpper s) (strings.ToUpper str)) ss
|}.

Definition start : State unit :=
  {| gen := default_spec; host := tt; warnings := [] |}.

Definition no_security : runtime.LinuxContainerSecurityContext :=
  {| runtime.Capabilities := None; runtime.Privileged := false;
     runtime.NamespaceOptions := None; runtime.SelinuxOptions := None;
     runtime.ReadonlyRootfs := false; runtime.SupplementalGroups := [];
     runtime.NoNewPrivs := false |}.

Definition image_sh : imagespec.ImageConfig :=
  {| imagespec.Env := ["A=1"]; imagespec.Entrypoint := Some ["/bin/sh"];
     imagespec.Cmd := Some ["-c"; "true"]; imagespec.WorkingDir := "" |}.

Definition config_of (command args : slice string)
  (envs : list runtime.KeyValue) : runtime.ContainerConfig :=
  {| runtime.Command := command; runtime.Args := args;
     runtime.WorkingDir := ""; runtime.Envs := envs; runtime.Mounts := [];
     runtime.Devices := []; runtime.Tty := false; runtime.Linux := None |}.

Definition bind_mount (host_path : string) (p : runtime.MountPropagation)
  : runtime.Mount :=
  {| runtime.ContainerPath := "/c"; runtime.HostPath := host_path;
     runtime.Readonly := false; runtime.SelinuxRelabel := false;
     runtime.Propagation := p |}.

(** A privileged container that asks for a terminal, a working directory, a
    cgroup parent, two supplemental groups and a read-only root. *)
Definition privileged_config : runtime.ContainerConfig :=
  {| runtime.Command := Some ["/bin/echo"]; runtime.Args := None;
     runtime.WorkingDir := "/work"; runtime.Envs := [];
     runtime.Mounts := [bind_mount "/x" runtime.PROPAGATION_PRIVATE];
     runtime.Devices := []; runtime.Tty := true;
     runtime.Linux :=
       Some {| runtime.Resources := None;
               runtime.SecurityContext :=
                 Some {| runtime.Capabilities := None;
                         runtime.Privileged := true;
                         runtime.NamespaceOptions := None;
                         runtime.SelinuxOptions := None;
                         runtime.ReadonlyRootfs := true;
                         runtime.SupplementalGroups := [5; 4294967297]%Z;
                         runtime.NoNewPrivs := true |} |} |}.

(** The same container, not privileged, with no device and no capability
    declaration. *)
Definition plain_config : runtime.ContainerConfig :=
  {| runtime.Command := Some ["/bin/echo"]; runtime.Args := None;
     runtime.WorkingDir := "/work"; runtime.Envs := [];
     runtime.Mounts := [bind_mount "/x" runtime.PROPAGATION_PRIVATE];
     runtime.Devices := []; runtime.Tty := true;
     runtime.Linux :=
       Some {| runtime.Resources := None;
               runtime.SecurityContext :=
                 Some {| runtime.Capabilities := None;
                         runtime.Privileged := false;
                         runtime.NamespaceOptions := None;
                         runtime.SelinuxOptions := None;
                         runtime.ReadonlyRootfs := true;
                         runtime.SupplementalGroups := [5; 4294967297]%Z;
                         runtime.NoNewPrivs := true |} |} |}.

Definition in_kube : runtime.PodSandboxConfig := {| runtime.CgroupParent := "/kube" |}.

(** The result of a run, or the start when the run fails. *)
Definition result_of (r : error + runtimespec.Spec * State unit)
  : runtimespec.Spec * State unit :=
  match r with
  | inr x => x
  | inl _ => (default_spec, start)
  end.

Definition privileged_run : error + runtimespec.Spec * State unit :=
  server.generateContainerSpec "id" 1 privileged_config in_kube image_sh
    [bind_mount "/data" runtime.PROPAGATION_BIDIRECTIONAL] start.

Definition plain_run : error + runtimespec.Spec * State unit :=
  server.generateContainerSpec "id" 1 plain_config in_kube image_sh
    [bind_mount "/data" runtime.PROPAGATION_BIDIRECTIONAL] start.

End instances.

(** ** Devices, in the shape the compiler gives them *)

Module devs.

(** The device node the compiler adds for a host device, at [path]. *)
Definition node (path : string) (dev : devices.Device) : runtimespec.LinuxDevice :=
  {| runtimespec.dev_Path := path;
     runtimespec.dev_Type := devices.Type_ dev;
     runtimespec.dev_Major := devices.Major dev;
     runtimespec.dev_Minor := devices.Minor dev;
     runtimespec.dev_UID := devices.Uid dev;
     runtimespec.dev_GID := devices.Gid dev |}.

(** The cgroup rule that allows a host device with its permissions. *)
Definition rule (dev : devices.Device) : runtimespec.LinuxDeviceCgroup :=
  {| runtimespec.Allow := true;
     runtimespec.cg_Type := devices.Type_ dev;
     runtimespec.cg_Major := Some (devices.Major dev);
     runtimespec.cg_Minor := Some (devices.Minor dev);
     runtimespec.Access := devices.Permissions dev |}.

(** The cgroup rule that allows every device. *)
Definition allow_all : runtimespec.LinuxDeviceCgroup :=
  {| runtimespec.Allow := true; runtimespec.cg_Type := "";
     runtimespec.cg_Major := None; runtimespec.cg_Minor := None;
     runtimespec.Access := "rwm" |}.

(** A host device with a device number; one with major and minor 0 is most
    likely a symbolic link. *)
Definition numbered (dev : devices.Device) : bool :=
  negb (Z.eqb (devices.Major dev) 0 && Z.eqb (devices.Minor dev) 0).

Definition of_state {H : Type} (st : State H) : list runtimespec.LinuxDevice :=
  runtimespec.Devices (runtimespec.linux (gen st)).

Definition rules_of_state {H : Type} (st : State H)
  : list runtimespec.LinuxDeviceCgroup :=
  runtimespec.res_Devices (runtimespec.Resources (runtimespec.linux (gen st))).

End devs.

(** A run of [m] that succeeds leaves the host as it was. *)
Definition keeps_host {H A : Type} (m : M H A) : Prop :=
  forall st a st', m st = inr (a, st') -> host st' = host st.

(** [m] fails with errors of the kind [P] only. *)
Definition fails_only {H A : Type} (P : error -> Prop) (m : M H A) : Prop :=
  forall st e, m st = inl e -> P e.

(** ** The working directory and the mounts, as the compiler resolves them *)

Module resolved.
Import runtime.

(** The working directory: the explicit one if given, else the image's if it
    has one, else the one [default] of the default specification. *)
Definition cwd (config : ContainerConfig) (imageConfig : imagespec.ImageConfig)
  (default : string) : string :=
  if negb (String.eqb (WorkingDir config) "") then WorkingDir config
  else if negb (String.eqb (imagespec.WorkingDir imageConfig) "")
  then imagespec.WorkingDir imageConfig
  else default.

(** The cgroup mount [addOCIBindMounts] adds first. *)
Definition cgroup_mount : runtimespec.Mount :=
  {| runtimespec.Destination := "/sys/fs/cgroup";
     runtimespec.Type_ := "cgroup";
     runtimespec.Source := "cgroup";
     runtimespec.Options := ["nosuid"; "noexec"; "nodev"; "relatime"; "ro"] |}.

(** What [setOCIBindMountsPrivileged] makes of a mount, for a root that is
    read-only or not. *)
Definition privileged_mount (root_readonly : bool) (m : runtimespec.Mount)
  : runtimespec.Mount :=
  let m1 :=
    if String.eqb (runtimespec.Destination m) "/sys" && negb root_readonly
    then server.clearReadOnly m else m in
  if String.eqb (runtimespec.Type_ m) "cgroup"
  then server.clearReadOnly m1 else m1.


(** An error of a collaborator, passed on as it is. *)
Definition is_external (e : error) : Prop :=
  match e with
  | External _ => True
  | _ => False
  end.

(** The kinds of error [addOCIBindMounts] returns. *)
Definition mount_error (e : error) : Prop :=
  match e with
  | External _ | ErrStat _ (External _) | ErrMkdir _ (External _)
  | ErrResolveSymlink (External _) | ErrRelabel _ _ (External _)
  | ErrNotSharedMount _ _ | ErrNotSharedOrSlaveMount _ _ => True
  | _ => False
  end.

(** The kinds of error [generateContainerSpec] returns. *)
Definition spec_error (e : error) : Prop :=
  match e with
  | External _ | ErrNoCommandSpecified | ErrInvalidEnvironmentVariable _
  | ErrInitSelinuxOptions (External _)
  | ErrSetDevicesMapping (External _) | ErrSetCapabilities (External _) => True
  | ErrSetOCIBindMounts cause => mount_error cause
  | _ => False
  end.

End resolved.

(** ** The streaming runtime (streaming.go, the methods of [streamRuntime]) *)

Module streamRuntime.

(** The errors the methods return: the error of a collaborator as it is, and
    one constructor for each error made here. *)
Inductive error : Type :=
  | Collaborator (err : exterror)
  | ErrExecInContainer (cause : exterror)
  | CodeExitError (cmd : list string) (Code : Z)
  | ErrInvalidPort (port : Z).

(** A call returns an error value, which may be [nil], or panics. *)
Inductive outcome : Type :=
  | Returns (err : option error)
  | Panics.

(** [execOptions]; the streams and the channel are handles. *)
Record execOptions {Stream Chan : Type} : Type := {
  cmd : list string;
  stdin : Stream;
  stdout : Stream;
  stderr : Stream;
  tty : bool;
  resize : Chan
}.
Arguments execOptions : clear implicits.

(** The conversion [int(v)] of a [uint32], for an [int] of [bits] bits. *)
Definition int_of (bits : Z) (v : Z) : Z :=
  let m := (v mod 2 ^ bits)%Z in
  if (m <? 2 ^ (bits - 1))%Z then m else (m - 2 ^ bits)%Z.

Definition MaxUint16 : Z := 65535.

Section Runtime.
Context {Stream Chan : Type}.

(** [bits] is the width of [int].  [execInContainer] returns a pointer to the
    exit code, which may be [nil], and an error; [portForward] an error. *)
Variable bits : Z.
Variable execInContainer :
  string -> execOptions Stream Chan -> option Z * option exterror.
Variable portForward : string -> Z -> Stream -> option exterror.

Definition Exec (containerID : string) (cmd : list string)
  (stdin stdout stderr : Stream) (tty : bool) (resize : Chan) : outcome :=
  let '(exitCode, err) :=
    execInContainer containerID
      {| cmd := cmd; stdin := stdin; stdout := stdout; stderr := stderr;
         tty := tty; resize := resize |} in
  match err with
  | Some err => Returns (Some (ErrExecInContainer err))
  | None =>
      match exitCode with
      | None => Panics        (* [*exitCode] of a nil pointer *)
      | Some code =>
          if (code =? 0)%Z then Returns None
          else Returns (Some (CodeExitError cmd (int_of bits code)))
      end
  end.

Definition PortForward (podSandboxID : string) (port : Z) (stream : Stream)
  : option error :=
  if (port <=? 0)%Z || (MaxUint16 <? port)%Z then Some (ErrInvalidPort port)
  else Collaborator <$> portForward podSandboxID port stream.

End Runtime.

End streamRuntime.

(** ** The stream executor (remotecommand.go) *)

Module remotecommand.

(** The four protocol handlers [newStreamProtocolV1] .. [newStreamProtocolV4]. *)
Inductive version : Type := V1 | V2 | V3 | V4.

(** What a call of [Stream] does to the connection, in order. *)
Inductive event : Type :=
  | Opened                      (* [spdy.Negotiate] gave a connection *)
  | Notice                      (* the fall-back notice of [glog] *)
  | Streamed (v : version)      (* [streamer.stream(conn)] *)
  | Closed.                     (* the deferred [conn.Close()] *)

Inductive error : Type :=
  | Collaborator (err : exterror)
  | ErrCreatingRequest (cause : exterror).

Inductive outcome : Type :=
  | Returns (err : option error)
  | Panics.

(** [streamExecutor]; [url] is a pointer, [None] is [nil], and [Some u] is a
    URL that [String] prints as [u]. *)
Record streamExecutor {Upgrader Transport : Type} : Type := {
  upgrader : Upgrader;
  transport : Transport;
  method : string;
  url : option string;
  protocols : list string
}.
Arguments streamExecutor : clear implicits.

Section Executor.
Context {Config Upgrader Transport Request Conn Options : Type}.

(** The names of the protocols, constants of apimachinery's package
    [remotecommand]; and the calls out of this file. *)
Variables StreamProtocolV1Name StreamProtocolV2Name : string.
Variables StreamProtocolV3Name StreamProtocolV4Name : string.
Variable spdy_RoundTripperFor : Config -> exterror + Transport * Upgrader.
Variable transport_DebugWrappers : Transport -> Transport.
Variable http_NewRequest : string -> string -> exterror + Request.
Variable spdy_Negotiate :
  Upgrader -> Transport -> Request -> list string -> exterror + Conn * string.
Variable handler_stream : version -> Options -> Conn -> option exterror.

Definition NewSPDYExecutorForProtocols (config : Config) (method : string)
  (url : option string) (protocols : list string)
  : exterror + streamExecutor Upgrader Transport :=
  match spdy_RoundTripperFor config with
  | inl err => inl err
  | inr (wrapper, upgradeRoundTripper) =>
      inr {| upgrader := upgradeRoundTripper;
             transport := transport_DebugWrappers wrapper;
             method := method;
             url := url;
             protocols := protocols |}
  end.

Definition NewSPDYExecutor (config : Config) (method : string)
  (url : option string) : exterror + streamExecutor Upgrader Transport :=
  NewSPDYExecutorForProtocols config method url
    [StreamProtocolV4Name; StreamProtocolV3Name;
     StreamProtocolV2Name; StreamProtocolV1Name].

(** The [switch] on the negotiated protocol, its cases in the order of the
    source: the handler chosen, [None] when [streamer] stays [nil], and
    whether the fall-back notice is logged. *)
Definition streamer_of (protocol : string) : option version * bool :=
  if String.eqb protocol StreamProtocolV4Name then (Some V4, false)
  else if String.eqb protocol StreamProtocolV3Name then (Some V3, false)
  else if String.eqb protocol StreamProtocolV2Name then (Some V2, false)
  else if String.eqb protocol "" then (Some V1, true)
  else if String.eqb protocol StreamProtocolV1Name then (Some V1, false)
  else (None, false).

Definition Stream (e : streamExecutor Upgrader Transport) (options : Options)
  : outcome * list event :=
  match url e with
  | None => (Panics, [])      (* [String] of a nil URL *)
  | Some u =>
      match http_NewRequest (method e) u with
      | inl err => (Returns (Some (ErrCreatingRequest err)), [])
      | inr req =>
          match spdy_Negotiate (upgrader e) (transport e) req (protocols e) with
          | inl err => (Returns (Some (Collaborator err)), [])
          | inr (conn, protocol) =>
              let '(streamer, notice) := streamer_of protocol in
              let log := Opened :: (if notice then [Notice] else []) in
              match streamer with
              | None => (Panics, log ++ [Closed])
              | Some v =>
                  (Returns (Collaborator <$> handler_stream v options conn),
                   log ++ [Streamed v; Closed])
              end
          end
      end
  end.

End Executor.

End remotecommand.

(** ** The backend manager (package [backend]) *)

Module backend.

(** [strings.ToLower] on the ASCII range: the bytes ['A'..'Z'] are mapped
    to ['a'..'z'], every other byte is kept. *)
Definition lower_byte (c : ascii) : ascii :=
  let n := nat_of_ascii c in
  if (65 <=? n)%nat && (n <=? 90)%nat then ascii_of_nat (n + 32) else c.

Fixpoint ToLower (s : string) : string :=
  match s with
  | EmptyString => EmptyString
  | String c s' => String (lower_byte c) (ToLower s')
  end.

Inductive error : Type :=
  | Collaborator (err : exterror)
  | ErrUnknownBackendType (betype : string).

Section Manager.
Context {Backend World : Type}.

(** [BackendCtor]: a constructor acts on the world outside and gives a
    backend or an error. *)
Definition BackendCtor : Type := World -> (exterror + Backend) * World.

(** The package variable [constructors]. *)
Definition Constructors : Type := gmap string BackendCtor.

Definition Register (name : string) (ctor : BackendCtor)
  (constructors : Constructors) : Constructors :=
  <[name := ctor]> constructors.

(** [manager]: the active backends; for each goroutine that has not yet
    taken its type off [active], that type; and the number of goroutines that
    have taken theirs off and given the mutex back, and have not yet called
    [wg.Done].  The mutex is left out: [GetBackend] holds it from entry to
    exit, and a goroutine from [Lock] to [Unlock], so each is one step. *)
Record manager : Type := {
  active : gmap string Backend;
  waiting : list string;
  leaving : nat
}.

Definition NewManager : manager :=
  {| active := ∅; waiting := []; leaving := 0 |}.

(** The counter of the wait group [wg]: the goroutines started, [Add(1)]
    each, less those that have called [Done]. *)
Definition wg (bm : manager) : nat := length (waiting bm) + leaving bm.

Definition GetBackend (constructors : Constructors) (bm : manager)
  (backendType : string) (w : World) : (error + Backend) * manager * World :=
  let betype := ToLower backendType in
  match active bm !! betype with
  | Some be => (inr be, bm, w)
  | None =>
      match constructors !! betype with
      | None => (inl (ErrUnknownBackendType betype), bm, w)
      | Some befunc =>
          match befunc w with
          | (inl err, w') => (inl (Collaborator err), bm, w')
          | (inr be, w') =>
              (inr be,
               {| active := <[betype := be]> (active bm);
                  waiting := waiting bm ++ [betype];
                  leaving := leaving bm |},
               w')
          end
      end
  end.

(** The goroutine at place [i], once the context is done: between [Lock]
    and [Unlock] it takes its type off [active]; its [wg.Done] is still to
    come. *)
Definition take_off (bm : manager) (i : nat) : manager :=
  match waiting bm !! i with
  | Some betype =>
      {| active := delete betype (active bm);
         waiting := take i (waiting bm) ++ drop (S i) (waiting bm);
         leaving := S (leaving bm) |}
  | None => bm
  end.

(** [wg.Done()] of a goroutine that has given the mutex back. *)
Definition leave (bm : manager) : manager :=
  match leaving bm with
  | S n => {| active := active bm; waiting := waiting bm; leaving := n |}
  | O => bm
  end.

(** The active backends are those with a goroutine that has not yet taken
    its type off, one goroutine each, and their types are in lower case. *)
Definition tracked (bm : manager) : Prop :=
  NoDup (waiting bm) ∧
  (∀ betype, is_Some (active bm !! betype) ↔ betype ∈ waiting bm) ∧
  (∀ betype, betype ∈ waiting bm → ToLower betype = betype).

End Manager.

Arguments manager Backend : clear implicits.
Arguments BackendCtor Backend World : clear implicits.
Arguments Constructors Backend World : clear implicits.

End backend.

(** A worked manager. *)

Module worked_backend.

(** One constructor, registered as [vxlan]: it gives the backend [7] and
    counts its runs in the world. *)
Definition vxlan_only : backend.Constructors nat nat :=
  backend.Register "vxlan" (λ w, (inr 7, S w)) ∅.

(** The manager once [vxlan] is active. *)
Definition vxlan_active : backend.manager nat :=
  {| backend.active := <["vxlan" := 7]> ∅; backend.waiting := ["vxlan"];
     backend.leaving := 0 |}.

(** The manager after [vxlan] became active, its goroutine took it off and
    gave the mutex back, and [vxlan] was asked for again before that
    goroutine called [wg.Done]. *)
Definition vxlan_again : backend.manager nat :=
  (backend.GetBackend vxlan_only
     (backend.take_off vxlan_active 0) "vxlan" 1).1.2.

End worked_backend.

(** ** Container creation (container_create.go: [CreateContainer] and its
    two mount helpers) *)

Module create.
Import runtime.

(** The errors of the functions embedded above. *)
Definition top_error : Type := error.

(** What creation uses of the files of package [server] that are not
    embedded here, and of [filepath]. *)
Class Helpers : Type := {
  etcHosts : string;
  resolvConfPath : string;
  devShm : string;
  containerKindContainer : string;
  containerMetadataExtension : string;
  isInCRIMounts : string -> list Mount -> bool;
  getSandboxHosts : string -> string;
  getResolvPath : string -> string;
  getSandboxDevShm : string -> string;
  getContainerRootDir : string -> string -> string;
  getSandboxRootDir : string -> string -> string;
  filepath_Join : list string -> string
}.

Definition GetHostIpc (n : option NamespaceOption) : bool :=
  match n with
  | Some o => HostIpc o
  | None => false
  end.

(** A mount literal that names the two paths and the read-only flag: the
    other fields hold their zero values, no relabelling and the propagation
    numbered 0, which the CRI names [PROPAGATION_PRIVATE]. *)
Definition mount_of (dst src : string) (ro : bool) : Mount :=
  {| ContainerPath := dst; HostPath := src; Readonly := ro;
     SelinuxRelabel := false; Propagation := PROPAGATION_PRIVATE |}.

Section Mounts.
Context `{Helpers} {G : Type}.

(** [util.GenerateID] draws from a source of identifiers. *)
Variable util_GenerateID : G -> string * G.

(** The loop of [generateVolumeMounts] over the destinations [dsts]. *)
Fixpoint volume_mounts (containerRootDir : string) (criMounts : list Mount)
  (dsts : list string) (g : G) : list Mount * G :=
  match dsts with
  | [] => ([], g)
  | dst :: dsts' =>
      if isInCRIMounts dst criMounts
      then volume_mounts containerRootDir criMounts dsts' g
      else
        let (volumeID, g1) := util_GenerateID g in
        let src := filepath_Join [containerRootDir; "volumes"; volumeID] in
        let (mounts, g2) := volume_mounts containerRootDir criMounts dsts' g1 in
        (mount_of dst src false :: mounts, g2)
  end.

(** [generateVolumeMounts]; [volumes] is [config.Volumes], a map used as a
    set of destinations, which the loop visits in the order [elements] gives
    them, one of the orders Go may take. *)
Definition generateVolumeMounts (containerRootDir : string)
  (criMounts : list Mount) (volumes : gset string) (g : G) : list Mount * G :=
  if decide (size volumes = 0) then ([], g)
  else volume_mounts containerRootDir criMounts (elements volumes) g.

(** [generateContainerMounts]. *)
Definition generateContainerMounts (sandboxRootDir : string)
  (config : ContainerConfig) : list Mount :=
  let mounts := [] in
  let securityContext := GetSecurityContext (Linux config) in
  let mounts :=
    if negb (isInCRIMounts etcHosts (runtime.Mounts config))
    then mounts ++ [mount_of etcHosts (getSandboxHosts sandboxRootDir)
                             (GetReadonlyRootfs securityContext)]
    else mounts in
  let mounts :=
    if negb (isInCRIMounts resolvConfPath (runtime.Mounts config))
    then mounts ++ [mount_of resolvConfPath (getResolvPath sandboxRootDir)
                             (GetReadonlyRootfs securityContext)]
    else mounts in
  let mounts :=
    if negb (isInCRIMounts devShm (runtime.Mounts config))
    then
      let sandboxDevShm := getSandboxDevShm sandboxRootDir in
      let sandboxDevShm :=
        if GetHostIpc (GetNamespaceOptions securityContext)
        then devShm else sandboxDevShm in
      mounts ++ [mount_of devShm sandboxDevShm false]
    else mounts in
  mounts.

End Mounts.

(** The fields of the request that the compiler of the specification does
    not read. *)
Record Rest {CMeta SMeta Labels : Type} : Type := {
  Metadata : CMeta;
  SandboxMetadata : SMeta;
  Image : string;
  LogPath : string;
  Labels_ : Labels;
  Stdin : bool;
  RunAsUser : option Z;
  RunAsUsername : string;
  ApparmorProfile : string;
  SeccompProfilePath : string
}.
Arguments Rest : clear implicits.

Record CreateContainerRequest {CMeta SMeta Labels : Type} : Type := {
  PodSandboxId : string;
  Config : ContainerConfig;
  SandboxConfig : PodSandboxConfig;
  rest : Rest CMeta SMeta Labels
}.
Arguments CreateContainerRequest : clear implicits.

(** A resolved image: its ID, its configuration with the volumes apart, and
    the handle of the containerd image. *)
Record image : Type := {
  img_ID : string;
  img_Config : imagespec.ImageConfig;
  img_Volumes : gset string;
  img_Image : nat
}.

(** [containerstore.Metadata], as far as it is filled here. *)
Record Metadata_ {CMeta SMeta Labels : Type} : Type := {
  meta_ID : string;
  meta_Name : string;
  meta_SandboxID : string;
  meta_Config : ContainerConfig * Rest CMeta SMeta Labels;
  meta_ImageRef : string;
  meta_LogPath : string
}.
Arguments Metadata_ : clear implicits.

(** The options given to [containerd.WithSpec]. *)
Inductive specOpt : Type :=
  | WithUserID (uid : Z)
  | WithUsername (username : string)
  | Profile (o : server.SpecOpts).

(** [containerd.NewContainerOpts]. *)
Inductive opt {CMeta SMeta Labels : Type} : Type :=
  | WithSnapshotter (name : string)
  | WithImageUnpack (i : nat)
  | WithNewSnapshot (id : string) (i : nat)
  | WithVolumes (mountMap : gmap string string)
  | WithSpec (spec : runtimespec.Spec) (specOpts : list specOpt)
  | WithRuntime (name engine root : string) (systemdCgroup : bool)
  | WithContainerLabels (labels : Labels)
  | WithContainerExtension (name : string) (meta : Metadata_ CMeta SMeta Labels).
Arguments opt : clear implicits.

(** What a run of [CreateContainer] does outside by its own calls: what it
    acquires, when the call succeeds, and every call that gives something
    back.  What [generateContainerSpec] does to the host is not among these
    events: it is told by the run of [generateContainerSpec] itself. *)
Inductive event {CMeta SMeta Labels : Type} : Type :=
  | Reserved (name id : string)
  | ReleaseByName (name : string)
  | MkdirAll (path : string)
  | RemoveAll (path : string)
  | NewContainerIO (io : nat)
  | containerIO_Close (io : nat)
  | client_NewContainer (cntr : nat) (id : string)
      (opts : list (opt CMeta SMeta Labels))
  | cntr_Delete (cntr : nat)
  | containerstore_NewContainer (container : nat)
      (meta : Metadata_ CMeta SMeta Labels)
  | container_Delete (container : nat)
  | containerStore_Add (container : nat)
  | Errorf (cause : exterror).
Arguments event : clear implicits.

(** One constructor for each error [CreateContainer] makes. *)
Inductive error : Type :=
  | ErrFindSandbox (id : string) (cause : top_error)
  | ErrGetSandboxTask (cause : exterror)
  | ErrReserveName (name : string) (cause : exterror)
  | ErrResolveImage (imageRef : string) (cause : exterror)
  | ErrImageNotFound (imageRef : string)
  | ErrCreateRootDir (dir : string) (cause : exterror)
  | ErrGenerateSpec (id : string) (cause : top_error)
  | ErrCreateContainerIO (cause : exterror)
  | ErrGenerateApparmor (cause : top_error)
  | ErrGenerateSeccomp (cause : top_error)
  | ErrCreateContainerdContainer (cause : exterror)
  | ErrCreateInternal (id : string) (cause : exterror)
  | ErrAddContainer (id : string) (cause : exterror).

Section Service.
Context {H : Type} {os : HostOS H} {world : Collaborators} {helpers : Helpers}.
Context {I : Type} {index : sandbox.TruncIndex I}.
Context {G CMeta SMeta Labels : Type}.

#[local] Abbreviation event := (event CMeta SMeta Labels).
#[local] Abbreviation opt := (opt CMeta SMeta Labels).
#[local] Abbreviation Metadata_ := (Metadata_ CMeta SMeta Labels).

(** The service: its stores and its configuration. *)
Record criContainerdService : Type := {
  sandboxStore : sandbox.Store I;
  RootDir : string;
  Snapshotter : string;
  Runtime : string;
  RuntimeEngine : string;
  RuntimeRoot : string;
  apparmorEnabled : bool;
  seccompEnabled : bool
}.

(** The calls out of the files embedded here.  Each is made once in a run at
    most, so what it answers is a function of what it is given. *)
Record Outside : Type := {
  util_GenerateID : G -> string * G;
  makeContainerName : CMeta -> SMeta -> string;
  buildLabels : Labels -> string -> Labels;
  sandbox_Task_Pid : nat -> exterror + Z;
  sandbox_LogDirectory : sandbox.Sandbox -> string;
  containerNameIndex_Reserve : string -> string -> option exterror;
  localResolve : string -> exterror + option image;
  os_RemoveAll : string -> option exterror;
  cio_NewContainerIO : string -> string -> bool -> bool -> exterror + nat;
  cio_Close : nat -> option exterror;
  containerd_NewContainer : string -> list opt -> exterror + nat;
  containerd_Delete : nat -> option exterror;
  time_Now_UnixNano : Z;
  store_NewContainer : Metadata_ -> Z -> string -> nat -> nat -> exterror + nat;
  store_Delete : nat -> option exterror;
  store_Add : nat -> option exterror
}.

(** A run: the source of identifiers, what was done outside so far, and the
    deferred calls, the last deferred first.  A deferred call is given
    whether [retErr] is set and tells what it does. *)
Record Run : Type := {
  ids : G;
  trace : list event;
  deferred : list (bool -> list event)
}.

Definition C (A : Type) : Type := Run -> (error + A) * Run.

Definition C_ret {A : Type} (a : A) : C A := fun r => (inr a, r).

Definition C_bind {A B : Type} (f : A -> C B) (m : C A) : C B :=
  fun r =>
    match m r with
    | (inl e, r') => (inl e, r')
    | (inr a, r') => f a r'
    end.

#[local] Instance C_mret : MRet C := @C_ret.
#[local] Instance C_mbind : MBind C := @C_bind.

(** [return nil, err]. *)
Definition throw {A : Type} (e : error) : C A := fun r => (inl e, r).

(** [if err != nil { return nil, fmt.Errorf(...) }] after a call. *)
Definition check {A : Type} (w : exterror -> error) (res : exterror + A) : C A :=
  match res with
  | inl err => throw (w err)
  | inr a => mret a
  end.

Definition check_err (w : exterror -> error) (res : option exterror) : C unit :=
  match res with
  | Some err => throw (w err)
  | None => mret tt
  end.

Definition emit (ev : event) : C unit :=
  fun r => (inr tt, {| ids := ids r; trace := trace r ++ [ev];
                       deferred := deferred r |}).

(** [defer func() { if retErr != nil { ... } }()]. *)
Definition defer (undo : list event) : C unit :=
  fun r => (inr tt, {| ids := ids r; trace := trace r;
                       deferred := (fun failed : bool =>
                                      if failed then undo else []) :: deferred r |}).

Definition with_ids {A : Type} (f : G -> A * G) : C A :=
  fun r =>
    let (a, g) := f (ids r) in
    (inr a, {| ids := g; trace := trace r; deferred := deferred r |}).

(** The return of a function: the deferred calls run, the last deferred
    first, knowing the result. *)
Definition returning {A : Type} (body : C A) : C A :=
  fun r =>
    let (res, r') := body {| ids := ids r; trace := trace r; deferred := [] |} in
    let failed := match res with inl _ => true | inr _ => false end in
    (res, {| ids := ids r';
             trace := trace r' ++ concat ((fun d => d failed) <$> deferred r');
             deferred := deferred r |}).

(** A call that gives something back, with its complaint when it fails. *)
Definition giving_back (call : event) (res : option exterror) : list event :=
  call :: match res with
          | Some err => [Errorf err]
          | None => []
          end.

(** Before [NewFromSpec] there is no generator; its place holds this
    specification, which nothing reads. *)
Definition no_generator : runtimespec.Spec :=
  {| runtimespec.process :=
       {| runtimespec.Terminal := false; runtimespec.Args := [];
          runtimespec.Env := ∅; runtimespec.Cwd := "";
          runtimespec.Capabilities := []; runtimespec.NoNewPrivileges := false;
          runtimespec.ApparmorProfile := ""; runtimespec.OOMScoreAdj := 0;
          runtimespec.SelinuxLabel := ""; runtimespec.AdditionalGids := [] |};
     runtimespec.root := {| runtimespec.Path := ""; runtimespec.root_Readonly := false |};
     runtimespec.Mounts := [];
     runtimespec.linux :=
       {| runtimespec.RootfsPropagation := ""; runtimespec.MountLabel := "";
          runtimespec.CgroupsPath := ""; runtimespec.Namespaces := [];
          runtimespec.Devices := []; runtimespec.ReadonlyPaths := [];
          runtimespec.MaskedPaths := []; runtimespec.Seccomp := None;
          runtimespec.Resources :=
            {| runtimespec.res_Devices := []; runtimespec.CPUPeriod := 0;
               runtimespec.CPUQuota := 0; runtimespec.CPUShares := 0;
               runtimespec.CPUCpus := ""; runtimespec.CPUMems := "";
               runtimespec.MemoryLimit := 0 |} |} |}.

(** The options [CreateContainer] gives [containerd.WithSpec]. *)
Definition specOpts_of (rest : Rest CMeta SMeta Labels)
  (apparmorSpecOpts seccompSpecOpts : option server.SpecOpts) : list specOpt :=
  let specOpts := [] in
  let specOpts :=
    match RunAsUser rest with
    | Some uid => specOpts ++ [WithUserID (server.uint32 uid)]
    | None => specOpts
    end in
  let specOpts :=
    if negb (String.eqb (RunAsUsername rest) "")
    then specOpts ++ [WithUsername (RunAsUsername rest)] else specOpts in
  let specOpts :=
    match apparmorSpecOpts with
    | Some o => specOpts ++ [Profile o]
    | None => specOpts
    end in
  match seccompSpecOpts with
  | Some o => specOpts ++ [Profile o]
  | None => specOpts
  end.

(** [CreateContainer]; [h] is the host at the call, and the result is the
    ID of the response.  [generateContainerSpec] runs on the host as it is
    after the root directory was made; the host it leaves is not carried
    further, since no later step of [CreateContainer] reads the host and no
    deferred call undoes what it made there.  The notices at verbosity 4 are
    left out. *)
Definition CreateContainer (c : criContainerdService) (out : Outside) (h : H)
  (r : CreateContainerRequest CMeta SMeta Labels) : C string :=
  returning (
    let config := Config r in
    let sandboxConfig := SandboxConfig r in
    match sandbox.Get (sandboxStore c) (PodSandboxId r) with
    | inl err => throw (ErrFindSandbox (PodSandboxId r) err)
    | inr sandbox =>
    let sandboxID := sandbox.ID (sandbox.metadata sandbox) in
    sandboxPid ← check ErrGetSandboxTask
                   (sandbox_Task_Pid out (sandbox.Container sandbox));
    id ← with_ids (util_GenerateID out);
    let name := makeContainerName out (Metadata (rest r))
                                  (SandboxMetadata (rest r)) in
    check_err (ErrReserveName name) (containerNameIndex_Reserve out name id);;
    emit (Reserved name id);;
    defer [ReleaseByName name];;
    let imageRef := Image (rest r) in
    image ← check (ErrResolveImage imageRef) (localResolve out imageRef);
    match image with
    | None => throw (ErrImageNotFound imageRef)
    | Some image =>
    let containerRootDir := getContainerRootDir (RootDir c) id in
    let (h1, mkdir) := os_MkdirAll h containerRootDir 493 in
    check_err (ErrCreateRootDir containerRootDir) mkdir;;
    emit (MkdirAll containerRootDir);;
    defer (giving_back (RemoveAll containerRootDir)
                       (os_RemoveAll out containerRootDir));;
    volumeMounts ← with_ids (generateVolumeMounts (util_GenerateID out)
                               containerRootDir (runtime.Mounts config)
                               (img_Volumes image));
    let mounts :=
      generateContainerMounts (getSandboxRootDir (RootDir c) sandboxID) config in
    match server.generateContainerSpec id sandboxPid config sandboxConfig
            (img_Config image) (mounts ++ volumeMounts)
            {| gen := no_generator; host := h1; warnings := [] |} with
    | inl err => throw (ErrGenerateSpec id err)
    | inr (spec, _) =>
    let opts :=
      [WithSnapshotter (Snapshotter c);
       WithImageUnpack (img_Image image);
       WithNewSnapshot id (img_Image image)] in
    let opts :=
      if (0 <? length volumeMounts)%nat
      then opts ++ [WithVolumes
                      (foldl (fun mountMap v =>
                                <[HostPath v := ContainerPath v]> mountMap)
                             ∅ volumeMounts)]
      else opts in
    let LogPath_ :=
      if negb (String.eqb (LogPath (rest r)) "")
      then filepath_Join [sandbox_LogDirectory out sandbox; LogPath (rest r)]
      else "" in
    let meta :=
      {| meta_ID := id; meta_Name := name; meta_SandboxID := sandboxID;
         meta_Config := (config, rest r);
         meta_ImageRef := img_ID image; meta_LogPath := LogPath_ |} in
    containerIO ← check ErrCreateContainerIO
                    (cio_NewContainerIO out id containerRootDir
                                        (Tty config) (Stdin (rest r)));
    emit (NewContainerIO containerIO);;
    defer (giving_back (containerIO_Close containerIO)
                       (cio_Close out containerIO));;
    let securityContext := GetSecurityContext (Linux config) in
    match server.generateApparmorSpecOpts (ApparmorProfile (rest r))
            (GetPrivileged securityContext) (apparmorEnabled c) with
    | inl err => throw (ErrGenerateApparmor err)
    | inr apparmorSpecOpts =>
    match server.generateSeccompSpecOpts (SeccompProfilePath (rest r))
            (GetPrivileged securityContext) (seccompEnabled c) with
    | inl err => throw (ErrGenerateSeccomp err)
    | inr seccompSpecOpts =>
    let specOpts := specOpts_of (rest r) apparmorSpecOpts seccompSpecOpts in
    let containerLabels :=
      buildLabels out (Labels_ (rest r)) containerKindContainer in
    let opts :=
      opts ++ [WithSpec spec specOpts;
               WithRuntime (Runtime c) (RuntimeEngine c) (RuntimeRoot c)
                           config_SystemdCgroup;
               WithContainerLabels containerLabels;
               WithContainerExtension containerMetadataExtension meta] in
    cntr ← check ErrCreateContainerdContainer (containerd_NewContainer out id opts);
    emit (client_NewContainer cntr id opts);;
    defer (giving_back (cntr_Delete cntr) (containerd_Delete out cntr));;
    container ← check (ErrCreateInternal id)
                  (store_NewContainer out meta (time_Now_UnixNano out)
                                      containerRootDir cntr containerIO);
    emit (containerstore_NewContainer container meta);;
    defer (giving_back (container_Delete container) (store_Delete out container));;
    check_err (ErrAddContainer id) (store_Add out container);;
    emit (containerStore_Add container);;
    mret id
    end end end end end).

End Service.

Arguments criContainerdService I : clear implicits.
Arguments Outside G CMeta SMeta Labels : clear implicits.
Arguments Run G CMeta SMeta Labels : clear implicits.

End create.

(** ** Creation as a saga *)

Module saga.
Import create.

Section Saga.
Context {G CMeta SMeta Labels : Type}.


(** What gives back what an event acquired. *)
Definition undo (out : Outside G CMeta SMeta Labels)
  (ev : event CMeta SMeta Labels) : list (event CMeta SMeta Labels) :=
  match ev with
  | Reserved name _ => [ReleaseByName name]
  | MkdirAll dir => giving_back (RemoveAll dir) (os_RemoveAll out dir)
  | NewContainerIO io => giving_back (containerIO_Close io) (cio_Close out io)
  | client_NewContainer cntr _ _ =>
      giving_back (cntr_Delete cntr) (containerd_Delete out cntr)
  | containerstore_NewContainer container _ =>
      giving_back (container_Delete container) (store_Delete out container)
  | _ => []
  end.


(** What a run added to the trace [before]. *)
Definition added (before : Run G CMeta SMeta Labels)
  (after : Run G CMeta SMeta Labels) : list (event CMeta SMeta Labels) :=
  drop (length (trace before)) (trace after).

End Saga.

End saga.

(** A worked service: one sandbox, one image with one volume; nothing
    outside fails. *)

Module worked_create.
Import create.

#[export] Instance plain_helpers : Helpers := {|
  etcHosts := "/etc/hosts";
  resolvConfPath := "/etc/resolv.conf";
  devShm := "/dev/shm";
  containerKindContainer := "container";
  containerMetadataExtension := "io.cri-containerd.container.metadata";
  isInCRIMounts dst mounts :=
    existsb (fun m => String.eqb (runtime.ContainerPath m) dst) mounts;
  getSandboxHosts dir := (dir ++ "/hosts")%string;
  getResolvPath dir := (dir ++ "/resolv.conf")%string;
  getSandboxDevShm dir := (dir ++ "/shm")%string;
  getContainerRootDir root id := (root ++ "/containers/" ++ id)%string;
  getSandboxRootDir root id := (root ++ "/sandboxes/" ++ id)%string;
  filepath_Join parts := foldr (fun a b => (a ++ "/" ++ b)%string) "" parts
|}.

Definition alpine : image :=
  {| img_ID := "sha256:1"; img_Config := instances.image_sh;
     img_Volumes := {[ "/vol" ]}; img_Image := 1 |}.

(** Identifiers [a], [b], ... are drawn in turn; [io] is what
    [cio.NewContainerIO] answers. *)
Definition outside_with (io : exterror + nat)
  : Outside nat string string (list string) :=
  {| util_GenerateID n := (String (ascii_of_nat (97 + n)) "", S n);
     makeContainerName c s := (c ++ "_" ++ s)%string;
     buildLabels labels kind := kind :: labels;
     sandbox_Task_Pid _ := inr 42%Z;
     sandbox_LogDirectory _ := "/var/log/pods";
     containerNameIndex_Reserve _ _ := None;
     localResolve _ := inr (Some alpine);
     os_RemoveAll _ := None;
     cio_NewContainerIO _ _ _ _ := io;
     cio_Close _ := None;
     containerd_NewContainer _ _ := inr 3;
     containerd_Delete _ := None;
     time_Now_UnixNano := 0%Z;
     store_NewContainer _ _ _ _ _ := inr 4;
     store_Delete _ := None;
     store_Add _ := None |}.

Definition outside : Outside nat string string (list string) :=
  outside_with (inr 2).

(** A host on which nothing is there but the directories made, which it
    lists, the last made first. *)
Definition recording_host : HostOS (list string) := {|
  os_Stat h p :=
    if existsb (String.eqb p) h then None
    else Some (ErrorString "no such file or directory");
  os_IsNotExist _ := true;
  os_MkdirAll h p _ := (p :: h, None);
  os_ResolveSymbolicLink _ p := inr p;
  os_LookupMount _ p := inr {| mount.Mountpoint := p; mount.Optional := "" |};
  label_Relabel h _ _ _ := (h, None);
  devices_DeviceFromPath _ p perm :=
    inr {| devices.Path := p; devices.Type_ := "c"; devices.Major := 1;
           devices.Minor := 3; devices.Uid := 0; devices.Gid := 0;
           devices.Permissions := perm |};
  devices_HostDevices _ := inr []
|}.


Definition service : criContainerdService (gset string) :=
  {| sandboxStore := instances.one_sandbox;
     RootDir := "/var/lib/cri"; Snapshotter := "overlayfs";
     Runtime := "io.containerd.runtime.v1.linux"; RuntimeEngine := "";
     RuntimeRoot := ""; apparmorEnabled := false; seccompEnabled := true |}.

Definition request : CreateContainerRequest string string (list string) :=
  {| PodSandboxId := "abc";
     Config := instances.plain_config;
     SandboxConfig := instances.in_kube;
     rest := {| Metadata := "web"; SandboxMetadata := "pod"; Image := "alpine";
                LogPath := "web.log"; Labels_ := []; Stdin := false;
                RunAsUser := Some 1000%Z; RunAsUsername := "";
                ApparmorProfile := ""; SeccompProfilePath := "" |} |}.

Definition fresh : Run nat string string (list string) :=
  {| ids := 0; trace := []; deferred := [] |}.

Definition created : (create.error + string) * Run nat string string (list string) :=
  CreateContainer (os := instances.quiet_host) (world := instances.small_world)
                  (index := sandbox.spec_index) service outside tt request fresh.

(** A creation on that host for which the container's streams cannot be
    made. *)
Definition without_io : (create.error + string) * Run nat string string (list string) :=
  CreateContainer (os := recording_host) (world := instances.small_world)
                  (index := sandbox.spec_index) service
                  (outside_with (inl (ErrorString "no fifo"))) [] request fresh.

(** What [generateContainerSpec] is run on in that creation: the host after
    the root directory of the container [a] was made, and the mounts of the
    sandbox [abc123] before the volume of the image. *)
Definition compiled : top_error + runtimespec.Spec * State (list string) :=
  server.generateContainerSpec (H0 := recording_host)
    (H1 := instances.small_world) "a" 42
    instances.plain_config instances.in_kube instances.image_sh
    (generateContainerMounts "/var/lib/cri/sandboxes/abc123" instances.plain_config
     ++ (generateVolumeMounts (util_GenerateID outside) "/var/lib/cri/containers/a"
           (runtime.Mounts instances.plain_config) {[ "/vol" ]} 1).1)
    {| gen := no_generator; host := ["/var/lib/cri/containers/a"];
       warnings := [] |}.

End worked_create.

(** * Properties *)

(** ** The sandbox store *)

Module sandbox_facts.
Import sandbox.

Section Generic.
Context {I : Type} `{TruncIndex I}.

(** [Store.Get] rewrites one index error only; any other error of the index
    reaches the caller as it is. *)
Lemma Get_forwards_index_error (s : Store I) (id : string) (err : exterror) :
  idx_Get (idIndex s) id = inl err →
  err ≠ truncindex_ErrNotExist →
  Get s id = inl (External err).
Proof.
  intros Hget Hne. unfold Get. rewrite Hget.
  destruct err; congruence.
Qed.

Lemma Delete_unresolved (s : Store I) (id : string) (err : exterror) :
  idx_Get (idIndex s) id = inl err → Delete s id = s.
Proof. intros Hget. unfold Delete. by rewrite Hget. Qed.

End Generic.

(** *** The index modelled from the spec *)

Lemma elem_of_matching prefix ids id :
  id ∈ matching prefix ids ↔ strings.HasPrefix id prefix = true ∧ id ∈ ids.
Proof. unfold matching. by rewrite elem_of_filter. Qed.

Lemma idx_Get_resolved (ids : gset string) prefix id :
  idx_Get ids prefix = inr id ↔ matching prefix ids = {[ id ]}.
Proof.
  cbn. split.
  - destruct (elements (matching prefix ids)) as [|x [|y l]] eqn:E; try done.
    intros [= ->]. apply set_eq. intros z.
    rewrite <- elem_of_elements, E. set_solver.
  - intros ->. by rewrite elements_singleton.
Qed.

Lemma idx_Get_cases (ids : gset string) prefix :
  (∃ id, idx_Get ids prefix = inr id) ∨
  idx_Get ids prefix = inl truncindex_ErrNotExist.
Proof.
  cbn. destruct (elements (matching prefix ids)) as [|x [|y l]]; eauto.
Qed.

Lemma idx_Get_none (ids : gset string) prefix :
  matching prefix ids = ∅ → idx_Get ids prefix = inl truncindex_ErrNotExist.
Proof. cbn. intros ->. by rewrite elements_empty. Qed.

Lemma idx_Get_ambiguous (ids : gset string) prefix id1 id2 :
  id1 ≠ id2 → id1 ∈ matching prefix ids → id2 ∈ matching prefix ids →
  idx_Get ids prefix = inl truncindex_ErrNotExist.
Proof.
  intros Hne H1 H2.
  destruct (idx_Get_cases ids prefix) as [[id Hid]|]; [|done].
  apply idx_Get_resolved in Hid. rewrite Hid in H1, H2. set_solver.
Qed.

Lemma matching_unique (s : SpecStore) prefix id :
  consistent s →
  matches s prefix id →
  (∀ id', matches s prefix id' → id' = id) →
  matching prefix (idIndex s) = {[ id ]}.
Proof.
  intros [Hidx _] [Hin Hp] Huniq. apply set_eq. intros z.
  rewrite elem_of_matching, elem_of_singleton, Hidx. split.
  - intros [Hz1 Hz2]. apply Huniq. by split.
  - by intros ->.
Qed.

(** *** The invariant holds of every store built by the methods *)

Lemma NewStore_consistent : consistent (NewStore (I := gset string)).
Proof.
  split; cbn.
  - intros id. rewrite lookup_empty. split; [set_solver | by intros [? ?]].
  - intros id sb. by rewrite lookup_empty.
Qed.

Lemma Add_consistent (s s' : SpecStore) sb :
  consistent s → Add s sb = inr s' → consistent s'.
Proof.
  intros [Hidx Hkey]. unfold Add.
  destruct (sandboxes s !! ID (metadata sb)) eqn:E; [done|].
  cbn. intros [= <-]. split; cbn.
  - intros id. rewrite elem_of_union, elem_of_singleton, Hidx.
    destruct (decide (id = ID (metadata sb))) as [->|Hne].
    + rewrite lookup_insert_eq. naive_solver.
    + rewrite lookup_insert_ne by done. naive_solver.
  - intros id sb'.
    destruct (decide (id = ID (metadata sb))) as [->|Hne].
    + rewrite lookup_insert_eq. by intros [= ->].
    + rewrite lookup_insert_ne by done. apply Hkey.
Qed.

Lemma Delete_consistent (s : SpecStore) id :
  consistent s → consistent (Delete s id).
Proof.
  intros [Hidx Hkey]. unfold Delete.
  destruct (idx_Get (idIndex s) id) as [|id'] eqn:E; [done|].
  split; cbn.
  - intros x. rewrite elem_of_difference, elem_of_singleton, Hidx.
    destruct (decide (x = id')) as [->|Hne].
    + rewrite lookup_delete_eq. split; [naive_solver | by intros [? ?]].
    + rewrite lookup_delete_ne by done. naive_solver.
  - intros x sb. destruct (decide (x = id')) as [->|Hne].
    + by rewrite lookup_delete_eq.
    + rewrite lookup_delete_ne by done. apply Hkey.
Qed.

(** C1. On a consistent store over the index modelled from the spec, [Get]
    returns the entity stored under the one ID that has the argument as a
    prefix; it fails with [store_ErrNotExist] when no stored ID matches, and
    with the same error when two different stored IDs match. *)
Theorem Get_prefix_lookup (s : SpecStore) (prefix : string) :
  consistent s →
  (∀ id, matches s prefix id →
         (∀ id', matches s prefix id' → id' = id) →
         ∃ sb, Get s prefix = inr sb ∧ sandboxes s !! id = Some sb ∧
               ID (metadata sb) = id) ∧
  ((∀ id, ¬ matches s prefix id) → Get s prefix = inl store_ErrNotExist) ∧
  (∀ id1 id2, id1 ≠ id2 → matches s prefix id1 → matches s prefix id2 →
              Get s prefix = inl store_ErrNotExist).
Proof.
  intros Hc. pose proof Hc as [Hidx Hkey]. repeat split.
  - intros id Hm Huniq.
    pose proof (matching_unique s prefix id Hc Hm Huniq) as Hset.
    apply idx_Get_resolved in Hset.
    destruct Hm as [[sb Hsb] _]. exists sb.
    unfold Get. rewrite Hset, Hsb. eauto.
  - intros Hnone. unfold Get. rewrite idx_Get_none; [done|].
    apply set_eq. intros z. rewrite elem_of_matching, Hidx.
    split; [|set_solver]. intros [Hp Hin]. destruct (Hnone z). by split.
  - intros id1 id2 Hne [Hin1 Hp1] [Hin2 Hp2]. unfold Get.
    rewrite (idx_Get_ambiguous _ prefix id1 id2); [done..| |];
      rewrite elem_of_matching, Hidx; done.
Qed.

(** C8. [Delete] removes the entity an identifier resolves to from the ID map
    and from the prefix index and leaves every other entry as it was; it
    leaves the store as it is when the identifier does not resolve; and a
    second [Delete] of the same identifier changes nothing more.  [Delete]
    has no error result: the error of the index's own [Delete] is dropped. *)
Theorem Delete_removes_and_is_idempotent (s : SpecStore) (id : string) :
  (∀ id', idx_Get (idIndex s) id = inr id' →
          sandboxes (Delete s id) !! id' = None ∧
          (id' ∉ idIndex (Delete s id)) ∧
          (∀ x, x ≠ id' →
                sandboxes (Delete s id) !! x = sandboxes s !! x ∧
                (x ∈ idIndex (Delete s id) ↔ x ∈ idIndex s))) ∧
  (∀ err, idx_Get (idIndex s) id = inl err → Delete s id = s) ∧
  Delete (Delete s id) id = Delete s id.
Proof.
  split; [|split].
  - intros id' Hres. unfold Delete. rewrite Hres. cbn. split; [|split].
    + apply lookup_delete_eq.
    + set_solver.
    + intros x Hne. split; [by apply lookup_delete_ne | set_solver].
  - intros err Herr. by apply (Delete_unresolved s id err).
  - destruct (idx_Get (idIndex s) id) as [err|id'] eqn:E.
    + rewrite (Delete_unresolved s id err E).
      by apply (Delete_unresolved s id err).
    + assert (Hgone : idx_Get (idIndex (Delete s id)) id
                      = inl truncindex_ErrNotExist).
      { unfold Delete. rewrite E. cbn [idIndex idx_Delete spec_index fst].
        apply idx_Get_resolved in E. apply idx_Get_none.
        apply set_eq. intros z. rewrite elem_of_matching.
        split; [|set_solver]. intros [Hp Hz].
        assert (z ∈ matching id (idIndex s)) as Hz'
          by (rewrite elem_of_matching; set_solver).
        rewrite E in Hz'. set_solver. }
      by apply (Delete_unresolved _ id _ Hgone).
Qed.

(** The store of the worked instance is the one two calls of [Add] build. *)
Lemma two_sandboxes_built :
  ∃ s1, Add NewStore (instances.sb "abc123") = inr s1 ∧
        Add s1 (instances.sb "abd456") = inr instances.two_sandboxes.
Proof. eexists. split; reflexivity. Qed.

Lemma two_sandboxes_consistent : consistent instances.two_sandboxes.
Proof.
  destruct two_sandboxes_built as (s1 & H1 & H2).
  eapply Add_consistent; [|exact H2].
  eapply Add_consistent; [|exact H1]. apply NewStore_consistent.
Qed.

Lemma two_sandboxes_matches prefix id :
  matches instances.two_sandboxes prefix id →
  (id = "abc123" ∨ id = "abd456") ∧ strings.HasPrefix id prefix = true.
Proof.
  intros [Hin Hp]. split; [|done].
  apply two_sandboxes_consistent in Hin.
  unfold instances.two_sandboxes in Hin. cbn [idIndex] in Hin.
  apply elem_of_union in Hin as [Hin|Hin%elem_of_union];
    [right; by apply elem_of_singleton in Hin|].
  destruct Hin as [Hin|Hin]; [left; by apply elem_of_singleton in Hin|].
  by apply not_elem_of_empty in Hin.
Qed.

(** On the store with [abc123] and [abd456]: the prefix [abc] resolves to the
    first, and the prefix [ab], which both have, is not found. *)
Lemma two_sandboxes_stored id :
  id = "abc123" ∨ id = "abd456" →
  is_Some (sandboxes instances.two_sandboxes !! id).
Proof.
  unfold instances.two_sandboxes. cbn [sandboxes]. intros [-> | ->].
  - rewrite lookup_insert_ne by discriminate. rewrite lookup_insert_eq. eauto.
  - rewrite lookup_insert_eq. eauto.
Qed.

Lemma Get_prefix_lookup_witness :
  consistent instances.two_sandboxes ∧
  (∃ sb, Get instances.two_sandboxes "abc" = inr sb ∧
         ID (metadata sb) = "abc123") ∧
  Get instances.two_sandboxes "ab" = inl store_ErrNotExist.
Proof.
  pose proof two_sandboxes_consistent as Hc. split; [exact Hc|].
  split.
  - destruct (Get_prefix_lookup instances.two_sandboxes "abc" Hc)
      as (Huniq & _ & _).
    destruct (Huniq "abc123") as (sb & Hget & _ & Hid).
    + split; [apply two_sandboxes_stored; by left | vm_compute; reflexivity].
    + intros id' [[-> | ->] Hp]%two_sandboxes_matches; [reflexivity|].
      vm_compute in Hp. discriminate Hp.
    + exists sb. split; [exact Hget | exact Hid].
  - destruct (Get_prefix_lookup instances.two_sandboxes "ab" Hc)
      as (_ & _ & Hambiguous).
    apply (Hambiguous "abc123" "abd456"); [discriminate | |].
    + split; [apply two_sandboxes_stored; by left | vm_compute; reflexivity].
    + split; [apply two_sandboxes_stored; by right | vm_compute; reflexivity].
Defined.

End sandbox_facts.

(** ** Terminal resizing *)

Module streaming_facts.
Import streaming.

Lemma turn_Sent size :
  turn (Sent size) = (Running, if positive size then [size] else []).
Proof.
  unfold turn, positive.
  destruct (Z.ltb_spec (Height size) 1), (Z.ltb_spec (Width size) 1),
    (Z.leb_spec 1 (Width size)), (Z.leb_spec 1 (Height size));
    cbn; first [reflexivity | lia].
Qed.

Lemma drain_Sent (sizes : list TerminalSize) (rest : list recv) :
  drain ((Sent <$> sizes) ++ rest) =
  ((drain rest).1, List.filter positive sizes ++ (drain rest).2).
Proof.
  induction sizes as [|size sizes IH].
  - cbn. by destruct (drain rest).
  - rewrite fmap_cons. cbn [app drain]. rewrite turn_Sent, IH. cbn.
    by destruct (positive size).
Qed.

Lemma drain_Returned (rs : list recv) :
  (drain rs).1 = Returned ↔ Closed ∈ rs.
Proof.
  induction rs as [|r rs IH].
  - cbn. split; [done | by intros ?%elem_of_nil].
  - rewrite elem_of_cons. destruct r as [size|].
    + cbn [drain]. rewrite turn_Sent. destruct (drain rs) as [st calls].
      cbn in *. rewrite IH. naive_solver.
    + cbn. naive_solver.
Qed.

(** C5. Given a channel, [handleResizing] spawns one goroutine that drains
    it.  While the channel has only delivered sizes the goroutine is still
    running and has called [resizeFunc] once for each size with both
    dimensions at least 1, in the order received, and for no other size; when
    the channel is closed after these sizes the goroutine has returned, with
    the same calls, whatever comes later; and it has returned if and only if
    a receive reported the channel closed. *)
Theorem handleResizing_drains {chan : Type} (ch : chan) (sizes : list TerminalSize) :
  handleResizing (Some ch) = [draining ch] ∧
  (∀ history : chan → list recv,
     resizeFunc_calls history (handleResizing (Some ch)) = (drain (history ch)).2) ∧
  drain (Sent <$> sizes) = (Running, List.filter positive sizes) ∧
  (∀ later, drain ((Sent <$> sizes) ++ Closed :: later)
            = (Returned, List.filter positive sizes)) ∧
  (∀ rs, (drain rs).1 = Returned ↔ Closed ∈ rs).
Proof.
  repeat split.
  - intros history. cbn. by rewrite app_nil_r.
  - rewrite <- (app_nil_r (Sent <$> sizes)), drain_Sent. cbn.
    by rewrite app_nil_r.
  - intros later. rewrite drain_Sent. cbn. by rewrite app_nil_r.
  - by apply drain_Returned.
  - by apply drain_Returned.
Qed.

(** The session of the specification: the sizes (0,0), (80,24), (0,5) and
    (100,40), then the close. *)
Example resize_session :
  drain [Sent {| Width := 0; Height := 0 |}; Sent {| Width := 80; Height := 24 |};
         Sent {| Width := 0; Height := 5 |}; Sent {| Width := 100; Height := 40 |};
         Closed]
  = (Returned, [{| Width := 80; Height := 24 |}; {| Width := 100; Height := 40 |}]).
Proof. reflexivity. Qed.

(** C10. With a nil channel [handleResizing] spawns no goroutine, so no call
    of [resizeFunc] is ever made on its behalf. *)
Theorem handleResizing_nil {chan : Type} (history : chan → list recv) :
  handleResizing (@None chan) = [] ∧
  resizeFunc_calls history (handleResizing None) = [].
Proof. split; reflexivity. Qed.

End streaming_facts.

(** ** Reasoning about runs of the compiler *)

Module run_facts.

Section Runs.
Context {H : Type}.

Lemma bind_inr {A B : Type} (m : M H A) (f : A → M H B) st r :
  (m ≫= f) st = inr r ↔ ∃ a st1, m st = inr (a, st1) ∧ f a st1 = inr r.
Proof.
  unfold mbind, M_mbind, M_bind. destruct (m st) as [e|[a st1]].
  - naive_solver.
  - naive_solver.
Qed.

Lemma bind_inl {A B : Type} (m : M H A) (f : A → M H B) st e :
  (m ≫= f) st = inl e ↔
  m st = inl e ∨ ∃ a st1, m st = inr (a, st1) ∧ f a st1 = inl e.
Proof.
  unfold mbind, M_mbind, M_bind. destruct (m st) as [e'|[a st1]].
  - naive_solver.
  - naive_solver.
Qed.

Lemma bind_run {A B : Type} (m : M H A) (f : A → M H B) st a st1 :
  m st = inr (a, st1) → (m ≫= f) st = f a st1.
Proof. unfold mbind, M_mbind, M_bind. by intros ->. Qed.

Lemma bind_call {B : Type} g (f : unit → M H B) st :
  (call g ≫= f) st = f tt (put_gen (g (gen st)) st).
Proof. reflexivity. Qed.

Lemma bind_ret {A B : Type} (a : A) (f : A → M H B) st :
  (mret a ≫= f) st = f a st.
Proof. reflexivity. Qed.

Lemma put_gen_gen (st : State H) : put_gen (gen st) st = st.
Proof. by destruct st. Qed.

Lemma put_gen_put_gen g g' (st : State H) :
  put_gen g (put_gen g' st) = put_gen g st.
Proof. reflexivity. Qed.

Lemma bind_fail {A B : Type} (m : M H A) (f : A → M H B) st e :
  m st = inl e → (m ≫= f) st = inl e.
Proof. unfold mbind, M_mbind, M_bind. by intros ->. Qed.

Lemma wrap_inr {A : Type} (w : error → error) (m : M H A) st r :
  wrap w m st = inr r ↔ m st = inr r.
Proof. unfold wrap. destruct (m st); naive_solver. Qed.

(** *** Errors a run cannot return *)

Lemma avoids_ret {A : Type} e (a : A) : avoids (H := H) e (mret a).
Proof. by intros st. Qed.

Lemma avoids_bind {A B : Type} e (m : M H A) (f : A → M H B) :
  avoids e m → (∀ a, avoids e (f a)) → avoids e (m ≫= f).
Proof.
  intros Hm Hf st [?|(a & st1 & _ & ?)]%bind_inl; [by eapply Hm | by eapply Hf].
Qed.

Lemma avoids_fail {A : Type} e e' : e' ≠ e → avoids (H := H) (A := A) e (fail e').
Proof. intros Hne st [=]. done. Qed.

Lemma avoids_call e f : avoids (H := H) e (call f).
Proof. by intros st. Qed.

Lemma avoids_call_err e f : (∀ x, External x ≠ e) → avoids (H := H) e (call_err f).
Proof.
  intros Hne st. unfold call_err. destruct (f (gen st)); [|done].
  intros [=]. by eapply Hne.
Qed.

Lemma avoids_Spec e : avoids (H := H) e Spec.
Proof. by intros st. Qed.

Lemma avoids_ask {A : Type} e (f : H → A) : avoids e (ask f).
Proof. by intros st. Qed.

Lemma avoids_act {A : Type} e (f : H → H * A) : avoids e (act f).
Proof. intros st. unfold act. by destruct (f (host st)). Qed.

Lemma avoids_Warningf e msg : avoids (H := H) e (Warningf msg).
Proof. by intros st. Qed.

Lemma avoids_wrap {A : Type} e (w : error → error) (m : M H A) :
  (∀ e', w e' ≠ e) → avoids e (wrap w m).
Proof.
  intros Hw st. unfold wrap. destruct (m st); [|done].
  intros [=]. by eapply Hw.
Qed.

Lemma avoids_range {A : Type} e (l : list A) (body : A → M H unit) :
  (∀ x, avoids e (body x)) → avoids e (range l body).
Proof.
  intros Hb. induction l as [|x l IH]; cbn [range].
  - apply avoids_ret.
  - apply avoids_bind; [apply Hb | by intros _].
Qed.

(** *** Parts of the specification a run leaves alone *)

Lemma keeps_ret {A X : Type} (f : runtimespec.Spec → X) (a : A) :
  keeps (H := H) f (mret a).
Proof. by intros st a' st' [= _ <-]. Qed.

Lemma keeps_bind {A B X : Type} (f : runtimespec.Spec → X)
  (m : M H A) (k : A → M H B) :
  keeps f m → (∀ a, keeps f (k a)) → keeps f (m ≫= k).
Proof.
  intros Hm Hk st b st' (a & st1 & H1 & H2)%bind_inr.
  rewrite (Hk _ _ _ _ H2). by eapply Hm.
Qed.

Lemma keeps_fail {A X : Type} (f : runtimespec.Spec → X) e :
  keeps (H := H) (A := A) f (fail e).
Proof. by intros st a st'. Qed.

Lemma keeps_call {X : Type} (f : runtimespec.Spec → X) g :
  (∀ s, f (g s) = f s) → keeps (H := H) f (call g).
Proof. intros Hg st a st' [= _ <-]. apply Hg. Qed.

Lemma keeps_call_err {X : Type} (f : runtimespec.Spec → X) g :
  (∀ s s', g s = inr s' → f s' = f s) → keeps (H := H) f (call_err g).
Proof.
  intros Hg st a st'. unfold call_err.
  destruct (g (gen st)) eqn:E; [done|]. intros [= _ <-]. by apply Hg.
Qed.

Lemma keeps_Spec {X : Type} (f : runtimespec.Spec → X) : keeps (H := H) f Spec.
Proof. by intros st a st' [= _ <-]. Qed.

Lemma keeps_ask {A X : Type} (f : runtimespec.Spec → X) (g : H → A) :
  keeps f (ask g).
Proof. by intros st a st' [= _ <-]. Qed.

Lemma keeps_act {A X : Type} (f : runtimespec.Spec → X) (g : H → H * A) :
  keeps f (act g).
Proof.
  intros st a st'. unfold act. destruct (g (host st)). by intros [= _ <-].
Qed.

Lemma keeps_Warningf {X : Type} (f : runtimespec.Spec → X) msg :
  keeps (H := H) f (Warningf msg).
Proof. by intros st a st' [= _ <-]. Qed.

Lemma keeps_wrap {A X : Type} (f : runtimespec.Spec → X) w (m : M H A) :
  keeps f m → keeps f (wrap w m).
Proof. intros Hm st a st' ?%wrap_inr. by eapply Hm. Qed.

Lemma keeps_range {A X : Type} (f : runtimespec.Spec → X) (l : list A)
  (body : A → M H unit) :
  (∀ x, keeps f (body x)) → keeps f (range l body).
Proof.
  intros Hb. induction l as [|x l IH]; cbn [range].
  - apply keeps_ret.
  - apply keeps_bind; [apply Hb | by intros _].
Qed.

Lemma returns_spec_Spec : returns_spec (H := H) Spec.
Proof. by intros st a st' [= <- <-]. Qed.

Lemma returns_spec_fail e : returns_spec (H := H) (fail e).
Proof. by intros st a st'. Qed.

Lemma returns_spec_bind {A : Type} (m : M H A) (k : A → M H runtimespec.Spec) :
  (∀ a, returns_spec (k a)) → returns_spec (m ≫= k).
Proof. intros Hk st b st' (a & st1 & _ & H2)%bind_inr. by eapply Hk. Qed.

Lemma range_calls {A : Type} (step : A → runtimespec.Spec → runtimespec.Spec)
  (l : list A) (st : State H) :
  range l (fun x => call (step x)) st
  = inr (tt, put_gen (foldl (fun g x => step x g) (gen st) l) st).
Proof.
  revert st. induction l as [|x l IH]; intros st; cbn [range].
  - by destruct st.
  - by rewrite bind_call, IH.
Qed.

End Runs.

Create HintDb avoids.
Create HintDb keeps.

#[export] Hint Resolve avoids_ret avoids_call avoids_Spec avoids_ask avoids_act
  avoids_Warningf : avoids.
#[export] Hint Resolve keeps_ret keeps_fail keeps_Spec keeps_ask keeps_act
  keeps_Warningf : keeps.

(** One step of a proof that a run avoids an error, or keeps a part of the
    specification: split a sequence, enter a loop or a wrapped call, and take
    both branches of a test. *)
Ltac avoids_step :=
  first
    [ apply avoids_bind; [|intros ?]
    | apply avoids_range; intros ?
    | apply avoids_wrap; intros ?; discriminate
    | apply avoids_fail; discriminate
    | apply avoids_call_err; intros ?; discriminate
    | solve [auto with avoids]
    | match goal with
      | |- avoids _ (match ?x with _ => _ end) => destruct x eqn:?
      | |- avoids _ (let (_, _) := ?x in _) => destruct x eqn:?
      end ].

Ltac keeps_step :=
  first
    [ apply keeps_bind; [|intros ?]
    | apply keeps_range; intros ?
    | apply keeps_wrap
    | apply keeps_call; intros ?; reflexivity
    | solve [auto with keeps]
    | match goal with
      | |- keeps _ (match ?x with _ => _ end) => destruct x eqn:?
      | |- keeps _ (let (_, _) := ?x in _) => destruct x eqn:?
      end ].

End run_facts.

(** ** The specification compiler *)

Module server_facts.
Import runtime imagespec server run_facts.

(** C9. For a privileged container [generateSeccompSpecOpts] returns no
    option and no error, whatever the profile name and whether or not seccomp
    is enabled. *)
Theorem generateSeccompSpecOpts_privileged (seccompProf : string)
  (seccompEnabled : bool) :
  generateSeccompSpecOpts seccompProf true seccompEnabled = inr None ∧
  generateSeccompSpecOpts seccompProf true seccompEnabled
    ≠ inl ErrSeccompNotSupported ∧
  (∀ prof, generateSeccompSpecOpts seccompProf true seccompEnabled
           ≠ inl (ErrInvalidSeccompProfile prof)).
Proof. unfold generateSeccompSpecOpts. repeat split; intros; discriminate. Qed.

(** The two failures do occur for containers that are not privileged. *)
Example generateSeccompSpecOpts_unprivileged :
  generateSeccompSpecOpts "localhost/p" false false = inl ErrSeccompNotSupported ∧
  generateSeccompSpecOpts "p" false true = inl (ErrInvalidSeccompProfile "p") ∧
  generateSeccompSpecOpts "localhost/p" false true = inr (Some (seccomp_WithProfile "p")).
Proof. repeat split. Qed.

Section Compiler.
Context {H : Type} {os : HostOS H} {world : Collaborators}.

(** C4, as amended. [setOCIProcessArgs] sets the argument vector to
    [argv.resolved]: the explicit command if non-empty, the image entrypoint
    if the command is absent, nothing if the command is present and empty;
    followed by the explicit args if non-empty, else, when the command is
    empty or absent, the image's default args.  It fails with
    [ErrNoCommandSpecified] exactly when that vector is empty.  For a command
    that is absent or non-empty the vector is the one the specification words,
    and a non-empty command without args is the whole vector. *)
Theorem setOCIProcessArgs_resolved (config : ContainerConfig)
  (imageConfig : ImageConfig) (st : State H) :
  setOCIProcessArgs config imageConfig st =
    match argv.resolved config imageConfig with
    | [] => inl ErrNoCommandSpecified
    | argv => inr (tt, put_gen (generate.SetProcessArgs argv (gen st)) st)
    end ∧
  (Command config ≠ Some [] →
   argv.resolved config imageConfig = argv.specified config imageConfig) ∧
  (∀ c command, Command config = Some (c :: command) →
                elems (Args config) = [] →
                argv.resolved config imageConfig = c :: command).
Proof.
  unfold setOCIProcessArgs, argv.resolved, argv.specified.
  destruct config as [command args wd envs ms ds tty lx]. cbn.
  destruct command as [[|c command]|]; cbn.
  - split; [|split; [done | intros ?? [=]]].
    destruct args as [[|a args]|]; cbn; try done;
      destruct (Cmd imageConfig) as [[|a' l]|]; done.
  - split; [done|]. split; [done|]. intros ?? [= -> ->] ->.
    by rewrite app_nil_r.
  - split; [|split; [done | intros ?? [=]]].
    destruct args as [[|a args]|], (Cmd imageConfig) as [[|a' l]|],
      (Entrypoint imageConfig) as [[|e l']|]; cbn; try done.
Qed.

(** The run of [setOCIProcessArgs], for the proofs about its callers. *)
Lemma setOCIProcessArgs_run (config : ContainerConfig)
  (imageConfig : ImageConfig) (st : State H) :
  setOCIProcessArgs config imageConfig st =
    match argv.resolved config imageConfig with
    | [] => inl ErrNoCommandSpecified
    | argv => inr (tt, put_gen (generate.SetProcessArgs argv (gen st)) st)
    end.
Proof.
  unfold setOCIProcessArgs, argv.resolved.
  destruct config as [command args wd envs ms ds tty lx]. cbn.
  destruct command as [[|c command]|], args as [[|a args]|],
    (Cmd imageConfig) as [[|a' l]|], (Entrypoint imageConfig) as [[|e l']|];
    cbn; done.
Qed.

(** *** The guard of the privileged branch *)

Local Notation "'unguarded' m" :=
  (avoids (H := H) ErrNoPrivilegedContainerAllowed m) (at level 10, m at level 9).

Lemma setOCIProcessArgs_avoids config imageConfig :
  unguarded (setOCIProcessArgs config imageConfig).
Proof. unfold setOCIProcessArgs. repeat avoids_step. Qed.

Lemma addImageEnvs_avoids imageEnvs : unguarded (addImageEnvs imageEnvs).
Proof. unfold addImageEnvs. repeat avoids_step. Qed.

Lemma addOCIBindMounts_avoids mounts mountLabel :
  unguarded (wrap ErrSetOCIBindMounts (addOCIBindMounts mounts mountLabel)).
Proof. repeat avoids_step. Qed.

Lemma setOCIPrivileged_avoids config : unguarded (setOCIPrivileged config).
Proof.
  unfold setOCIPrivileged, setOCIBindMountsPrivileged. repeat avoids_step.
Qed.

Lemma setOCILinuxResource_avoids resources :
  unguarded (setOCILinuxResource resources).
Proof. unfold setOCILinuxResource. repeat avoids_step. Qed.

Lemma setOCINamespaces_avoids namespaces sandboxPid :
  unguarded (setOCINamespaces namespaces sandboxPid).
Proof. unfold setOCINamespaces. repeat avoids_step. Qed.

(** C2. [generateContainerSpec] never fails with the error of the guard in
    its privileged branch, "no privileged container allowed in sandbox": the
    guard tests the negation of the condition of the branch it stands in. *)
Theorem generateContainerSpec_guard_never_fires (id : string) (sandboxPid : Z)
  (config : ContainerConfig) (sandboxConfig : PodSandboxConfig)
  (imageConfig : ImageConfig) (extraMounts : list Mount) (st : State H) :
  generateContainerSpec id sandboxPid config sandboxConfig imageConfig
                        extraMounts st
  ≠ inl ErrNoPrivilegedContainerAllowed.
Proof.
  revert st. fold (avoids (H := H) ErrNoPrivilegedContainerAllowed
    (generateContainerSpec id sandboxPid config sandboxConfig imageConfig
                           extraMounts)).
  unfold generateContainerSpec.
  destruct (defaultRuntimeSpec id) as [err|spec] eqn:Hdef.
  { apply avoids_fail. unfold defaultRuntimeSpec in Hdef.
    destruct (containerd_GenerateSpec id); [|done]. by intros ->. }
  pose proof setOCIProcessArgs_avoids. pose proof addImageEnvs_avoids.
  pose proof addOCIBindMounts_avoids. pose proof setOCIPrivileged_avoids.
  pose proof setOCILinuxResource_avoids. pose proof setOCINamespaces_avoids.
  unfold NewFromSpec.
  repeat first [ done | progress cbn [negb] | avoids_step ].
Qed.


(** *** The environment *)

Lemma SplitN2_cut e :
  strings.SplitN2 e "=" =
  match strings.cut e "=" with
  | Some (k, v) => [k; v]
  | None => [e]
  end.
Proof. reflexivity. Qed.

Lemma addImageEnvs_run (imageEnvs : list string) (st : State H) :
  addImageEnvs imageEnvs st =
  match env.first_invalid imageEnvs with
  | Some e => inl (ErrInvalidEnvironmentVariable e)
  | None =>
      inr (tt, put_gen (foldl (fun g kv => generate.AddProcessEnv kv.1 kv.2 g)
                              (gen st) (env.image_pairs imageEnvs)) st)
  end.
Proof.
  unfold addImageEnvs. revert st.
  induction imageEnvs as [|e l IH]; intros st; cbn [range].
  - by destruct st.
  - unfold env.first_invalid, env.image_pairs in *. cbn [find omap list_omap].
    rewrite SplitN2_cut. destruct (strings.cut e "=") as [[k v]|] eqn:E.
    + rewrite bind_call, IH. by destruct (find _ l).
    + by apply bind_fail.
Qed.

Lemma Env_foldl (l : list (string * string)) (g : runtimespec.Spec) name :
  env.of_spec (foldl (fun g kv => generate.AddProcessEnv kv.1 kv.2 g) g l) !! name
  = match env.last_value name l with
    | Some v => Some v
    | None => env.of_spec g !! name
    end.
Proof.
  revert g. induction l as [|[k v] l IH]; intros g; [done|].
  cbn [foldl env.last_value]. rewrite IH.
  destruct (env.last_value name l); [done|]. cbn.
  destruct (String.eqb_spec k name) as [->|Hne].
  - apply lookup_insert_eq.
  - by apply lookup_insert_ne.
Qed.

Lemma Env_caller (envs : list KeyValue) (g : runtimespec.Spec) name :
  env.of_spec (foldl (fun g e => generate.AddProcessEnv (Key e) (Value e) g) g envs) !! name
  = match env.last_value name (env.caller_pairs envs) with
    | Some v => Some v
    | None => env.of_spec g !! name
    end.
Proof.
  rewrite <- Env_foldl. unfold env.caller_pairs. f_equal. f_equal.
  revert g. induction envs as [|e l IH]; intros g; [done|]. cbn. apply IH.
Qed.

Lemma AddProcessCapability_Env c :
  keeps (H := H) env.of_spec (call_err (generate.AddProcessCapability c)).
Proof.
  apply keeps_call_err. intros s s'. unfold generate.AddProcessCapability.
  destruct (validate_CapValid _); [done|]. by intros [= <-].
Qed.

Lemma DropProcessCapability_Env c :
  keeps (H := H) env.of_spec (call_err (generate.DropProcessCapability c)).
Proof.
  apply keeps_call_err. intros s s'. unfold generate.DropProcessCapability.
  destruct (validate_CapValid _); [done|]. by intros [= <-].
Qed.

Lemma setOCIProcessArgs_Env config imageConfig :
  keeps (H := H) env.of_spec (setOCIProcessArgs config imageConfig).
Proof. unfold setOCIProcessArgs. repeat keeps_step. Qed.

Lemma addOCIBindMounts_Env mounts mountLabel :
  keeps (H := H) env.of_spec (addOCIBindMounts mounts mountLabel).
Proof.
  unfold addOCIBindMounts, addOCIBindMounts_body, resolveHostPath,
    propagationOption.
  repeat keeps_step.
Qed.

Lemma setOCIPrivileged_Env config :
  keeps (H := H) env.of_spec (setOCIPrivileged config).
Proof.
  unfold setOCIPrivileged, setOCIBindMountsPrivileged, setOCIDevicesPrivileged.
  repeat keeps_step.
Qed.

Lemma addOCIDevices_Env devs : keeps (H := H) env.of_spec (addOCIDevices devs).
Proof. unfold addOCIDevices. repeat keeps_step. Qed.

Lemma setOCICapabilities_Env capabilities :
  keeps (H := H) env.of_spec (setOCICapabilities capabilities).
Proof.
  pose proof AddProcessCapability_Env. pose proof DropProcessCapability_Env.
  unfold setOCICapabilities. repeat first [ done | keeps_step ].
Qed.

Lemma setOCILinuxResource_Env resources :
  keeps (H := H) env.of_spec (setOCILinuxResource resources).
Proof. unfold setOCILinuxResource. repeat keeps_step. Qed.

Lemma setOCINamespaces_Env namespaces sandboxPid :
  keeps (H := H) env.of_spec (setOCINamespaces namespaces sandboxPid).
Proof. unfold setOCINamespaces. repeat keeps_step. Qed.

(** C7. When [generateContainerSpec] returns a specification, each name has
    in its environment the value of the caller's last entry of that name; if
    the caller has none, the value of the image's last entry of that name; if
    the image has none either, the value it had before (the default
    specification's, with [TERM] set for a terminal).  When the default
    specification and the argument vector are there and an image entry has no
    [=], [generateContainerSpec] fails with the error for the first such
    entry. *)
Theorem generateContainerSpec_env (id : string) (sandboxPid : Z)
  (config : ContainerConfig) (sandboxConfig : PodSandboxConfig)
  (imageConfig : ImageConfig) (extraMounts : list Mount) (st : State H) :
  (∀ spec st',
     generateContainerSpec id sandboxPid config sandboxConfig imageConfig
                           extraMounts st = inr (spec, st') →
     ∃ spec0, defaultRuntimeSpec id = inr spec0 ∧
       ∀ name, env.of_spec spec !! name
               = env.effective (env.base spec0 (Tty config))
                               (imagespec.Env imageConfig) (Envs config) name) ∧
  (∀ spec0 e,
     defaultRuntimeSpec id = inr spec0 →
     argv.resolved config imageConfig ≠ [] →
     env.first_invalid (imagespec.Env imageConfig) = Some e →
     generateContainerSpec id sandboxPid config sandboxConfig imageConfig
                           extraMounts st
     = inl (ErrInvalidEnvironmentVariable e)).
Proof.
  split.
  - intros spec st'. unfold generateContainerSpec.
    destruct (defaultRuntimeSpec id) as [err|spec0]; [done|].
    intros Hrun. exists spec0. split; [done|]. intros name.
    apply bind_inr in Hrun as ([] & st1 & [= <-] & Hrun).
    apply bind_inr in Hrun as ([] & st2 & [= <-] & Hrun).
    apply bind_inr in Hrun as ([] & st3 & H3%setOCIProcessArgs_Env & Hrun).
    apply bind_inr in Hrun as ([] & st4 & H4 & Hrun).
    assert (env.of_spec (gen st4) = env.of_spec (gen st3)) as E4.
    { repeat match type of H4 with context [if ?b then _ else _] =>
        destruct b end; by injection H4 as <-. }
    apply bind_inr in Hrun as ([] & st5 & [= <-] & Hrun).
    apply bind_inr in Hrun as ([] & st6 & H6 & Hrun).
    assert (env.of_spec (gen st6) = env.base spec0 (Tty config)) as E6.
    { unfold env.base. destruct (Tty config); injection H6 as <-; cbn;
        fold (env.of_spec (gen st4)); rewrite E4, H3; reflexivity. }
    apply bind_inr in Hrun as ([] & st7 & H7 & Hrun).
    rewrite addImageEnvs_run in H7.
    destruct (env.first_invalid _); [done|]. injection H7 as <-.
    apply bind_inr in Hrun as ([] & st8 & H8 & Hrun).
    rewrite range_calls in H8. injection H8 as <-.
    assert (env.of_spec spec = env.of_spec
      (foldl (fun g e => generate.AddProcessEnv (Key e) (Value e) g)
         (foldl (fun g kv => generate.AddProcessEnv kv.1 kv.2 g) (gen st6)
            (env.image_pairs (imagespec.Env imageConfig))) (Envs config))) as ->.
    { revert Hrun. match goal with |- ?m ?s = _ → _ =>
        assert (keeps (H := H) env.of_spec m ∧ returns_spec m) as [Hk Hr] end.
      { pose proof addOCIBindMounts_Env. pose proof setOCIPrivileged_Env.
        pose proof addOCIDevices_Env. pose proof setOCICapabilities_Env.
        pose proof setOCILinuxResource_Env. pose proof setOCINamespaces_Env.
        destruct (initSelinuxOpts _) as [?|[processLabel mountLabel]].
        { split; [apply keeps_fail | apply returns_spec_fail]. }
        split.
        - repeat first [ done | keeps_step ].
        - repeat first [ apply returns_spec_Spec
                       | apply returns_spec_bind; intros ? ]. }
      intros Hrun. pose proof (Hr _ _ _ Hrun) as ->.
      by rewrite (Hk _ _ _ Hrun). }
    rewrite Env_caller, Env_foldl, E6. reflexivity.
  - intros spec0 e Hdef Hargv Hbad. unfold generateContainerSpec. rewrite Hdef.
    unfold NewFromSpec. rewrite !bind_call, put_gen_put_gen.
    pose proof (setOCIProcessArgs_run config imageConfig
                  (put_gen (generate.SetRootPath relativeRootfsPath spec0) st))
      as Hargs.
    destruct (argv.resolved config imageConfig) as [|a argv] eqn:E; [done|].
    cbn [gen put_gen] in *.
    erewrite bind_run; [|exact Hargs].
    set (cwd := if negb (String.eqb (runtime.WorkingDir config) "") then _ else _).
    assert (∃ st4, cwd (put_gen (generate.SetProcessArgs (a :: argv)
               (generate.SetRootPath relativeRootfsPath spec0)) st) = inr (tt, st4))
      as [st4 H4].
    { subst cwd. repeat match goal with |- context [if ?b then _ else _] =>
        destruct b end; eexists; reflexivity. }
    erewrite bind_run; [|exact H4].
    rewrite bind_call.
    set (term := if Tty config then _ else _).
    match goal with |- (term ≫= _) ?s = _ =>
      assert (∃ st6, term s = inr (tt, st6)) as [st6 H6]
        by (subst term; destruct (Tty config); eexists; reflexivity) end.
    erewrite bind_run; [|exact H6].
    apply bind_fail. by rewrite addImageEnvs_run, Hbad.
Qed.


(** *** Mount propagation *)




Lemma resolveHostPath_Mounts src :
  keeps (H := H) (λ g, (runtimespec.Mounts g, runtimespec.linux g))
    (resolveHostPath src).
Proof. unfold resolveHostPath. repeat keeps_step. Qed.

Lemma propagationOption_Mounts mount src :
  keeps (H := H) runtimespec.Mounts (propagationOption mount src).
Proof. unfold propagationOption. repeat keeps_step. Qed.

Lemma propagationOption_option mount src (st st' : State H) popt :
  propagationOption mount src st = inr (popt, st') →
  popt = propagation.option_of (Propagation mount).
Proof.
  unfold propagationOption, propagation.option_of.
  destruct (Propagation mount).
  - by intros [= <- _].
  - intros (e & st1 & [= <- <-] & Hrun)%bind_inr.
    destruct (ensureSharedOrSlave _ _); [done|].
    apply bind_inr in Hrun as (spec & st2 & _ & Hrun).
    by apply bind_inr in Hrun as (? & st3 & _ & [= <- _]).
  - intros (e & st1 & [= <- <-] & Hrun)%bind_inr.
    destruct (ensureShared _ _); [done|].
    by apply bind_inr in Hrun as (? & st3 & _ & [= <- _]).
  - by intros (? & st3 & _ & [= <- _])%bind_inr.
Qed.

Lemma addOCIBindMounts_body_run mountLabel mount (st st' : State H) :
  addOCIBindMounts_body mountLabel mount st = inr (tt, st') →
  ∃ src st1 st2,
    resolveHostPath (HostPath mount) st = inr (src, st1) ∧
    propagationOption mount src st1
      = inr (propagation.option_of (Propagation mount), st2) ∧
    runtimespec.Mounts (gen st')
      = runtimespec.Mounts (gen st2) ++ [propagation.bind_of mount src] ∧
    propagation.root st' = propagation.root st2 ∧
    warnings st' = warnings st2.
Proof.
  unfold addOCIBindMounts_body.
  intros (src & st1 & H1 & Hrun)%bind_inr.
  apply bind_inr in Hrun as (popt & st2 & H2 & Hrun).
  pose proof (propagationOption_option _ _ _ _ _ H2) as ->.
  exists src, st1, st2. split; [done|]. split; [done|].
  apply bind_inr in Hrun as ([] & st3 & H3 & [= <-]).
  assert (gen st3 = gen st2 ∧ warnings st3 = warnings st2) as [Eg Ew].
  { destruct (SelinuxRelabel mount); [|by injection H3 as <-].
    apply bind_inr in H3 as (r & st4 & H4 & H3). unfold act in H4.
    destruct (label_Relabel _ _ _ _) as [h' r']. injection H4 as <- <-.
    destruct r' as [[]|]; try done; by injection H3 as <-. }
  cbn. unfold propagation.root. cbn. rewrite Eg, Ew. done.
Qed.


Lemma range_body_Mounts mountLabel mounts (st st' : State H) :
  range mounts (addOCIBindMounts_body mountLabel) st = inr (tt, st') →
  ∃ srcs, length srcs = length mounts ∧
    runtimespec.Mounts (gen st')
    = runtimespec.Mounts (gen st) ++ zip_with propagation.bind_of mounts srcs.
Proof.
  revert st. induction mounts as [|mount mounts IH]; intros st; cbn [range].
  - intros [= <-]. exists []. by rewrite app_nil_r.
  - intros ([] & st1 & Hbody & Hrest)%bind_inr.
    apply addOCIBindMounts_body_run in Hbody
      as (src & sta & stb & Ha & Hb & HM & _ & _).
    apply resolveHostPath_Mounts in Ha. apply propagationOption_Mounts in Hb.
    injection Ha as Ha _.
    apply IH in Hrest as (srcs & Hlen & ->). exists (src :: srcs).
    split; [cbn; by rewrite Hlen|]. rewrite HM, Hb, Ha. cbn.
    by rewrite <- app_assoc.
Qed.



(** *** Capabilities *)

Lemma upper_byte_idemp c : strings.upper_byte (strings.upper_byte c) = strings.upper_byte c.
Proof. destruct c as [[] [] [] [] [] [] [] []]; reflexivity. Qed.

Lemma ToUpper_idemp s : strings.ToUpper (strings.ToUpper s) = strings.ToUpper s.
Proof. induction s as [|c s IH]; cbn; [done|]. by rewrite upper_byte_idemp, IH. Qed.

Lemma ToUpper_app (a b : string) :
  strings.ToUpper (a ++ b) = (strings.ToUpper a ++ strings.ToUpper b)%string.
Proof.
  induction a as [|c a IH]; [done|].
  change (strings.ToUpper (String c (a +:+ b))
          = String (strings.upper_byte c) (strings.ToUpper a +:+ strings.ToUpper b)).
  cbn [strings.ToUpper]. by rewrite IH.
Qed.

Lemma ToUpper_CAP s :
  strings.ToUpper ("CAP_" ++ strings.ToUpper s) = ("CAP_" ++ strings.ToUpper s)%string.
Proof. by rewrite ToUpper_app, ToUpper_idemp. Qed.

Lemma ToUpper_listed x :
  x ∈ getOCICapabilitiesList → strings.ToUpper x = x.
Proof.
  unfold getOCICapabilitiesList. intros (cap & -> & _)%list_elem_of_fmap.
  apply ToUpper_CAP.
Qed.

Lemma Add_run c (st st' : State H) :
  call_err (generate.AddProcessCapability c) st = inr (tt, st') →
  ∀ x, x ∈ caps.of_state st' ↔ x ∈ caps.of_state st ∨ x = strings.ToUpper c.
Proof.
  unfold call_err, generate.AddProcessCapability, caps.of_state.
  destruct (validate_CapValid _); [done|]. intros [= <-] x. cbn.
  case_decide; [naive_solver|]. rewrite elem_of_app, list_elem_of_singleton. done.
Qed.

Lemma Drop_run c (st st' : State H) :
  call_err (generate.DropProcessCapability c) st = inr (tt, st') →
  ∀ x, x ∈ caps.of_state st' ↔ x ∈ caps.of_state st ∧ x ≠ strings.ToUpper c.
Proof.
  unfold call_err, generate.DropProcessCapability, caps.of_state.
  destruct (validate_CapValid _); [done|]. intros [= <-] x. cbn.
  rewrite list_elem_of_filter. naive_solver.
Qed.

Lemma Add_succeeds c (st : State H) :
  validate_CapValid (strings.ToUpper c) = None →
  ∃ st', call_err (generate.AddProcessCapability c) st = inr (tt, st').
Proof.
  intros Hv. unfold call_err, generate.AddProcessCapability. rewrite Hv. eauto.
Qed.

Lemma Drop_succeeds c (st : State H) :
  validate_CapValid (strings.ToUpper c) = None →
  ∃ st', call_err (generate.DropProcessCapability c) st = inr (tt, st').
Proof.
  intros Hv. unfold call_err, generate.DropProcessCapability. rewrite Hv. eauto.
Qed.

Lemma range_adds {A : Type} (body : A → M H unit) (added : A → option string) :
  (∀ c st st', body c st = inr (tt, st') →
     ∀ x, x ∈ caps.of_state st' ↔ x ∈ caps.of_state st ∨ added c = Some x) →
  ∀ l st st', range l body st = inr (tt, st') →
    ∀ x, x ∈ caps.of_state st' ↔
         x ∈ caps.of_state st ∨ ∃ c, c ∈ l ∧ added c = Some x.
Proof.
  intros Hbody l. induction l as [|c l IH]; intros st st'; cbn [range].
  - intros [= <-] x. split; [auto|]. intros [?|(? & []%elem_of_nil & _)]. done.
  - intros ([] & st1 & H1 & H2)%bind_inr x.
    rewrite (IH _ _ H2), (Hbody _ _ _ H1). setoid_rewrite elem_of_cons.
    naive_solver.
Qed.

Lemma range_drops {A : Type} (body : A → M H unit) (dropped : A → option string) :
  (∀ c st st', body c st = inr (tt, st') →
     ∀ x, x ∈ caps.of_state st' ↔ x ∈ caps.of_state st ∧ dropped c ≠ Some x) →
  ∀ l st st', range l body st = inr (tt, st') →
    ∀ x, x ∈ caps.of_state st' ↔
         x ∈ caps.of_state st ∧ ¬ ∃ c, c ∈ l ∧ dropped c = Some x.
Proof.
  intros Hbody l. induction l as [|c l IH]; intros st st'; cbn [range].
  - intros [= <-] x. split; [|naive_solver]. intros ?. split; [done|].
    by intros (? & []%elem_of_nil & _).
  - intros ([] & st1 & H1 & H2)%bind_inr x.
    rewrite (IH _ _ H2), (Hbody _ _ _ H1). setoid_rewrite elem_of_cons.
    naive_solver.
Qed.

Lemma range_succeeds {A : Type} (body : A → M H unit) (l : list A) :
  (∀ c, c ∈ l → ∀ st, ∃ st', body c st = inr (tt, st')) →
  ∀ st, ∃ st', range l body st = inr (tt, st').
Proof.
  induction l as [|c l IH]; intros Hbody st; cbn [range]; [by eexists|].
  destruct (Hbody c (list_elem_of_here _ _) st) as [st1 H1].
  destruct (IH (λ c' Hc', Hbody c' (list_elem_of_further _ _ _ Hc')) st1) as [st' H2].
  exists st'. by erewrite bind_run.
Qed.

Lemma individual_Some c x :
  caps.individual c = Some x ↔
  strings.ToUpper c ≠ "ALL" ∧ x = ("CAP_" ++ strings.ToUpper c)%string.
Proof.
  unfold caps.individual.
  destruct (String.eqb_spec (strings.ToUpper c) "ALL"); naive_solver.
Qed.

Lemma individually_individual l x :
  caps.individually l x ↔ ∃ c, c ∈ l ∧ caps.individual c = Some x.
Proof. unfold caps.individually. by setoid_rewrite individual_Some. Qed.

Lemma add_all_body n (st st' : State H) :
  call_err (generate.AddProcessCapability n) st = inr (tt, st') →
  ∀ x, x ∈ caps.of_state st' ↔
       x ∈ caps.of_state st ∨ Some (strings.ToUpper n) = Some x.
Proof. intros Hrun x. rewrite (Add_run _ _ _ Hrun). naive_solver. Qed.

Lemma drop_all_body n (st st' : State H) :
  call_err (generate.DropProcessCapability n) st = inr (tt, st') →
  ∀ x, x ∈ caps.of_state st' ↔
       x ∈ caps.of_state st ∧ Some (strings.ToUpper n) ≠ Some x.
Proof. intros Hrun x. rewrite (Drop_run _ _ _ Hrun). naive_solver. Qed.

Lemma add_body c (st st' : State H) :
  (if String.eqb (strings.ToUpper c) "ALL" then mret tt
   else call_err (generate.AddProcessCapability ("CAP_" ++ strings.ToUpper c))) st
  = inr (tt, st') →
  ∀ x, x ∈ caps.of_state st' ↔
       x ∈ caps.of_state st ∨ caps.individual c = Some x.
Proof.
  unfold caps.individual. destruct (String.eqb _ _).
  - intros [= <-]. naive_solver.
  - intros Hrun x. rewrite (Add_run _ _ _ Hrun), ToUpper_CAP. naive_solver.
Qed.

Lemma drop_body c (st st' : State H) :
  (if String.eqb (strings.ToUpper c) "ALL" then mret tt
   else call_err (generate.DropProcessCapability ("CAP_" ++ strings.ToUpper c))) st
  = inr (tt, st') →
  ∀ x, x ∈ caps.of_state st' ↔
       x ∈ caps.of_state st ∧ caps.individual c ≠ Some x.
Proof.
  unfold caps.individual. destruct (String.eqb _ _).
  - intros [= <-]. naive_solver.
  - intros Hrun x. rewrite (Drop_run _ _ _ Hrun), ToUpper_CAP. naive_solver.
Qed.

Lemma listed_upper x :
  (∃ n, n ∈ getOCICapabilitiesList ∧ Some (strings.ToUpper n) = Some x) ↔
  x ∈ getOCICapabilitiesList.
Proof.
  split.
  - intros (n & Hn & [= <-]). by rewrite (ToUpper_listed n Hn).
  - intros Hx. exists x. by rewrite (ToUpper_listed x Hx).
Qed.

(** The capabilities after [setOCICapabilities], in the order of its four
    loops. *)
Lemma setOCICapabilities_run (c : Capability) (st st' : State H) :
  setOCICapabilities (Some c) st = inr (tt, st') →
  ∀ x, x ∈ caps.of_state st' ↔
       ¬ caps.individually (DropCapabilities c) x ∧
       (caps.individually (AddCapabilities c) x ∨
        (¬ (util_InStringSlice (DropCapabilities c) "ALL" = true ∧
            x ∈ getOCICapabilitiesList) ∧
         ((util_InStringSlice (AddCapabilities c) "ALL" = true ∧
           x ∈ getOCICapabilitiesList) ∨
          x ∈ caps.of_state st))).
Proof.
  unfold setOCICapabilities. cbn [GetAddCapabilities GetDropCapabilities].
  intros ([] & st1 & H1 & Hrun)%bind_inr.
  apply bind_inr in Hrun as ([] & st2 & H2 & Hrun).
  apply bind_inr in Hrun as ([] & st3 & H3 & H4). intros x.
  rewrite (range_drops _ _ drop_body _ _ _ H4 x).
  rewrite (range_adds _ _ add_body _ _ _ H3 x).
  rewrite <- !individually_individual.
  assert (x ∈ caps.of_state st1 ↔
          (util_InStringSlice (AddCapabilities c) "ALL" = true ∧
           x ∈ getOCICapabilitiesList) ∨ x ∈ caps.of_state st) as E1.
  { destruct (util_InStringSlice (AddCapabilities c) "ALL").
    - rewrite (range_adds _ _ add_all_body _ _ _ H1 x), listed_upper.
      naive_solver.
    - injection H1 as <-. naive_solver. }
  assert (x ∈ caps.of_state st2 ↔
          ¬ (util_InStringSlice (DropCapabilities c) "ALL" = true ∧
             x ∈ getOCICapabilitiesList) ∧ x ∈ caps.of_state st1) as E2.
  { destruct (util_InStringSlice (DropCapabilities c) "ALL").
    - rewrite (range_drops _ _ drop_all_body _ _ _ H2 x), listed_upper.
      naive_solver.
    - injection H2 as <-. naive_solver. }
  rewrite E2, E1. tauto.
Qed.

Lemma names_individual l x :
  x ∈ caps.names l ↔ ∃ c, c ∈ l ∧ caps.individual c = Some x.
Proof.
  unfold caps.names. rewrite list_elem_of_fmap.
  split.
  - intros (c & -> & Hc). apply list_elem_of_In, filter_In in Hc as [Hc Hn].
    exists c. split; [by apply list_elem_of_In|]. unfold caps.individual.
    by destruct (String.eqb _ _).
  - intros (c & Hc & Hi). exists c. apply individual_Some in Hi as [Hn ->].
    split; [done|]. apply list_elem_of_In, filter_In.
    split; [by apply list_elem_of_In|].
    by destruct (String.eqb_spec (strings.ToUpper c) "ALL").
Qed.

(** [setOCICapabilities] succeeds when the generator accepts every name the
    declaration makes it pass. *)
Lemma setOCICapabilities_succeeds (c : Capability) (st : State H) :
  (∀ x, x ∈ caps.requested c → validate_CapValid x = None) →
  ∃ st', setOCICapabilities (Some c) st = inr (tt, st').
Proof.
  unfold caps.requested. intros Hv. unfold setOCICapabilities.
  cbn [GetAddCapabilities GetDropCapabilities].
  assert (∃ st1, (if util_InStringSlice (AddCapabilities c) "ALL"
                  then range getOCICapabilitiesList
                         (λ n, call_err (generate.AddProcessCapability n))
                  else mret tt) st = inr (tt, st1)) as [st1 H1].
  { destruct (util_InStringSlice (AddCapabilities c) "ALL"); [|by eexists].
    apply range_succeeds. intros n Hn st0. apply Add_succeeds.
    rewrite (ToUpper_listed n Hn). apply Hv. set_solver. }
  assert (∃ st2, (if util_InStringSlice (DropCapabilities c) "ALL"
                  then range getOCICapabilitiesList
                         (λ n, call_err (generate.DropProcessCapability n))
                  else mret tt) st1 = inr (tt, st2)) as [st2 H2].
  { destruct (util_InStringSlice (DropCapabilities c) "ALL"); [|by eexists].
    apply range_succeeds. intros n Hn st0. apply Drop_succeeds.
    rewrite (ToUpper_listed n Hn). apply Hv. set_solver. }
  assert (∃ st3, range (AddCapabilities c) (λ n,
            if String.eqb (strings.ToUpper n) "ALL" then mret tt
            else call_err (generate.AddProcessCapability ("CAP_" ++ strings.ToUpper n)))
            st2 = inr (tt, st3)) as [st3 H3].
  { apply range_succeeds. intros n Hn st0.
    destruct (String.eqb_spec (strings.ToUpper n) "ALL"); [by eexists|].
    apply Add_succeeds. rewrite ToUpper_CAP. apply Hv.
    rewrite !elem_of_app, !names_individual. right. right. left.
    exists n. split; [done|]. by apply individual_Some. }
  assert (∃ st4, range (DropCapabilities c) (λ n,
            if String.eqb (strings.ToUpper n) "ALL" then mret tt
            else call_err (generate.DropProcessCapability ("CAP_" ++ strings.ToUpper n)))
            st3 = inr (tt, st4)) as [st4 H4].
  { apply range_succeeds. intros n Hn st0.
    destruct (String.eqb_spec (strings.ToUpper n) "ALL"); [by eexists|].
    apply Drop_succeeds. rewrite ToUpper_CAP. apply Hv.
    rewrite !elem_of_app, !names_individual. right. right. right.
    exists n. split; [done|]. by apply individual_Some. }
  exists st4.
  erewrite bind_run; [|exact H1]. erewrite bind_run; [|exact H2].
  erewrite bind_run; [|exact H3]. exact H4.
Qed.

(** [getOCICapabilitiesList] lists the available capabilities, all of them
    and nothing else. *)
Lemma getOCICapabilitiesList_available (x : string) :
  x ∈ getOCICapabilitiesList ↔ caps.available x.
Proof.
  unfold getOCICapabilitiesList, caps.available, generate.capName.
  rewrite list_elem_of_fmap. split.
  - intros (cap & -> & Hin). apply list_elem_of_In, filter_In in Hin as [Hin Hle].
    exists cap. split; [by apply list_elem_of_In|]. split; [|done].
    apply negb_true_iff, Z.ltb_ge in Hle. done.
  - intros (cap & Hin & Hle & ->). exists cap. split; [done|].
    apply list_elem_of_In, filter_In. split; [by apply list_elem_of_In|].
    apply negb_true_iff, Z.ltb_ge. done.
Qed.

(** C6. After [setOCICapabilities] a capability is present exactly when no
    individual entry of the drop-list names it and either an individual entry
    of the add-list names it, or it was left by the two expansions: not
    dropped by an [ALL] of the drop-list, and added by an [ALL] of the
    add-list or present before.  An [ALL] stands for every available
    capability, that is every capability of the table up to the last one the
    host knows, and for nothing else.  Individual entries are named with the
    [CAP_] prefix.  The run succeeds when the generator accepts the names
    passed.  So the add-list [ALL] with the drop-list [CHOWN] leaves every
    available capability, and those present before, except [CAP_CHOWN]. *)
Theorem setOCICapabilities_order (c : Capability) (st : State H) :
  (∀ st', setOCICapabilities (Some c) st = inr (tt, st') →
     ∀ x, x ∈ caps.of_state st' ↔
          ¬ caps.individually (DropCapabilities c) x ∧
          (caps.individually (AddCapabilities c) x ∨
           (¬ (util_InStringSlice (DropCapabilities c) "ALL" = true ∧
               caps.available x) ∧
            ((util_InStringSlice (AddCapabilities c) "ALL" = true ∧
              caps.available x) ∨
             x ∈ caps.of_state st)))) ∧
  ((∀ x, ((util_InStringSlice (AddCapabilities c) "ALL" = true ∨
            util_InStringSlice (DropCapabilities c) "ALL" = true) ∧
           caps.available x) ∨
          x ∈ caps.names (AddCapabilities c) ++ caps.names (DropCapabilities c) →
          validate_CapValid x = None) →
   ∃ st', setOCICapabilities (Some c) st = inr (tt, st')) ∧
  (AddCapabilities c = ["ALL"] → DropCapabilities c = ["CHOWN"] →
   util_InStringSlice ["ALL"] "ALL" = true →
   util_InStringSlice ["CHOWN"] "ALL" = false →
   (∀ x, caps.available x → validate_CapValid x = None) →
   validate_CapValid "CAP_CHOWN" = None →
   ∃ st', setOCICapabilities (Some c) st = inr (tt, st') ∧
     ∀ x, x ∈ caps.of_state st' ↔
          (caps.available x ∨ x ∈ caps.of_state st) ∧ x ≠ "CAP_CHOWN").
Proof.
  split; [|split].
  - intros st' Hrun x.
    rewrite (setOCICapabilities_run c st st' Hrun x).
    by rewrite !getOCICapabilitiesList_available.
  - intros Hvalid. apply setOCICapabilities_succeeds.
    intros x Hx. apply Hvalid. unfold caps.requested in Hx.
    rewrite !elem_of_app in Hx. rewrite elem_of_app.
    destruct Hx as [Hx|[Hx|[Hx|Hx]]]; [| |by right; left|by right; right].
    + destruct (util_InStringSlice (AddCapabilities c) "ALL");
        [|by apply elem_of_nil in Hx].
      left. split; [by left|]. by apply getOCICapabilitiesList_available.
    + destruct (util_InStringSlice (DropCapabilities c) "ALL");
        [|by apply elem_of_nil in Hx].
      left. split; [by right|]. by apply getOCICapabilitiesList_available.
  - intros Hadd Hdrop Hall Hnone Hlisted Hchown.
    destruct (setOCICapabilities_succeeds c st) as [st' Hrun].
    { unfold caps.requested. rewrite Hadd, Hdrop, Hall, Hnone. cbn.
      intros x [Hx|Hx%list_elem_of_singleton]%elem_of_app; [|by subst].
      by apply Hlisted, getOCICapabilitiesList_available. }
    exists st'. split; [done|]. intros x.
    rewrite (setOCICapabilities_run c st st' Hrun x), Hadd, Hdrop, Hall, Hnone.
    rewrite !getOCICapabilitiesList_available.
    assert (caps.individually ["CHOWN"] x ↔ x = "CAP_CHOWN") as ->.
    { unfold caps.individually. setoid_rewrite list_elem_of_singleton.
      split; [by intros (? & -> & _ & ->)|]. intros ->. by exists "CHOWN". }
    assert (¬ caps.individually ["ALL"] x) as Hno.
    { unfold caps.individually. setoid_rewrite list_elem_of_singleton.
      by intros (? & -> & ? & _). }
    naive_solver.
Qed.

End Compiler.

(** C4, as the specification words it, fails: a command that is present and
    empty is not replaced by the image entrypoint. *)
Lemma setOCIProcessArgs_not_specified :
  ∃ st',
    setOCIProcessArgs (instances.config_of (Some []) None []) instances.image_sh
                      instances.start = inr (tt, st') ∧
    runtimespec.Args (runtimespec.process (gen st')) = ["-c"; "true"] ∧
    argv.specified (instances.config_of (Some []) None []) instances.image_sh
      = ["/bin/sh"; "-c"; "true"] ∧
    runtimespec.Args (runtimespec.process (gen st'))
      ≠ argv.specified (instances.config_of (Some []) None []) instances.image_sh.
Proof. eexists. split; [reflexivity|]. repeat split. discriminate. Qed.

End server_facts.

(** ** The compiler on a small host *)

Module examples.
Import runtime imagespec server instances.

(** The image entrypoint and default args make the vector when the caller
    gives neither; an explicit command without args is the whole vector. *)
Example argv_of_image :
  argv.resolved (config_of None None []) image_sh = ["/bin/sh"; "-c"; "true"] ∧
  argv.resolved (config_of (Some ["/bin/echo"]) None []) image_sh = ["/bin/echo"].
Proof. split; reflexivity. Qed.

(** A bidirectional mount of the shared [/data] is bound with [rshared] and
    makes the root propagation [rshared]; one of the private [/x] fails. *)
Example bidirectional_shared :
  ∃ st', addOCIBindMounts [bind_mount "/data" PROPAGATION_BIDIRECTIONAL] "" start
         = inr (tt, st') ∧
         propagation.root st' = "rshared" ∧
         last (runtimespec.Mounts (gen st'))
         = Some (propagation.bind_of
                   (bind_mount "/data" PROPAGATION_BIDIRECTIONAL) "/data").
Proof. eexists. repeat split. Qed.

Example bidirectional_private :
  addOCIBindMounts [bind_mount "/x" PROPAGATION_BIDIRECTIONAL] "" start
  = inl (ErrNotSharedMount "/x" "/x").
Proof. reflexivity. Qed.

Example host_to_container_keeps_rshared :
  ∃ st', addOCIBindMounts [bind_mount "/data" PROPAGATION_BIDIRECTIONAL;
                           bind_mount "/mnt/slave" PROPAGATION_HOST_TO_CONTAINER;
                           bind_mount "/x" (PROPAGATION_undeclared 7)] "" start
         = inr (tt, st') ∧
         propagation.root st' = "rshared" ∧
         warnings st' = ["Unknown propagation mode for hostPath /x"].
Proof. eexists. repeat split. Qed.

(** Add [ALL], drop [CHOWN]: every capability but [CAP_CHOWN]. *)
Example all_but_chown :
  ∃ st', setOCICapabilities
           (Some {| AddCapabilities := ["ALL"]; DropCapabilities := ["CHOWN"] |})
           start = inr (tt, st') ∧
         caps.of_state st' = ["CAP_KILL"; "CAP_DAC_OVERRIDE"].
Proof. eexists. split; reflexivity. Qed.

(** Image environment [A=1], caller environment [A=2], [B=3]. *)
Example env_override :
  ∃ spec st',
    generateContainerSpec "id" 1
      (config_of None None [{| Key := "A"; Value := "2" |};
                            {| Key := "B"; Value := "3" |}])
      {| CgroupParent := "" |} image_sh [] start = inr (spec, st') ∧
    map_to_list (env.of_spec spec)
    = [("A", "2"); ("B", "3"); ("PATH", "/usr/bin:/bin")].
Proof. eexists _, _. split; vm_compute; reflexivity. Qed.

(** A privileged container: the specification is generated, with every
    capability of the table. *)
Example privileged_container :
  ∃ spec st',
    generateContainerSpec "id" 1
      {| Command := None; Args := None; runtime.WorkingDir := ""; Envs := [];
         runtime.Mounts := []; runtime.Devices := []; Tty := false;
         Linux := Some {| Resources := None;
                          SecurityContext := Some
                            {| runtime.Capabilities := None; Privileged := true;
                               NamespaceOptions := None; SelinuxOptions := None;
                               ReadonlyRootfs := false; SupplementalGroups := [];
                               NoNewPrivs := false |} |} |}
      {| CgroupParent := "" |} image_sh [] start = inr (spec, st') ∧
    runtimespec.Capabilities (runtimespec.process spec)
    = ["CAP_CHOWN"; "CAP_DAC_OVERRIDE"; "CAP_KILL"].
Proof. eexists _, _. split; vm_compute; reflexivity. Qed.

End examples.

(** ** Security profiles *)

Module profile_facts.
Import server.

Lemma HasPrefix_app (p s : string) : strings.HasPrefix (p ++ s) p = true.
Proof.
  unfold strings.HasPrefix. induction p as [|c p IH]; [by destruct s|].
  change (String c p +:+ s) with (String c (p +:+ s)). cbn.
  destruct (ascii_dec c c); [exact IH | done].
Qed.

Lemma drop_bytes_app (p s : string) :
  strings.drop_bytes (String.length p) (p ++ s) = s.
Proof.
  induction p as [|c p IH]; [done|].
  change (String c p +:+ s) with (String c (p +:+ s)). exact IH.
Qed.

Lemma TrimPrefix_app (p s : string) : strings.TrimPrefix (p ++ s) p = s.
Proof. unfold strings.TrimPrefix. by rewrite HasPrefix_app, drop_bytes_app. Qed.

Lemma eqb_localhost (name rest : string) c :
  c ≠ "l"%char → String.eqb (profileNamePrefix ++ name) (String c rest) = false.
Proof.
  intros Hc. apply String.eqb_neq. unfold profileNamePrefix.
  change ("localhost/" +:+ name) with (String "l" ("ocalhost/" +:+ name)).
  congruence.
Qed.

Lemma localhost_not_named (name : string) :
  String.eqb (profileNamePrefix ++ name) "" = false ∧
  String.eqb (profileNamePrefix ++ name) unconfinedProfile = false ∧
  String.eqb (profileNamePrefix ++ name) runtimeDefault = false ∧
  String.eqb (profileNamePrefix ++ name) dockerDefault = false.
Proof.
  split; [by apply String.eqb_neq|].
  split; [|split]; apply eqb_localhost; discriminate.
Qed.

(** X1. For a container that is not privileged, [generateSeccompSpecOpts]
    gives: with seccomp disabled, no option for the empty and the unconfined
    profile and the error [ErrSeccompNotSupported] for every other name, the
    two default names included; with seccomp enabled, no option for the empty
    and the unconfined profile, the built-in default for [runtime/default] as
    for [docker/default], the named profile with the prefix removed for
    [localhost/] followed by a name, and [ErrInvalidSeccompProfile] for every
    other name. *)
Theorem generateSeccompSpecOpts_unprivileged_cases (prof : string) :
  (prof = "" ∨ prof = unconfinedProfile →
   ∀ enabled, generateSeccompSpecOpts prof false enabled = inr None) ∧
  (prof ≠ "" → prof ≠ unconfinedProfile →
   generateSeccompSpecOpts prof false false = inl ErrSeccompNotSupported) ∧
  (prof = runtimeDefault ∨ prof = dockerDefault →
   generateSeccompSpecOpts prof false true = inr (Some seccomp_WithDefaultProfile)) ∧
  (∀ name,
   generateSeccompSpecOpts (profileNamePrefix ++ name) false true
   = inr (Some (seccomp_WithProfile name))) ∧
  (prof ≠ "" → prof ≠ unconfinedProfile → prof ≠ runtimeDefault →
   prof ≠ dockerDefault → strings.HasPrefix prof profileNamePrefix = false →
   generateSeccompSpecOpts prof false true = inl (ErrInvalidSeccompProfile prof)).
Proof.
  split; [|split; [|split; [|split]]].
  - intros [-> | ->] []; reflexivity.
  - intros H1 H2. unfold generateSeccompSpecOpts. cbn [negb].
    destruct (String.eqb_spec prof runtimeDefault) as [->|];
      [reflexivity|].
    destruct (String.eqb_spec prof dockerDefault) as [->|]; [reflexivity|].
    cbn [orb]. apply String.eqb_neq in H1, H2. by rewrite H1, H2.
  - intros [-> | ->]; reflexivity.
  - intros name. unfold generateSeccompSpecOpts.
    destruct (localhost_not_named name) as (E0 & E1 & E2 & E3).
    rewrite E2, E3. cbn [orb negb]. rewrite E0, E1, E3. cbn [orb].
    by rewrite HasPrefix_app, TrimPrefix_app.
  - intros H1 H2 H3 H4 Hp. unfold generateSeccompSpecOpts.
    apply String.eqb_neq in H1, H2, H3, H4.
    rewrite H3, H4. cbn [orb negb]. rewrite H1, H2, H4. cbn [orb].
    by rewrite Hp.
Qed.

(** X2. [generateApparmorSpecOpts] does not stop at a privileged container:
    with AppArmor disabled it fails with [ErrApparmorNotSupported] for every
    profile but the empty and the unconfined one, privileged or not.  With
    AppArmor enabled, [runtime/default] gives the default profile, the
    unconfined profile gives no option, the empty profile gives the default
    profile unless the container is privileged, [localhost/] followed by a
    name gives that profile, and [docker/default], which seccomp accepts, is
    an invalid profile name. *)
Theorem generateApparmorSpecOpts_cases (prof : string) (privileged : bool) :
  (prof = "" ∨ prof = unconfinedProfile →
   generateApparmorSpecOpts prof privileged false = inr None) ∧
  (prof ≠ "" → prof ≠ unconfinedProfile →
   generateApparmorSpecOpts prof privileged false = inl ErrApparmorNotSupported) ∧
  generateApparmorSpecOpts runtimeDefault privileged true
    = inr (Some (apparmor_WithDefaultProfile appArmorDefaultProfileName)) ∧
  generateApparmorSpecOpts unconfinedProfile privileged true = inr None ∧
  generateApparmorSpecOpts "" privileged true
    = (if privileged then inr None
       else inr (Some (apparmor_WithDefaultProfile appArmorDefaultProfileName))) ∧
  (∀ name,
   generateApparmorSpecOpts (profileNamePrefix ++ name) privileged true
   = inr (Some (apparmor_WithProfile name))) ∧
  generateApparmorSpecOpts dockerDefault privileged true
    = inl (ErrInvalidApparmorProfile dockerDefault) ∧
  (prof ≠ "" → prof ≠ unconfinedProfile → prof ≠ runtimeDefault →
   strings.HasPrefix prof profileNamePrefix = false →
   generateApparmorSpecOpts prof privileged true
   = inl (ErrInvalidApparmorProfile prof)).
Proof.
  split; [|split; [|split; [|split; [|split; [|split; [|split]]]]]].
  - by intros [-> | ->].
  - intros H1 H2. unfold generateApparmorSpecOpts. cbn [negb].
    apply String.eqb_neq in H1, H2. by rewrite H1, H2.
  - reflexivity.
  - reflexivity.
  - by destruct privileged.
  - intros name. unfold generateApparmorSpecOpts.
    destruct (localhost_not_named name) as (E0 & E1 & E2 & E3).
    cbn [negb]. by rewrite E2, E1, E0, HasPrefix_app, TrimPrefix_app.
  - reflexivity.
  - intros H1 H2 H3 Hp. unfold generateApparmorSpecOpts.
    apply String.eqb_neq in H1, H2, H3. cbn [negb]. by rewrite H3, H2, H1, Hp.
Qed.

End profile_facts.

(** ** Parts of the compiler *)

Module part_facts.
Import runtime imagespec server run_facts.

(** X3. A path that passes [ensureShared] passes [ensureSharedOrSlave], and
    when the lookup of the mount fails both return the error of the lookup,
    as it is. *)
Theorem ensureShared_ensureSharedOrSlave (path : string)
  (lookupMount : string → exterror + mount.Info) :
  (ensureShared path lookupMount = None →
   ensureSharedOrSlave path lookupMount = None) ∧
  (∀ err, lookupMount path = inl err →
          ensureShared path lookupMount = Some (External err) ∧
          ensureSharedOrSlave path lookupMount = Some (External err)).
Proof.
  unfold ensureShared, ensureSharedOrSlave. split.
  - destruct (lookupMount path) as [|info]; [done|].
    destruct (existsb _ _) eqn:E; [|done]. intros _.
    apply existsb_exists in E as (opt & Hin & Hopt).
    assert (existsb
      (λ opt, if strings.HasPrefix opt "shared:" then true
              else if strings.HasPrefix opt "master:" then true else false)
      (strings.Split (mount.Optional info) " ") = true) as ->; [|done].
    apply existsb_exists. exists opt. by rewrite Hopt.
  - by intros err ->.
Qed.

(** The converse fails: a slave mount passes the second test only. *)
Example slave_is_not_shared :
  ensureSharedOrSlave "/mnt/slave" (@os_LookupMount unit instances.quiet_host tt)
  = None ∧
  ensureShared "/mnt/slave" (@os_LookupMount unit instances.quiet_host tt)
  = Some (ErrNotSharedMount "/mnt/slave" "/mnt/slave").
Proof. split; reflexivity. Qed.

Lemma filter_ro_idem (l : list string) :
  List.filter (λ o, negb (String.eqb o "ro"))
    (List.filter (λ o, negb (String.eqb o "ro")) l)
  = List.filter (λ o, negb (String.eqb o "ro")) l.
Proof.
  induction l as [|o l IH]; [done|]. cbn.
  destruct (negb (String.eqb o "ro")) eqn:E; cbn; [rewrite E|]; congruence.
Qed.

Lemma filter_ro_none (l : list string) :
  "ro" ∉ l → List.filter (λ o, negb (String.eqb o "ro")) l = l.
Proof.
  induction l as [|o l IH]; [done|]. intros Hro. cbn.
  apply not_elem_of_cons in Hro as [Hne Hro].
  destruct (String.eqb_spec o "ro"); [congruence|]. cbn. by rewrite IH.
Qed.

Lemma clearReadOnly_no_ro (m : runtimespec.Mount) :
  "ro" ∉ runtimespec.Options (clearReadOnly m).
Proof.
  unfold clearReadOnly. cbn.
  intros [_ Hro]%list_elem_of_In%filter_In. by rewrite String.eqb_refl in Hro.
Qed.

Lemma clearReadOnly_idem (m : runtimespec.Mount) :
  clearReadOnly (clearReadOnly m) = clearReadOnly m.
Proof. unfold clearReadOnly. cbn. by rewrite filter_ro_idem. Qed.

(** [clearReadOnly] removes every [ro] of the options of a mount and
    nothing else: the other options stay, in their order, the other fields
    stay, a mount without [ro] is unchanged, and clearing twice is clearing
    once. *)
Theorem clearReadOnly_clears (m : runtimespec.Mount) :
  ("ro" ∉ runtimespec.Options (clearReadOnly m)) ∧
  runtimespec.Options (clearReadOnly m)
    = List.filter (λ o, negb (String.eqb o "ro")) (runtimespec.Options m) ∧
  (∀ o, o ≠ "ro" →
        (o ∈ runtimespec.Options (clearReadOnly m) ↔ o ∈ runtimespec.Options m)) ∧
  runtimespec.Destination (clearReadOnly m) = runtimespec.Destination m ∧
  runtimespec.Type_ (clearReadOnly m) = runtimespec.Type_ m ∧
  runtimespec.Source (clearReadOnly m) = runtimespec.Source m ∧
  ("ro" ∉ runtimespec.Options m → clearReadOnly m = m) ∧
  clearReadOnly (clearReadOnly m) = clearReadOnly m.
Proof.
  split; [apply clearReadOnly_no_ro|].
  split; [|split; [|split; [|split; [|split; [|split]]]]]; try done.
  - intros o Hne. unfold clearReadOnly. cbn. split.
    + intros [Hin _]%list_elem_of_In%filter_In. by apply list_elem_of_In.
    + intros Hin%list_elem_of_In. apply list_elem_of_In, filter_In.
      split; [done|]. by destruct (String.eqb_spec o "ro").
  - intros Hro. destruct m as [dst ty src opts]. unfold clearReadOnly. cbn in *.
    by rewrite filter_ro_none.
  - apply clearReadOnly_idem.
Qed.

Section Compiler.
Context {H : Type} {os : HostOS H} {world : Collaborators}.

(** X4. [setOCIBindMountsPrivileged] always succeeds and keeps the mounts in
    number and order, each with its destination, type and source.  It leaves
    no [ro] on a mount of type [cgroup], nor on the mount of [/sys] when the
    root is not read-only at this point; it leaves the mount of [/sys] of a
    read-only root, and every mount that is neither, as it was.  It empties
    the read-only and the masked paths. *)
Theorem setOCIBindMountsPrivileged_clears (st : State H) :
  ∃ st', setOCIBindMountsPrivileged st = inr (tt, st') ∧
    host st' = host st ∧ warnings st' = warnings st ∧
    runtimespec.process (gen st') = runtimespec.process (gen st) ∧
    runtimespec.root (gen st') = runtimespec.root (gen st) ∧
    runtimespec.ReadonlyPaths (runtimespec.linux (gen st')) = [] ∧
    runtimespec.MaskedPaths (runtimespec.linux (gen st')) = [] ∧
    length (runtimespec.Mounts (gen st')) = length (runtimespec.Mounts (gen st)) ∧
    ∀ i m, runtimespec.Mounts (gen st) !! i = Some m →
      ∃ m', runtimespec.Mounts (gen st') !! i = Some m' ∧
        runtimespec.Destination m' = runtimespec.Destination m ∧
        runtimespec.Type_ m' = runtimespec.Type_ m ∧
        runtimespec.Source m' = runtimespec.Source m ∧
        (runtimespec.Type_ m = "cgroup" → "ro" ∉ runtimespec.Options m') ∧
        (runtimespec.Destination m = "/sys" →
         runtimespec.root_Readonly (runtimespec.root (gen st)) = false →
         "ro" ∉ runtimespec.Options m') ∧
        (runtimespec.Type_ m ≠ "cgroup" →
         (runtimespec.Destination m ≠ "/sys" ∨
          runtimespec.root_Readonly (runtimespec.root (gen st)) = true) →
         m' = m).
Proof.
  eexists. split; [reflexivity|]. cbn. rewrite length_map.
  repeat split; try done.
  intros i m Hi. eexists. split.
  { change (@List.map ?A ?B) with (@fmap list _ A B).
    rewrite list_lookup_fmap, Hi. reflexivity. }
  pose proof (clearReadOnly_no_ro m) as Hro.
  pose proof (clearReadOnly_idem m) as Hidem.
  destruct (String.eqb_spec (runtimespec.Destination m) "/sys") as [Esys|Esys];
    destruct (runtimespec.root_Readonly (runtimespec.root (gen st))) eqn:Ero;
    destruct (String.eqb_spec (runtimespec.Type_ m) "cgroup") as [Ecg|Ecg];
    cbn [andb negb]; rewrite ?Hidem; repeat split; try done;
    try (intros; exfalso; naive_solver).
Qed.

(** X5. [defaultRuntimeSpec] succeeds exactly when containerd generates its
    default specification, and passes its error on as it is.  Of that
    specification it drops every mount of [/run] and keeps the other mounts in
    their order, clears the AppArmor profile and the seccomp profile, and
    keeps the rest. *)
Theorem defaultRuntimeSpec_strips (id : string) :
  (∀ err, containerd_GenerateSpec id = inl err →
          defaultRuntimeSpec id = inl (External err)) ∧
  (∀ spec0, containerd_GenerateSpec id = inr spec0 →
     ∃ spec, defaultRuntimeSpec id = inr spec ∧
       runtimespec.Mounts spec
         = List.filter (λ m, negb (String.eqb (runtimespec.Destination m) "/run"))
                       (runtimespec.Mounts spec0) ∧
       (∀ m, m ∈ runtimespec.Mounts spec → runtimespec.Destination m ≠ "/run") ∧
       (∀ m, m ∈ runtimespec.Mounts spec0 → runtimespec.Destination m ≠ "/run" →
             m ∈ runtimespec.Mounts spec) ∧
       runtimespec.ApparmorProfile (runtimespec.process spec) = "" ∧
       runtimespec.Seccomp (runtimespec.linux spec) = None ∧
       runtimespec.root spec = runtimespec.root spec0 ∧
       runtimespec.process spec
         = runtimespec.set_ApparmorProfile "" (runtimespec.process spec0) ∧
       runtimespec.linux spec
         = runtimespec.set_Seccomp None (runtimespec.linux spec0)).
Proof.
  unfold defaultRuntimeSpec. split.
  - by intros err ->.
  - intros spec0 ->. eexists. split; [reflexivity|]. cbn.
    repeat split.
    + intros m [_ Hm]%list_elem_of_In%filter_In.
      by destruct (String.eqb_spec (runtimespec.Destination m) "/run").
    + intros m Hin%list_elem_of_In Hne. apply list_elem_of_In, filter_In.
      split; [done|].
      by destruct (String.eqb_spec (runtimespec.Destination m) "/run").
Qed.

End Compiler.
End part_facts.

(** ** Devices *)

Module device_facts.
Import runtime imagespec server run_facts.

Section Compiler.
Context {H : Type} {os : HostOS H} {world : Collaborators}.

Ltac open_linux :=
  unfold put_gen, runtimespec.with_linux, runtimespec.with_Resources,
    runtimespec.set_res_Devices, runtimespec.set_Devices;
  simpl.

(** The state after devices and rules are appended. *)
Lemma put_devices_nil (st : State H) :
  put_gen (runtimespec.with_linux (λ l,
     runtimespec.with_Resources
       (λ r, runtimespec.set_res_Devices (runtimespec.res_Devices r ++ []) r)
       (runtimespec.set_Devices (runtimespec.Devices l ++ []) l)) (gen st)) st
  = st.
Proof.
  destruct st as [[p r ms [a b c d e f g h [r1 r2 r3 r4 r5 r6 r7]]] h0 w].
  open_linux. by rewrite !app_nil_r.
Qed.

(** One device whose path resolves and whose node is read: the run goes on
    with the device and its rule appended. *)
Lemma addOCIDevices_cons (d : Device) (devs : list Device) (st : State H)
  (path : string) (n : devices.Device) :
  os_ResolveSymbolicLink (host st) (dev_HostPath d) = inr path →
  devices_DeviceFromPath (host st) path (dev_Permissions d) = inr n →
  ∃ st1, host st1 = host st ∧
         addOCIDevices (d :: devs) st = addOCIDevices devs st1.
Proof.
  intros Er En. unfold addOCIDevices. cbn [range]. fold (addOCIDevices devs).
  eexists. split; [|unfold mbind, M_mbind, M_bind, ask, call; rewrite Er, En;
                    cbn; reflexivity].
  reflexivity.
Qed.

(** X6. A run of [addOCIDevices] that succeeds has resolved the host path of
    each device and read its device node, has appended one device for each
    device of the list, in order, at its container path, and one cgroup rule
    for each that allows the node with the permissions read, and has changed
    neither the host nor anything else.  The first device whose path or node
    cannot be read ends the run with that error, as it is, wherever in the
    list it stands. *)
Theorem addOCIDevices_appends (devs : list Device) (st : State H) :
  (∀ st', addOCIDevices devs st = inr (tt, st') →
     ∃ nodes : list devices.Device,
       Forall2 (λ d n, ∃ path,
                  os_ResolveSymbolicLink (host st) (dev_HostPath d) = inr path ∧
                  devices_DeviceFromPath (host st) path (dev_Permissions d) = inr n)
               devs nodes ∧
       st' = put_gen (runtimespec.with_linux (λ l,
               runtimespec.with_Resources
                 (λ r, runtimespec.set_res_Devices
                         (runtimespec.res_Devices r ++ (devs.rule <$> nodes)) r)
                 (runtimespec.set_Devices
                    (runtimespec.Devices l ++
                     zip_with (λ d n, devs.node (dev_ContainerPath d) n) devs nodes)
                    l)) (gen st)) st) ∧
  (∀ before d rest nodes err,
     devs = before ++ d :: rest →
     Forall2 (λ d n, ∃ path,
                os_ResolveSymbolicLink (host st) (dev_HostPath d) = inr path ∧
                devices_DeviceFromPath (host st) path (dev_Permissions d) = inr n)
             before nodes →
     os_ResolveSymbolicLink (host st) (dev_HostPath d) = inl err →
     addOCIDevices devs st = inl (External err)) ∧
  (∀ before d rest nodes path err,
     devs = before ++ d :: rest →
     Forall2 (λ d n, ∃ path,
                os_ResolveSymbolicLink (host st) (dev_HostPath d) = inr path ∧
                devices_DeviceFromPath (host st) path (dev_Permissions d) = inr n)
             before nodes →
     os_ResolveSymbolicLink (host st) (dev_HostPath d) = inr path →
     devices_DeviceFromPath (host st) path (dev_Permissions d) = inl err →
     addOCIDevices devs st = inl (External err)).
Proof.
  split; [|split].
  - revert st. induction devs as [|d devs IH]; intros st st'.
    + intros [= <-]. exists []. split; [constructor|]. cbn.
      by rewrite put_devices_nil.
    + unfold addOCIDevices. cbn [range]. fold (addOCIDevices devs).
      intros ([] & st1 & Hd & Hrest)%bind_inr.
      apply bind_inr in Hd as (r & st0 & [= <- <-] & Hd).
      destruct (os_ResolveSymbolicLink (host st) (dev_HostPath d))
        as [|path] eqn:Er; [done|].
      apply bind_inr in Hd as (n & st0 & [= <- <-] & Hd).
      destruct (devices_DeviceFromPath (host st) path (dev_Permissions d))
        as [|n] eqn:En; [done|].
      rewrite !bind_call in Hd. injection Hd as <-.
      apply IH in Hrest as (nodes & Hall & ->). exists (n :: nodes). split.
      * constructor; [by exists path | exact Hall].
      * destruct st as [[p r ms [a b c dv e f g h [r1 r2 r3 r4 r5 r6 r7]]] h0 w].
        open_linux. by rewrite <- !app_assoc.
  - intros before d rest nodes err -> Hbefore. revert st nodes Hbefore.
    induction before as [|b before IH]; intros st nodes Hbefore Er.
    + unfold addOCIDevices. cbn [app range].
      apply bind_fail. unfold mbind, M_mbind, M_bind, ask. by rewrite Er.
    + apply Forall2_cons_inv_l in Hbefore
        as (n & nodes' & (pathb & Hrb & Hnb) & Hbefore & ->).
      rewrite <- app_comm_cons.
      destruct (addOCIDevices_cons b (before ++ d :: rest) st pathb n Hrb Hnb)
        as (st1 & Hhost & ->).
      apply (IH st1 nodes'); rewrite Hhost; done.
  - intros before d rest nodes path err -> Hbefore. revert st nodes Hbefore.
    induction before as [|b before IH]; intros st nodes Hbefore Er En.
    + unfold addOCIDevices. cbn [app range].
      apply bind_fail. unfold mbind, M_mbind, M_bind, ask. by rewrite Er, En.
    + apply Forall2_cons_inv_l in Hbefore
        as (n & nodes' & (pathb & Hrb & Hnb) & Hbefore & ->).
      rewrite <- app_comm_cons.
      destruct (addOCIDevices_cons b (before ++ d :: rest) st pathb n Hrb Hnb)
        as (st1 & Hhost & ->).
      apply (IH st1 nodes'); rewrite Hhost; done.
Qed.

Lemma range_host_devices (hostDevices : list devices.Device) (st : State H) :
  range hostDevices (λ hostDevice,
    if Z.eqb (devices.Major hostDevice) 0 && Z.eqb (devices.Minor hostDevice) 0
    then mret tt
    else call (generate.AddDevice
                 {| runtimespec.dev_Path := devices.Path hostDevice;
                    runtimespec.dev_Type := devices.Type_ hostDevice;
                    runtimespec.dev_Major := devices.Major hostDevice;
                    runtimespec.dev_Minor := devices.Minor hostDevice;
                    runtimespec.dev_UID := devices.Uid hostDevice;
                    runtimespec.dev_GID := devices.Gid hostDevice |})) st
  = inr (tt, put_gen (runtimespec.with_linux (λ l,
               runtimespec.set_Devices
                 (runtimespec.Devices l ++
                  ((λ d, devs.node (devices.Path d) d)
                     <$> List.filter devs.numbered hostDevices)) l) (gen st)) st).
Proof.
  revert st. induction hostDevices as [|d l IH]; intros st; cbn [range].
  - destruct st as [[p r ms [a b c dv e f g h rs]] h0 w].
    open_linux. by rewrite app_nil_r.
  - cbn [List.filter]. unfold devs.numbered at 1.
    destruct (Z.eqb (devices.Major d) 0 && Z.eqb (devices.Minor d) 0); cbn [negb].
    + rewrite bind_ret. apply IH.
    + rewrite bind_call, IH.
      destruct st as [[p r ms [a b c dv e f g h rs]] h0 w].
      open_linux. by rewrite <- app_assoc.
Qed.

(** The run of [setOCIPrivileged], for the proofs about its callers. *)
Lemma setOCIPrivileged_state (config : ContainerConfig) (st : State H) :
  (∀ err, devices_HostDevices (host st) = inl err →
          setOCIPrivileged config st = inl (ErrSetDevicesMapping (External err))) ∧
  (∀ hostDevices, devices_HostDevices (host st) = inr hostDevices →
     ∃ st', setOCIPrivileged config st = inr (tt, st') ∧
       caps.of_state st' = generate.capName <$> capability_List ∧
       devs.of_state st'
         = devs.of_state st ++
           ((λ d, devs.node (devices.Path d) d)
              <$> List.filter devs.numbered hostDevices) ∧
       devs.rules_of_state st' = [devs.allow_all] ∧
       runtimespec.ReadonlyPaths (runtimespec.linux (gen st')) = [] ∧
       runtimespec.MaskedPaths (runtimespec.linux (gen st')) = [] ∧
       host st' = host st ∧ warnings st' = warnings st).
Proof.
  unfold setOCIPrivileged, setOCIBindMountsPrivileged, setOCIDevicesPrivileged.
  split.
  - intros err Herr. rewrite !bind_call. unfold wrap, mbind, M_mbind, M_bind, ask.
    cbn [host put_gen]. by rewrite Herr.
  - intros hostDevices Hdev. rewrite !bind_call.
    unfold wrap. unfold mbind at 1, M_mbind at 1, M_bind at 1, ask.
    cbn [host put_gen]. rewrite Hdev.
    erewrite bind_run; [|apply range_host_devices].
    eexists. split; [reflexivity|]. destruct st as [[p r ms l] h0 w].
    destruct l. repeat split.
Qed.

(** X7. [setOCIPrivileged] fails only when the host devices cannot be listed,
    with [ErrSetDevicesMapping] around that error.  Otherwise it succeeds: the
    process holds every capability of the table; every host device with a
    device number is appended as a device at its host path, and those with
    major and minor 0 are skipped; the device cgroup holds the single rule
    that allows every device; the read-only and the masked paths are empty;
    the host is not changed. *)
Theorem setOCIPrivileged_grants (config : ContainerConfig) (st : State H) :
  (∀ err, devices_HostDevices (host st) = inl err →
          setOCIPrivileged config st = inl (ErrSetDevicesMapping (External err))) ∧
  (∀ hostDevices, devices_HostDevices (host st) = inr hostDevices →
     ∃ st', setOCIPrivileged config st = inr (tt, st') ∧
       caps.of_state st' = generate.capName <$> capability_List ∧
       devs.of_state st'
         = devs.of_state st ++
           ((λ d, devs.node (devices.Path d) d)
              <$> List.filter devs.numbered hostDevices) ∧
       devs.rules_of_state st' = [devs.allow_all] ∧
       runtimespec.ReadonlyPaths (runtimespec.linux (gen st')) = [] ∧
       runtimespec.MaskedPaths (runtimespec.linux (gen st')) = [] ∧
       host st' = host st ∧ warnings st' = warnings st).
Proof. exact (setOCIPrivileged_state config st). Qed.

End Compiler.
End device_facts.

(** ** The kinds of error of a run *)

Module kind_facts.
Import run_facts.

Section Runs.
Context {H : Type}.

Lemma fails_only_ret {A : Type} P (a : A) : fails_only (H := H) P (mret a).
Proof. by intros st e. Qed.

Lemma fails_only_bind {A B : Type} P (m : M H A) (k : A → M H B) :
  fails_only P m → (∀ a, fails_only P (k a)) → fails_only P (m ≫= k).
Proof.
  intros Hm Hk st e [?|(a & st1 & _ & ?)]%bind_inl; [by eapply Hm | by eapply Hk].
Qed.

Lemma fails_only_ask {A B : Type} P (f : H → A) (k : A → M H B) :
  (∀ h, fails_only P (k (f h))) → fails_only P (ask f ≫= k).
Proof.
  intros Hk st e [[=]|(a & st1 & [= <- <-] & ?)]%bind_inl. by eapply Hk.
Qed.

Lemma fails_only_fail {A : Type} (P : error → Prop) e :
  P e → fails_only (H := H) (A := A) P (fail e).
Proof. by intros He st e' [= <-]. Qed.

Lemma fails_only_call P f : fails_only (H := H) P (call f).
Proof. by intros st e. Qed.

Lemma fails_only_call_err (P : error → Prop) f :
  (∀ x, P (External x)) → fails_only (H := H) P (call_err f).
Proof.
  intros HP st e. unfold call_err. destruct (f (gen st)); [|done].
  by intros [= <-].
Qed.

Lemma fails_only_Spec P : fails_only (H := H) P Spec.
Proof. by intros st e. Qed.

Lemma fails_only_act {A : Type} P (f : H → H * A) : fails_only P (act f).
Proof. intros st e. unfold act. by destruct (f (host st)). Qed.

Lemma fails_only_Warningf P msg : fails_only (H := H) P (Warningf msg).
Proof. by intros st e. Qed.

Lemma fails_only_wrap {A : Type} (P Q : error → Prop) (w : error → error)
  (m : M H A) :
  fails_only Q m → (∀ e, Q e → P (w e)) → fails_only P (wrap w m).
Proof.
  intros Hm Hw st e. unfold wrap. destruct (m st) as [e'|] eqn:E; [|done].
  intros [= <-]. eapply Hw, Hm, E.
Qed.

Lemma fails_only_range {A : Type} P (l : list A) (body : A → M H unit) :
  (∀ x, fails_only P (body x)) → fails_only P (range l body).
Proof.
  intros Hb. induction l as [|x l IH]; cbn [range].
  - apply fails_only_ret.
  - apply fails_only_bind; [apply Hb | by intros _].
Qed.

End Runs.

Create HintDb kinds.

#[export] Hint Resolve fails_only_ret fails_only_call fails_only_Spec
  fails_only_act fails_only_Warningf : kinds.

Ltac kinds_step :=
  first
    [ apply fails_only_ask; intros ?
    | apply fails_only_bind; [|intros ?]
    | apply fails_only_range; intros ?
    | apply fails_only_fail; exact I
    | apply fails_only_call_err; intros ?; exact I
    | solve [auto with kinds]
    | match goal with
      | |- fails_only _ (match ?x with _ => _ end) => destruct x eqn:?
      | |- fails_only _ (let (_, _) := ?x in _) => destruct x eqn:?
      end ].

End kind_facts.

(** ** Runs that leave the host alone *)

Module host_facts.
Import run_facts.

Section Runs.
Context {H : Type}.

Lemma keeps_host_ret {A : Type} (a : A) : keeps_host (H := H) (mret a).
Proof. by intros st a' st' [= _ <-]. Qed.

Lemma keeps_host_bind {A B : Type} (m : M H A) (k : A → M H B) :
  keeps_host m → (∀ a, keeps_host (k a)) → keeps_host (m ≫= k).
Proof.
  intros Hm Hk st b st' (a & st1 & H1 & H2)%bind_inr.
  rewrite (Hk _ _ _ _ H2). by eapply Hm.
Qed.

Lemma keeps_host_fail {A : Type} e : keeps_host (H := H) (A := A) (fail e).
Proof. by intros st a st'. Qed.

Lemma keeps_host_call g : keeps_host (H := H) (call g).
Proof. by intros st a st' [= _ <-]. Qed.

Lemma keeps_host_call_err g : keeps_host (H := H) (call_err g).
Proof.
  intros st a st'. unfold call_err. destruct (g (gen st)); [done|].
  by intros [= _ <-].
Qed.

Lemma keeps_host_Spec : keeps_host (H := H) Spec.
Proof. by intros st a st' [= _ <-]. Qed.

Lemma keeps_host_ask {A : Type} (g : H → A) : keeps_host (ask g).
Proof. by intros st a st' [= _ <-]. Qed.

Lemma keeps_host_Warningf msg : keeps_host (H := H) (Warningf msg).
Proof. by intros st a st' [= _ <-]. Qed.

Lemma keeps_host_wrap {A : Type} w (m : M H A) :
  keeps_host m → keeps_host (wrap w m).
Proof. intros Hm st a st' ?%wrap_inr. by eapply Hm. Qed.

Lemma keeps_host_range {A : Type} (l : list A) (body : A → M H unit) :
  (∀ x, keeps_host (body x)) → keeps_host (range l body).
Proof.
  intros Hb. induction l as [|x l IH]; cbn [range].
  - apply keeps_host_ret.
  - apply keeps_host_bind; [apply Hb | by intros _].
Qed.

End Runs.

Create HintDb hosts.

#[export] Hint Resolve keeps_host_ret keeps_host_fail keeps_host_call
  keeps_host_call_err keeps_host_Spec keeps_host_ask keeps_host_Warningf : hosts.

Ltac hosts_step :=
  first
    [ apply keeps_host_bind; [|intros ?]
    | apply keeps_host_range; intros ?
    | apply keeps_host_wrap
    | solve [auto with hosts]
    | match goal with
      | |- keeps_host (match ?x with _ => _ end) => destruct x eqn:?
      | |- keeps_host (let (_, _) := ?x in _) => destruct x eqn:?
      end ].

End host_facts.

(** ** The whole of [generateContainerSpec] *)

Module spec_facts.
Import runtime imagespec server run_facts kind_facts host_facts server_facts device_facts.

(** A proof that the functions of the compiler keep a part of the
    specification which none of their calls on the generator writes. *)
Ltac solve_keeps :=
  unfold setOCIProcessArgs, addImageEnvs, addOCIBindMounts,
    addOCIBindMounts_body, resolveHostPath, propagationOption,
    setOCIPrivileged, setOCIBindMountsPrivileged, setOCIDevicesPrivileged,
    addOCIDevices, setOCICapabilities, setOCILinuxResource, setOCINamespaces;
  repeat first
    [ done
    | keeps_step
    | apply keeps_call_err; intros ? ?;
      unfold generate.AddProcessCapability, generate.DropProcessCapability;
      destruct (validate_CapValid _); [done|]; by intros [= <-] ].

(** Carry the part [f] of the specification over the step [Hstep]. *)
Ltac carry f Hstep :=
  match type of Hstep with
  | ?m ?s = inr (_, ?s') =>
      let K := fresh "K" in
      assert (K : keeps f m) by solve_keeps;
      apply K in Hstep; clear K; unfold f in Hstep; cbn in Hstep
  end.

(** The host is carried over the step [Hstep], which only reads it. *)
Ltac carry_host Hstep :=
  match type of Hstep with
  | ?m ?s = inr (_, ?s') =>
      let K := fresh "K" in
      assert (K : keeps_host m)
        by (unfold setOCIProcessArgs, addImageEnvs, setOCIPrivileged,
              setOCIBindMountsPrivileged, setOCIDevicesPrivileged, addOCIDevices,
              setOCICapabilities, setOCILinuxResource, setOCINamespaces;
            repeat first [done | hosts_step]);
      apply K in Hstep; clear K; cbn in Hstep
  end.

(** Close a goal from the carried equations. *)
Ltac chain f := unfold f in *; cbn beta in *; congruence.

Section Compiler.
Context {H : Type} {os : HostOS H} {world : Collaborators}.

(** The steps of a run of [generateContainerSpec] that succeeds. *)
Lemma generateContainerSpec_steps (id : string) (sandboxPid : Z)
  (config : ContainerConfig) (sandboxConfig : PodSandboxConfig)
  (imageConfig : ImageConfig) (extraMounts : list Mount)
  (st st' : State H) (spec : runtimespec.Spec) :
  generateContainerSpec id sandboxPid config sandboxConfig imageConfig
                        extraMounts st = inr (spec, st') →
  ∃ spec0 processLabel mountLabel s1 s2 s3 s4 s5 s6 s7 s8 s9 s10,
    defaultRuntimeSpec id = inr spec0 ∧
    initSelinuxOpts (GetSelinuxOptions (GetSecurityContext (Linux config)))
      = inr (processLabel, mountLabel) ∧
    setOCIProcessArgs config imageConfig
      (put_gen (generate.SetRootPath relativeRootfsPath spec0) st) = inr (tt, s1) ∧
    (if negb (String.eqb (runtime.WorkingDir config) "")
     then call (generate.SetProcessCwd (runtime.WorkingDir config))
     else if negb (String.eqb (imagespec.WorkingDir imageConfig) "")
     then call (generate.SetProcessCwd (imagespec.WorkingDir imageConfig))
     else mret tt) s1 = inr (tt, s2) ∧
    (if Tty config then call (generate.AddProcessEnv "TERM" "xterm")
     else mret tt)
      (put_gen (generate.SetProcessTerminal (Tty config) (gen s2)) s2)
      = inr (tt, s3) ∧
    addImageEnvs (imagespec.Env imageConfig) s3 = inr (tt, s4) ∧
    range (Envs config) (λ e, call (generate.AddProcessEnv (Key e) (Value e))) s4
      = inr (tt, s5) ∧
    addOCIBindMounts (extraMounts ++ runtime.Mounts config) mountLabel s5
      = inr (tt, s6) ∧
    (if GetPrivileged (GetSecurityContext (Linux config))
     then setOCIPrivileged config
     else
       wrap ErrSetDevicesMapping (addOCIDevices (runtime.Devices config)) ;;
       wrap ErrSetCapabilities
         (setOCICapabilities (GetCapabilities (GetSecurityContext (Linux config)))))
      s6 = inr (tt, s7) ∧
    setOCILinuxResource (GetResources (Linux config))
      (put_gen
         (generate.SetRootReadonly
            (GetReadonlyRootfs (GetSecurityContext (Linux config)))
            (generate.SetProcessNoNewPrivileges
               (GetNoNewPrivs (GetSecurityContext (Linux config)))
               (generate.SetLinuxMountLabel mountLabel
                  (generate.SetProcessSelinuxLabel processLabel (gen s7)))))
         s7) = inr (tt, s8) ∧
    (if negb (String.eqb (CgroupParent sandboxConfig) "")
     then call (generate.SetLinuxCgroupsPath
                  (getCgroupsPath (CgroupParent sandboxConfig) id
                                  config_SystemdCgroup))
     else mret tt) s8 = inr (tt, s9) ∧
    setOCINamespaces (GetNamespaceOptions (GetSecurityContext (Linux config)))
                     sandboxPid s9 = inr (tt, s10) ∧
    range (GetSupplementalGroups (GetSecurityContext (Linux config)))
          (λ group, call (generate.AddProcessAdditionalGid (uint32 group))) s10
      = inr (tt, st') ∧
    spec = gen st'.
Proof.
  unfold generateContainerSpec, NewFromSpec.
  destruct (defaultRuntimeSpec id) as [err|spec0]; [done|]. intros Hrun.
  apply bind_inr in Hrun as ([] & st1 & [= <-] & Hrun).
  apply bind_inr in Hrun as ([] & st2 & [= <-] & Hrun).
  apply bind_inr in Hrun as ([] & s1 & Hargs & Hrun).
  apply bind_inr in Hrun as ([] & s2 & Hcwd & Hrun).
  apply bind_inr in Hrun as ([] & st3 & [= <-] & Hrun).
  apply bind_inr in Hrun as ([] & s3 & Hterm & Hrun).
  apply bind_inr in Hrun as ([] & s4 & Himg & Hrun).
  apply bind_inr in Hrun as ([] & s5 & Henv & Hrun).
  destruct (initSelinuxOpts _) as [?|[processLabel mountLabel]]; [done|].
  apply bind_inr in Hrun as ([] & s6 & Hmounts%wrap_inr & Hrun).
  apply bind_inr in Hrun as ([] & s7 & Hpriv & Hrun).
  apply bind_inr in Hrun as ([] & st4 & [= <-] & Hrun).
  apply bind_inr in Hrun as ([] & st5 & [= <-] & Hrun).
  apply bind_inr in Hrun as ([] & st6 & [= <-] & Hrun).
  apply bind_inr in Hrun as ([] & st7 & [= <-] & Hrun).
  apply bind_inr in Hrun as ([] & s8 & Hres & Hrun).
  apply bind_inr in Hrun as ([] & s9 & Hcg & Hrun).
  apply bind_inr in Hrun as ([] & s10 & Hns & Hrun).
  apply bind_inr in Hrun as ([] & s11 & Hgid & [= <- <-]).
  exists spec0, processLabel, mountLabel, s1, s2, s3, s4, s5, s6, s7, s8, s9, s10.
  repeat (split; [done|]). split; [|split; [done|]].
  - destruct (GetPrivileged _); [|done]. cbn [negb] in Hpriv.
    by rewrite bind_ret in Hpriv.
  - split; [done|]. split; [done|]. split; done.
Qed.


(** X8. A specification [generateContainerSpec] returns has the argument
    vector [argv.resolved] of the configuration and the image, which is not
    empty; and when the default specification is there and that vector is
    empty, [generateContainerSpec] fails with [ErrNoCommandSpecified],
    whatever the environment, the mounts and the host are. *)
Theorem generateContainerSpec_args (id : string) (sandboxPid : Z)
  (config : ContainerConfig) (sandboxConfig : PodSandboxConfig)
  (imageConfig : ImageConfig) (extraMounts : list Mount) (st : State H) :
  (∀ spec st',
     generateContainerSpec id sandboxPid config sandboxConfig imageConfig
                           extraMounts st = inr (spec, st') →
     runtimespec.Args (runtimespec.process spec) = argv.resolved config imageConfig ∧
     argv.resolved config imageConfig ≠ []) ∧
  (∀ spec0, defaultRuntimeSpec id = inr spec0 →
     argv.resolved config imageConfig = [] →
     generateContainerSpec id sandboxPid config sandboxConfig imageConfig
                           extraMounts st = inl ErrNoCommandSpecified).
Proof.
  split.
  - intros spec st' Hrun.
    apply generateContainerSpec_steps in Hrun
      as (spec0 & pl & ml & s1 & s2 & s3 & s4 & s5 & s6 & s7 & s8 & s9 & s10 &
          Hdef & Hsel & Hargs & Hcwd & Hterm & Himg & Henv & Hmounts & Hpriv &
          Hres & Hcg & Hns & Hgid & ->).
    rewrite setOCIProcessArgs_run in Hargs.
    destruct (argv.resolved config imageConfig) as [|a argv] eqn:E; [done|].
    injection Hargs as <-. split; [|done].
    pose (f := λ g, runtimespec.Args (runtimespec.process g)).
    carry f Hgid. carry f Hns. carry f Hcg. carry f Hres. carry f Hpriv.
    carry f Hmounts. carry f Henv. carry f Himg. carry f Hterm. carry f Hcwd.
    chain f.
  - intros spec0 Hdef Hnil. unfold generateContainerSpec, NewFromSpec.
    rewrite Hdef, !bind_call. apply bind_fail.
    by rewrite setOCIProcessArgs_run, Hnil.
Qed.


(** X9. The working directory of a specification [generateContainerSpec]
    returns is the explicit one of the configuration if that is not empty,
    else the image's if that is not empty, else the one of the default
    specification. *)
Theorem generateContainerSpec_cwd (id : string) (sandboxPid : Z)
  (config : ContainerConfig) (sandboxConfig : PodSandboxConfig)
  (imageConfig : ImageConfig) (extraMounts : list Mount)
  (st st' : State H) (spec : runtimespec.Spec) :
  generateContainerSpec id sandboxPid config sandboxConfig imageConfig
                        extraMounts st = inr (spec, st') →
  ∃ spec0, defaultRuntimeSpec id = inr spec0 ∧
    runtimespec.Cwd (runtimespec.process spec)
    = resolved.cwd config imageConfig
        (runtimespec.Cwd (runtimespec.process spec0)).
Proof.
  intros Hrun.
  apply generateContainerSpec_steps in Hrun
    as (spec0 & pl & ml & s1 & s2 & s3 & s4 & s5 & s6 & s7 & s8 & s9 & s10 &
        Hdef & Hsel & Hargs & Hcwd & Hterm & Himg & Henv & Hmounts & Hpriv &
        Hres & Hcg & Hns & Hgid & ->).
  exists spec0. split; [done|].
  pose (f := λ g, runtimespec.Cwd (runtimespec.process g)).
  carry f Hgid. carry f Hns. carry f Hcg. carry f Hres. carry f Hpriv.
  carry f Hmounts. carry f Henv. carry f Himg. carry f Hterm. carry f Hargs.
  assert (f (gen s2) = resolved.cwd config imageConfig (f (gen s1))) as E.
  { unfold resolved.cwd, f.
    destruct (negb (String.eqb (runtime.WorkingDir config) ""));
      [by injection Hcwd as <-|].
    destruct (negb (String.eqb (imagespec.WorkingDir imageConfig) ""));
      by injection Hcwd as <-. }
  unfold f in E. rewrite Hargs in E. chain f.
Qed.

Lemma foldl_gids (groups : list Z) (g : runtimespec.Spec) :
  runtimespec.AdditionalGids (runtimespec.process
    (foldl (λ g group, generate.AddProcessAdditionalGid (uint32 group) g) g groups))
  = runtimespec.AdditionalGids (runtimespec.process g) ++ (uint32 <$> groups).
Proof.
  revert g. induction groups as [|x l IH]; intros g; cbn [foldl fmap list_fmap].
  - by rewrite app_nil_r.
  - rewrite IH. cbn. by rewrite <- app_assoc.
Qed.

(** X10. A specification [generateContainerSpec] returns has the terminal
    flag, the read-only flag of the root and the no-new-privileges flag of
    the configuration; the root path of the service; the process label and
    the mount label [initSelinuxOpts] gave, for a privileged container too;
    the cgroups path made of the sandbox's cgroup parent if that is not empty
    and else the default one; and the supplemental groups of the
    configuration, each reduced to 32 bits, after the default ones. *)
Theorem generateContainerSpec_fields (id : string) (sandboxPid : Z)
  (config : ContainerConfig) (sandboxConfig : PodSandboxConfig)
  (imageConfig : ImageConfig) (extraMounts : list Mount)
  (st st' : State H) (spec : runtimespec.Spec) :
  generateContainerSpec id sandboxPid config sandboxConfig imageConfig
                        extraMounts st = inr (spec, st') →
  ∃ spec0 processLabel mountLabel,
    defaultRuntimeSpec id = inr spec0 ∧
    initSelinuxOpts (GetSelinuxOptions (GetSecurityContext (Linux config)))
      = inr (processLabel, mountLabel) ∧
    runtimespec.Terminal (runtimespec.process spec) = Tty config ∧
    runtimespec.Path (runtimespec.root spec) = relativeRootfsPath ∧
    runtimespec.root_Readonly (runtimespec.root spec)
      = GetReadonlyRootfs (GetSecurityContext (Linux config)) ∧
    runtimespec.NoNewPrivileges (runtimespec.process spec)
      = GetNoNewPrivs (GetSecurityContext (Linux config)) ∧
    runtimespec.SelinuxLabel (runtimespec.process spec) = processLabel ∧
    runtimespec.MountLabel (runtimespec.linux spec) = mountLabel ∧
    runtimespec.CgroupsPath (runtimespec.linux spec)
      = (if negb (String.eqb (CgroupParent sandboxConfig) "")
         then getCgroupsPath (CgroupParent sandboxConfig) id config_SystemdCgroup
         else runtimespec.CgroupsPath (runtimespec.linux spec0)) ∧
    runtimespec.AdditionalGids (runtimespec.process spec)
      = runtimespec.AdditionalGids (runtimespec.process spec0) ++
        (uint32 <$> GetSupplementalGroups (GetSecurityContext (Linux config))).
Proof.
  intros Hrun.
  apply generateContainerSpec_steps in Hrun
    as (spec0 & pl & ml & s1 & s2 & s3 & s4 & s5 & s6 & s7 & s8 & s9 & s10 &
        Hdef & Hsel & Hargs & Hcwd & Hterm & Himg & Henv & Hmounts & Hpriv &
        Hres & Hcg & Hns & Hgid & ->).
  exists spec0, pl, ml. split; [done|]. split; [done|].
  split; [|split; [|split; [|split; [|split; [|split; [|split]]]]]].
  - pose (f := λ g, runtimespec.Terminal (runtimespec.process g)).
    carry f Hgid. carry f Hns. carry f Hcg. carry f Hres. carry f Hpriv.
    carry f Hmounts. carry f Henv. carry f Himg. carry f Hterm. chain f.
  - pose (f := λ g, runtimespec.Path (runtimespec.root g)).
    carry f Hgid. carry f Hns. carry f Hcg. carry f Hres. carry f Hpriv.
    carry f Hmounts. carry f Henv. carry f Himg. carry f Hterm. carry f Hcwd.
    carry f Hargs. chain f.
  - pose (f := λ g, runtimespec.root_Readonly (runtimespec.root g)).
    carry f Hgid. carry f Hns. carry f Hcg. carry f Hres. chain f.
  - pose (f := λ g, runtimespec.NoNewPrivileges (runtimespec.process g)).
    carry f Hgid. carry f Hns. carry f Hcg. carry f Hres. chain f.
  - pose (f := λ g, runtimespec.SelinuxLabel (runtimespec.process g)).
    carry f Hgid. carry f Hns. carry f Hcg. carry f Hres. chain f.
  - pose (f := λ g, runtimespec.MountLabel (runtimespec.linux g)).
    carry f Hgid. carry f Hns. carry f Hcg. carry f Hres. chain f.
  - pose (f := λ g, runtimespec.CgroupsPath (runtimespec.linux g)).
    carry f Hgid. carry f Hns.
    assert (f (gen s9)
            = if negb (String.eqb (CgroupParent sandboxConfig) "")
              then getCgroupsPath (CgroupParent sandboxConfig) id
                                  config_SystemdCgroup
              else f (gen s8)) as E.
    { destruct (negb (String.eqb (CgroupParent sandboxConfig) ""));
        by injection Hcg as <-. }
    carry f Hres. carry f Hpriv. carry f Hmounts. carry f Henv. carry f Himg.
    carry f Hterm. carry f Hcwd. carry f Hargs.
    destruct (negb (String.eqb (CgroupParent sandboxConfig) "")); chain f.
  - rewrite range_calls in Hgid. injection Hgid as <-. cbn [gen put_gen].
    rewrite foldl_gids. f_equal.
    pose (f := λ g, runtimespec.AdditionalGids (runtimespec.process g)).
    carry f Hns. carry f Hcg. carry f Hres. carry f Hpriv.
    carry f Hmounts. carry f Henv. carry f Himg. carry f Hterm. carry f Hcwd.
    carry f Hargs. chain f.
Qed.

Lemma setOCIPrivileged_Mounts (config : ContainerConfig) (st st' : State H) :
  setOCIPrivileged config st = inr (tt, st') →
  runtimespec.Mounts (gen st')
  = resolved.privileged_mount
      (runtimespec.root_Readonly (runtimespec.root (gen st)))
    <$> runtimespec.Mounts (gen st).
Proof.
  unfold setOCIPrivileged, setOCIBindMountsPrivileged. rewrite !bind_call.
  intros Hdev%wrap_inr.
  pose (f := λ g, runtimespec.Mounts g).
  match type of Hdev with ?m ?s = inr (_, ?s') =>
    assert (K : keeps f m) by (unfold setOCIDevicesPrivileged; solve_keeps);
    apply K in Hdev; clear K end.
  unfold f in Hdev. rewrite Hdev. reflexivity.
Qed.

(** X11. The mounts of a specification [generateContainerSpec] returns are
    the mounts of the default specification, the read-only cgroup mount, and
    one bind mount for each extra mount and then for each mount of the
    configuration, in that order, each with its own [ro] or [rw] whatever the
    root is; for a privileged container each of them is cleared of [ro] as
    [setOCIBindMountsPrivileged] does, by the read-only flag of the root of
    the default specification and not by that of the configuration. *)
Theorem generateContainerSpec_mounts (id : string) (sandboxPid : Z)
  (config : ContainerConfig) (sandboxConfig : PodSandboxConfig)
  (imageConfig : ImageConfig) (extraMounts : list Mount)
  (st st' : State H) (spec : runtimespec.Spec) :
  generateContainerSpec id sandboxPid config sandboxConfig imageConfig
                        extraMounts st = inr (spec, st') →
  ∃ spec0 srcs,
    defaultRuntimeSpec id = inr spec0 ∧
    length srcs = length (extraMounts ++ runtime.Mounts config) ∧
    runtimespec.Mounts spec
    = (if GetPrivileged (GetSecurityContext (Linux config))
       then fmap (resolved.privileged_mount
                    (runtimespec.root_Readonly (runtimespec.root spec0)))
       else λ ms, ms)
        (runtimespec.Mounts spec0 ++
         resolved.cgroup_mount ::
         zip_with propagation.bind_of (extraMounts ++ runtime.Mounts config) srcs).
Proof.
  intros Hrun.
  apply generateContainerSpec_steps in Hrun
    as (spec0 & pl & ml & s1 & s2 & s3 & s4 & s5 & s6 & s7 & s8 & s9 & s10 &
        Hdef & Hsel & Hargs & Hcwd & Hterm & Himg & Henv & Hmounts & Hpriv &
        Hres & Hcg & Hns & Hgid & ->).
  pose (f := λ g, runtimespec.Mounts g).
  pose (r := λ g, runtimespec.root_Readonly (runtimespec.root g)).
  assert (r (gen s6) = r spec0) as Hro.
  { pose proof Hmounts as Hm. clear Hpriv Hres Hcg Hns Hgid.
    carry r Hm. carry r Henv. carry r Himg. carry r Hterm. carry r Hcwd.
    carry r Hargs. chain r. }
  unfold addOCIBindMounts in Hmounts. rewrite bind_call in Hmounts.
  apply range_body_Mounts in Hmounts as (srcs & Hlen & HM).
  exists spec0, srcs. split; [done|]. split; [done|].
  cbn [gen put_gen] in HM.
  carry f Hgid. carry f Hns. carry f Hcg. carry f Hres.
  carry f Henv. carry f Himg. carry f Hterm. carry f Hcwd. carry f Hargs.
  assert (f (gen s7)
          = (if GetPrivileged (GetSecurityContext (Linux config))
             then fmap (resolved.privileged_mount (r (gen s6)))
             else λ ms, ms)
              (f (gen s6))) as E.
  { destruct (GetPrivileged _).
    - by apply setOCIPrivileged_Mounts in Hpriv.
    - carry f Hpriv. chain f. }
  rewrite Hro in E. unfold generate.AddCgroupsMount in HM. cbn in HM.
  fold resolved.cgroup_mount in HM.
  unfold f, r in *. cbn beta in *.
  rewrite Hgid, Hns, Hcg, Hres, E, HM, Henv, Himg, Hterm, Hcwd, Hargs.
  by rewrite <- app_assoc.
Qed.


Lemma addOCIBindMounts_kinds mounts mountLabel :
  fails_only (H := H) resolved.mount_error (addOCIBindMounts mounts mountLabel).
Proof.
  unfold addOCIBindMounts, addOCIBindMounts_body, resolveHostPath,
    propagationOption, ensureShared, ensureSharedOrSlave.
  repeat first
    [ progress cbv beta iota
    | match goal with
      | |- context [os_LookupMount ?h ?s] => destruct (os_LookupMount h s)
      | |- context [existsb ?f ?l] => destruct (existsb f l)
      end
    | kinds_step ].
Qed.

Lemma addOCIDevices_kinds devs :
  fails_only (H := H) resolved.is_external (addOCIDevices devs).
Proof. unfold addOCIDevices. repeat kinds_step. Qed.

Lemma setOCICapabilities_kinds capabilities :
  fails_only (H := H) resolved.is_external (setOCICapabilities capabilities).
Proof. unfold setOCICapabilities. repeat kinds_step. Qed.

Lemma setOCIPrivileged_kinds config :
  fails_only (H := H) resolved.spec_error (setOCIPrivileged config).
Proof.
  unfold setOCIPrivileged, setOCIBindMountsPrivileged.
  repeat first
    [ match goal with
      | |- fails_only _ (wrap _ _) =>
          apply (fails_only_wrap _ resolved.is_external);
          [unfold setOCIDevicesPrivileged | by intros []]
      end
    | kinds_step ].
Qed.

(** X12. [generateContainerSpec] fails with these errors only: the error of
    containerd's default specification as it is; [ErrNoCommandSpecified];
    [ErrInvalidEnvironmentVariable]; [ErrInitSelinuxOptions] around the error
    of [initSelinuxOpts]; [ErrSetDevicesMapping] and [ErrSetCapabilities]
    around an error of a collaborator; and [ErrSetOCIBindMounts] around an
    error of [addOCIBindMounts].  [addOCIBindMounts] in turn fails only with
    the error of the mount table as it is, with the errors for a mount that
    is not shared, or not shared or slave, and with the errors around a
    failed stat, mkdir, link resolution or relabel of the host. *)
Theorem generateContainerSpec_error_kinds (id : string) (sandboxPid : Z)
  (config : ContainerConfig) (sandboxConfig : PodSandboxConfig)
  (imageConfig : ImageConfig) (extraMounts : list Mount) :
  (∀ (st : State H) e,
     generateContainerSpec id sandboxPid config sandboxConfig imageConfig
                           extraMounts st = inl e → resolved.spec_error e) ∧
  (∀ mountLabel (st : State H) e,
     addOCIBindMounts (extraMounts ++ runtime.Mounts config) mountLabel st = inl e →
     resolved.mount_error e).
Proof.
  split; [|intros mountLabel; apply addOCIBindMounts_kinds].
  change (fails_only (H := H) resolved.spec_error
            (generateContainerSpec id sandboxPid config sandboxConfig
                                   imageConfig extraMounts)).
  unfold generateContainerSpec.
  destruct (defaultRuntimeSpec id) as [err|spec0] eqn:Hdef.
  { apply fails_only_fail. unfold defaultRuntimeSpec in Hdef.
    destruct (containerd_GenerateSpec id); [|done]. by injection Hdef as <-. }
  pose proof setOCIPrivileged_kinds.
  unfold NewFromSpec, setOCIProcessArgs, addImageEnvs, setOCILinuxResource,
    setOCINamespaces.
  repeat first
    [ done
    | match goal with
      | |- fails_only _ (wrap ErrSetOCIBindMounts _) =>
          apply (fails_only_wrap _ resolved.mount_error);
          [apply addOCIBindMounts_kinds | by intros ?]
      | |- fails_only _ (wrap _ _) =>
          apply (fails_only_wrap _ resolved.is_external);
          [first [apply addOCIDevices_kinds | apply setOCICapabilities_kinds]
          | by intros []]
      end
    | kinds_step ].
Qed.



(** X14. A specification [generateContainerSpec] returns for a privileged
    container holds every capability of the table; the devices of the default
    specification followed by every host device with a device number, at its
    host path, as the host lists them at the end of the run; the single
    device rule that allows every device; and no read-only and no masked
    paths. *)
Theorem generateContainerSpec_privileged (id : string) (sandboxPid : Z)
  (config : ContainerConfig) (sandboxConfig : PodSandboxConfig)
  (imageConfig : ImageConfig) (extraMounts : list Mount)
  (st st' : State H) (spec : runtimespec.Spec) :
  GetPrivileged (GetSecurityContext (Linux config)) = true →
  generateContainerSpec id sandboxPid config sandboxConfig imageConfig
                        extraMounts st = inr (spec, st') →
  ∃ spec0 hostDevices,
    defaultRuntimeSpec id = inr spec0 ∧
    devices_HostDevices (host st') = inr hostDevices ∧
    runtimespec.Capabilities (runtimespec.process spec)
      = generate.capName <$> capability_List ∧
    runtimespec.Devices (runtimespec.linux spec)
      = runtimespec.Devices (runtimespec.linux spec0) ++
        ((λ d, devs.node (devices.Path d) d)
           <$> List.filter devs.numbered hostDevices) ∧
    runtimespec.res_Devices (runtimespec.Resources (runtimespec.linux spec))
      = [devs.allow_all] ∧
    runtimespec.ReadonlyPaths (runtimespec.linux spec) = [] ∧
    runtimespec.MaskedPaths (runtimespec.linux spec) = [].
Proof.
  intros Hp Hrun.
  apply generateContainerSpec_steps in Hrun
    as (spec0 & pl & ml & s1 & s2 & s3 & s4 & s5 & s6 & s7 & s8 & s9 & s10 &
        Hdef & Hsel & Hargs & Hcwd & Hterm & Himg & Henv & Hmounts & Hpriv &
        Hres & Hcg & Hns & Hgid & ->).
  rewrite Hp in Hpriv.
  destruct (setOCIPrivileged_state config s6) as [Hfail Hok].
  destruct (devices_HostDevices (host s6)) as [err|hostDevices] eqn:Hdev.
  { rewrite (Hfail err eq_refl) in Hpriv. done. }
  destruct (Hok hostDevices eq_refl)
    as (s7' & Hrun7 & Hcaps & Hdevs & Hrules & Hro & Hmask & Hhost & _).
  rewrite Hrun7 in Hpriv. injection Hpriv as ->.
  unfold caps.of_state, devs.of_state, devs.rules_of_state in *.
  exists spec0, hostDevices. split; [done|]. split.
  { clear Hcaps Hdevs Hrules Hro Hmask.
    carry_host Hgid. carry_host Hns. carry_host Hcg. carry_host Hres.
    congruence. }
  split; [|split; [|split; [|split]]].
  - pose (f := λ g, runtimespec.Capabilities (runtimespec.process g)).
    carry f Hgid. carry f Hns. carry f Hcg. carry f Hres. chain f.
  - pose (f := λ g, runtimespec.Devices (runtimespec.linux g)).
    carry f Hgid. carry f Hns. carry f Hcg. carry f Hres.
    carry f Hmounts. carry f Henv. carry f Himg. carry f Hterm. carry f Hcwd.
    carry f Hargs. chain f.
  - pose (f := λ g, runtimespec.res_Devices
                      (runtimespec.Resources (runtimespec.linux g))).
    carry f Hgid. carry f Hns. carry f Hcg. carry f Hres. chain f.
  - pose (f := λ g, runtimespec.ReadonlyPaths (runtimespec.linux g)).
    carry f Hgid. carry f Hns. carry f Hcg. carry f Hres. chain f.
  - pose (f := λ g, runtimespec.MaskedPaths (runtimespec.linux g)).
    carry f Hgid. carry f Hns. carry f Hcg. carry f Hres. chain f.
Qed.

(** A specification [generateContainerSpec] returns for a container
    that is not privileged and declares no device and no capabilities has the
    capabilities, the devices, the device rules and the read-only and masked
    paths of the default specification. *)
Theorem generateContainerSpec_plain (id : string) (sandboxPid : Z)
  (config : ContainerConfig) (sandboxConfig : PodSandboxConfig)
  (imageConfig : ImageConfig) (extraMounts : list Mount)
  (st st' : State H) (spec : runtimespec.Spec) :
  GetPrivileged (GetSecurityContext (Linux config)) = false →
  runtime.Devices config = [] →
  GetCapabilities (GetSecurityContext (Linux config)) = None →
  generateContainerSpec id sandboxPid config sandboxConfig imageConfig
                        extraMounts st = inr (spec, st') →
  ∃ spec0,
    defaultRuntimeSpec id = inr spec0 ∧
    runtimespec.Capabilities (runtimespec.process spec)
      = runtimespec.Capabilities (runtimespec.process spec0) ∧
    runtimespec.Devices (runtimespec.linux spec)
      = runtimespec.Devices (runtimespec.linux spec0) ∧
    runtimespec.res_Devices (runtimespec.Resources (runtimespec.linux spec))
      = runtimespec.res_Devices (runtimespec.Resources (runtimespec.linux spec0)) ∧
    runtimespec.ReadonlyPaths (runtimespec.linux spec)
      = runtimespec.ReadonlyPaths (runtimespec.linux spec0) ∧
    runtimespec.MaskedPaths (runtimespec.linux spec)
      = runtimespec.MaskedPaths (runtimespec.linux spec0).
Proof.
  intros Hp Hd Hc Hrun.
  apply generateContainerSpec_steps in Hrun
    as (spec0 & pl & ml & s1 & s2 & s3 & s4 & s5 & s6 & s7 & s8 & s9 & s10 &
        Hdef & Hsel & Hargs & Hcwd & Hterm & Himg & Henv & Hmounts & Hpriv &
        Hres & Hcg & Hns & Hgid & ->).
  rewrite Hp, Hd, Hc in Hpriv. injection Hpriv as ->.
  exists spec0. split; [done|]. split; [|split; [|split; [|split]]].
  - pose (f := λ g, runtimespec.Capabilities (runtimespec.process g)).
    carry f Hgid. carry f Hns. carry f Hcg. carry f Hres.
    carry f Hmounts. carry f Henv. carry f Himg. carry f Hterm. carry f Hcwd.
    carry f Hargs. chain f.
  - pose (f := λ g, runtimespec.Devices (runtimespec.linux g)).
    carry f Hgid. carry f Hns. carry f Hcg. carry f Hres.
    carry f Hmounts. carry f Henv. carry f Himg. carry f Hterm. carry f Hcwd.
    carry f Hargs. chain f.
  - pose (f := λ g, runtimespec.res_Devices
                      (runtimespec.Resources (runtimespec.linux g))).
    carry f Hgid. carry f Hns. carry f Hcg. carry f Hres.
    carry f Hmounts. carry f Henv. carry f Himg. carry f Hterm. carry f Hcwd.
    carry f Hargs. chain f.
  - pose (f := λ g, runtimespec.ReadonlyPaths (runtimespec.linux g)).
    carry f Hgid. carry f Hns. carry f Hcg. carry f Hres.
    carry f Hmounts. carry f Henv. carry f Himg. carry f Hterm. carry f Hcwd.
    carry f Hargs. chain f.
  - pose (f := λ g, runtimespec.MaskedPaths (runtimespec.linux g)).
    carry f Hgid. carry f Hns. carry f Hcg. carry f Hres.
    carry f Hmounts. carry f Henv. carry f Himg. carry f Hterm. carry f Hcwd.
    carry f Hargs. chain f.
Qed.

Lemma elem_of_replaced (ns p kind path : string) (N : list (string * string)) :
  (kind, path) ∈ filter (λ n : string * string, n.1 ≠ ns) N ++ [(ns, p)] ↔
  (kind = ns ∧ path = p) ∨ (kind ≠ ns ∧ (kind, path) ∈ N).
Proof.
  rewrite elem_of_app, list_elem_of_filter, list_elem_of_singleton. cbn.
  split; [intros [?|[= -> ->]]|intros [[-> ->]|?]]; auto.
Qed.

Lemma elem_of_removed (ns kind path : string) (N : list (string * string)) :
  (kind, path) ∈ filter (λ n : string * string, n.1 ≠ ns) N ↔
  kind ≠ ns ∧ (kind, path) ∈ N.
Proof. by rewrite list_elem_of_filter. Qed.

Lemma setOCINamespaces_run (namespaces : option NamespaceOption)
  (sandboxPid : Z) (st st' : State H) (kind path : string) :
  setOCINamespaces namespaces sandboxPid st = inr (tt, st') →
  (kind, path) ∈ runtimespec.Namespaces (runtimespec.linux (gen st')) ↔
  (kind = "network" ∧ path = getNetworkNamespace sandboxPid) ∨
  (kind = "ipc" ∧ path = getIPCNamespace sandboxPid) ∨
  (kind = "uts" ∧ path = getUTSNamespace sandboxPid) ∨
  ((kind ∉ ["network"; "ipc"; "uts"]) ∧
   (GetHostPid namespaces = true → kind ≠ "pid") ∧
   (kind, path) ∈ runtimespec.Namespaces (runtimespec.linux (gen st))).
Proof.
  unfold setOCINamespaces. rewrite !bind_call.
  assert (kind ∉ ["network"; "ipc"; "uts"]
          ↔ kind ≠ "network" ∧ kind ≠ "ipc" ∧ kind ≠ "uts") as ->.
  { rewrite !not_elem_of_cons. split; [tauto|].
    intros (? & ? & ?). repeat split; try done. apply not_elem_of_nil. }
  destruct (GetHostPid namespaces); intros [= <-]; cbn.
  - rewrite elem_of_removed. do 3 rewrite elem_of_replaced.
    destruct (decide (kind = "network")), (decide (kind = "ipc")),
      (decide (kind = "uts")); try congruence;
      (split; [intros (? & Hc) | intros Hc]);
      intuition (subst; try discriminate; try congruence).
  - do 3 rewrite elem_of_replaced.
    destruct (decide (kind = "network")), (decide (kind = "ipc")),
      (decide (kind = "uts")); try congruence;
      (split; intros Hc); intuition (subst; try discriminate; try congruence).
Qed.

(** Carry the part [f] of the specification over the steps before the
    resources are set. *)
Ltac carry_early f Hpriv Hmounts Henv Himg Hterm Hcwd Hargs :=
  carry f Hpriv; carry f Hmounts; carry f Henv; carry f Himg; carry f Hterm;
  carry f Hcwd; carry f Hargs.

(** X15. In a specification [generateContainerSpec] returns, the network,
    the IPC and the UTS namespace are those [getNetworkNamespace],
    [getIPCNamespace] and [getUTSNamespace] name for the sandbox, and no
    others; the PID namespace is taken out when the container shares the
    host's, and every other namespace is the one of the default
    specification.  The limits are those of the configuration, the CPU
    period and the CPU shares reduced to 64 bits without sign; without
    resources in the configuration they are those of the default
    specification. *)
Theorem generateContainerSpec_namespaces_resources (id : string) (sandboxPid : Z)
  (config : ContainerConfig) (sandboxConfig : PodSandboxConfig)
  (imageConfig : ImageConfig) (extraMounts : list Mount)
  (st st' : State H) (spec : runtimespec.Spec) :
  generateContainerSpec id sandboxPid config sandboxConfig imageConfig
                        extraMounts st = inr (spec, st') →
  ∃ spec0,
    defaultRuntimeSpec id = inr spec0 ∧
    (∀ kind path,
       (kind, path) ∈ runtimespec.Namespaces (runtimespec.linux spec) ↔
       (kind = "network" ∧ path = getNetworkNamespace sandboxPid) ∨
       (kind = "ipc" ∧ path = getIPCNamespace sandboxPid) ∨
       (kind = "uts" ∧ path = getUTSNamespace sandboxPid) ∨
       ((kind ∉ ["network"; "ipc"; "uts"]) ∧
        (GetHostPid (GetNamespaceOptions (GetSecurityContext (Linux config))) = true →
         kind ≠ "pid") ∧
        (kind, path) ∈ runtimespec.Namespaces (runtimespec.linux spec0))) ∧
    let limits (g : runtimespec.Spec) :=
      let r := runtimespec.Resources (runtimespec.linux g) in
      (runtimespec.CPUPeriod r, runtimespec.CPUQuota r, runtimespec.CPUShares r,
       runtimespec.MemoryLimit r, runtimespec.OOMScoreAdj (runtimespec.process g),
       runtimespec.CPUCpus r, runtimespec.CPUMems r) in
    limits spec
    = match GetResources (Linux config) with
      | Some r =>
          (uint64 (CpuPeriod r), CpuQuota r, uint64 (CpuShares r),
           MemoryLimitInBytes r, OomScoreAdj r, CpusetCpus r, CpusetMems r)
      | None => limits spec0
      end.
Proof.
  intros Hrun.
  apply generateContainerSpec_steps in Hrun
    as (spec0 & pl & ml & s1 & s2 & s3 & s4 & s5 & s6 & s7 & s8 & s9 & s10 &
        Hdef & Hsel & Hargs & Hcwd & Hterm & Himg & Henv & Hmounts & Hpriv &
        Hres & Hcg & Hns & Hgid & ->).
  exists spec0. split; [done|]. split.
  - intros kind path.
    pose (f := λ g, runtimespec.Namespaces (runtimespec.linux g)).
    pose proof (setOCINamespaces_run _ _ _ _ kind path Hns) as Hrun.
    carry f Hgid.
    assert (f (gen s9) = f spec0) as E9.
    { carry f Hcg. carry f Hres.
      carry_early f Hpriv Hmounts Henv Himg Hterm Hcwd Hargs. chain f. }
    unfold f in E9. rewrite Hgid, Hrun, E9. done.
  - cbv zeta.
    pose (f := λ g : runtimespec.Spec,
            (runtimespec.CPUPeriod (runtimespec.Resources (runtimespec.linux g)),
             runtimespec.CPUQuota (runtimespec.Resources (runtimespec.linux g)),
             runtimespec.CPUShares (runtimespec.Resources (runtimespec.linux g)),
             runtimespec.MemoryLimit (runtimespec.Resources (runtimespec.linux g)),
             runtimespec.OOMScoreAdj (runtimespec.process g),
             runtimespec.CPUCpus (runtimespec.Resources (runtimespec.linux g)),
             runtimespec.CPUMems (runtimespec.Resources (runtimespec.linux g)))).
    change (f (gen st') = match GetResources (Linux config) with
                          | Some r =>
                              (uint64 (CpuPeriod r), CpuQuota r,
                               uint64 (CpuShares r), MemoryLimitInBytes r,
                               OomScoreAdj r, CpusetCpus r, CpusetMems r)
                          | None => f spec0
                          end).
    assert (f (gen st') = f (gen s8)) as ->.
    { carry f Hgid. carry f Hns. carry f Hcg. chain f. }
    destruct (GetResources (Linux config)) as [r|].
    + unfold setOCILinuxResource in Hres. rewrite !bind_call in Hres.
      by injection Hres as <-.
    + carry f Hres.
      carry_early f Hpriv Hmounts Henv Himg Hterm Hcwd Hargs. chain f.
Qed.

End Compiler.

#[local] Existing Instance instances.quiet_host.
#[local] Existing Instance instances.small_world.

Lemma generateContainerSpec_cwd_witness :
  ∃ spec0, defaultRuntimeSpec "id" = inr spec0 ∧
    runtimespec.Cwd (runtimespec.process (instances.result_of instances.plain_run).1)
    = resolved.cwd instances.plain_config instances.image_sh
        (runtimespec.Cwd (runtimespec.process spec0)).
Proof.
  apply (generateContainerSpec_cwd (os := instances.quiet_host)
           (world := instances.small_world) "id" 1 instances.plain_config
           instances.in_kube instances.image_sh
           [instances.bind_mount "/data" PROPAGATION_BIDIRECTIONAL]
           instances.start (instances.result_of instances.plain_run).2).
  vm_compute. reflexivity.
Defined.

Lemma generateContainerSpec_fields_witness :
  runtimespec.Terminal
    (runtimespec.process (instances.result_of instances.privileged_run).1) = true ∧
  runtimespec.CgroupsPath
    (runtimespec.linux (instances.result_of instances.privileged_run).1)
  = "/kube/id" ∧
  runtimespec.AdditionalGids
    (runtimespec.process (instances.result_of instances.privileged_run).1)
  = [5; 1]%Z.
Proof.
  destruct (generateContainerSpec_fields (os := instances.quiet_host)
              (world := instances.small_world) "id" 1 instances.privileged_config
              instances.in_kube instances.image_sh
              [instances.bind_mount "/data" PROPAGATION_BIDIRECTIONAL]
              instances.start (instances.result_of instances.privileged_run).2
              (instances.result_of instances.privileged_run).1)
    as (spec0 & pl & ml & Hdef & _ & Hterm & _ & _ & _ & _ & _ & Hcg & Hgids).
  { vm_compute. reflexivity. }
  split; [exact Hterm|]. split; [exact Hcg|].
  rewrite Hgids. vm_compute in Hdef. injection Hdef as <-. vm_compute. reflexivity.
Defined.

Lemma generateContainerSpec_mounts_witness :
  ∃ spec0 srcs,
    defaultRuntimeSpec "id" = inr spec0 ∧
    length srcs = 2 ∧
    runtimespec.Mounts (instances.result_of instances.privileged_run).1
    = resolved.privileged_mount (runtimespec.root_Readonly (runtimespec.root spec0))
        <$> (runtimespec.Mounts spec0 ++
             resolved.cgroup_mount ::
             zip_with propagation.bind_of
               [instances.bind_mount "/data" PROPAGATION_BIDIRECTIONAL;
                instances.bind_mount "/x" PROPAGATION_PRIVATE] srcs).
Proof.
  apply (generateContainerSpec_mounts (os := instances.quiet_host)
           (world := instances.small_world) "id" 1 instances.privileged_config
           instances.in_kube instances.image_sh
           [instances.bind_mount "/data" PROPAGATION_BIDIRECTIONAL]
           instances.start (instances.result_of instances.privileged_run).2).
  vm_compute. reflexivity.
Defined.


Lemma generateContainerSpec_namespaces_resources_witness :
  ∃ spec0,
    defaultRuntimeSpec "id" = inr spec0 ∧
    ("network", getNetworkNamespace 1)
      ∈ runtimespec.Namespaces
          (runtimespec.linux (instances.result_of instances.plain_run).1) ∧
    runtimespec.MemoryLimit
      (runtimespec.Resources
         (runtimespec.linux (instances.result_of instances.plain_run).1))
    = runtimespec.MemoryLimit (runtimespec.Resources (runtimespec.linux spec0)).
Proof.
  destruct (generateContainerSpec_namespaces_resources
              (os := instances.quiet_host) (world := instances.small_world)
              "id" 1 instances.plain_config instances.in_kube instances.image_sh
              [instances.bind_mount "/data" PROPAGATION_BIDIRECTIONAL]
              instances.start (instances.result_of instances.plain_run).2
              (instances.result_of instances.plain_run).1)
    as (spec0 & Hdef & Hns & Hlimits).
  { vm_compute. reflexivity. }
  exists spec0. split; [exact Hdef|]. split.
  - apply Hns. by left.
  - cbv zeta in Hlimits. cbn [GetResources instances.plain_config Linux Resources]
      in Hlimits. congruence.
Defined.

Lemma generateContainerSpec_privileged_witness :
  ∃ spec0 hostDevices,
    defaultRuntimeSpec "id" = inr spec0 ∧
    devices_HostDevices (host (instances.result_of instances.privileged_run).2)
      = inr hostDevices ∧
    runtimespec.Capabilities
      (runtimespec.process (instances.result_of instances.privileged_run).1)
      = generate.capName <$> capability_List ∧
    runtimespec.Devices
      (runtimespec.linux (instances.result_of instances.privileged_run).1)
      = runtimespec.Devices (runtimespec.linux spec0) ++
        ((λ d, devs.node (devices.Path d) d)
           <$> List.filter devs.numbered hostDevices) ∧
    runtimespec.res_Devices
      (runtimespec.Resources
         (runtimespec.linux (instances.result_of instances.privileged_run).1))
      = [devs.allow_all] ∧
    runtimespec.ReadonlyPaths
      (runtimespec.linux (instances.result_of instances.privileged_run).1) = [] ∧
    runtimespec.MaskedPaths
      (runtimespec.linux (instances.result_of instances.privileged_run).1) = [].
Proof.
  apply (generateContainerSpec_privileged (os := instances.quiet_host)
           (world := instances.small_world) "id" 1 instances.privileged_config
           instances.in_kube instances.image_sh
           [instances.bind_mount "/data" PROPAGATION_BIDIRECTIONAL]
           instances.start (instances.result_of instances.privileged_run).2).
  - reflexivity.
  - vm_compute. reflexivity.
Defined.

Lemma generateContainerSpec_plain_witness :
  ∃ spec0,
    defaultRuntimeSpec "id" = inr spec0 ∧
    runtimespec.Capabilities
      (runtimespec.process (instances.result_of instances.plain_run).1)
      = runtimespec.Capabilities (runtimespec.process spec0) ∧
    runtimespec.Devices (runtimespec.linux (instances.result_of instances.plain_run).1)
      = runtimespec.Devices (runtimespec.linux spec0) ∧
    runtimespec.res_Devices
      (runtimespec.Resources
         (runtimespec.linux (instances.result_of instances.plain_run).1))
      = runtimespec.res_Devices (runtimespec.Resources (runtimespec.linux spec0)) ∧
    runtimespec.ReadonlyPaths
      (runtimespec.linux (instances.result_of instances.plain_run).1)
      = runtimespec.ReadonlyPaths (runtimespec.linux spec0) ∧
    runtimespec.MaskedPaths
      (runtimespec.linux (instances.result_of instances.plain_run).1)
      = runtimespec.MaskedPaths (runtimespec.linux spec0).
Proof.
  apply (generateContainerSpec_plain (os := instances.quiet_host)
           (world := instances.small_world) "id" 1 instances.plain_config
           instances.in_kube instances.image_sh
           [instances.bind_mount "/data" PROPAGATION_BIDIRECTIONAL]
           instances.start (instances.result_of instances.plain_run).2).
  - reflexivity.
  - reflexivity.
  - reflexivity.
  - vm_compute. reflexivity.
Defined.

End spec_facts.

(** ** The store, method against method *)

Module store_facts.
Import sandbox sandbox_facts.

Lemma HasPrefix_refl (s : string) : strings.HasPrefix s s = true.
Proof.
  unfold strings.HasPrefix. induction s as [|c s IH]; [done|].
  cbn. by destruct (ascii_dec c c).
Qed.

Section Generic.
Context {I : Type} `{TruncIndex I}.

Lemma Get_inr (s : Store I) (id : string) (sb : Sandbox) :
  Get s id = inr sb ↔
  ∃ id', idx_Get (idIndex s) id = inr id' ∧ sandboxes s !! id' = Some sb.
Proof.
  unfold Get. destruct (idx_Get (idIndex s) id) as [err|id'].
  - split; [done | by intros (? & ? & _)].
  - destruct (sandboxes s !! id') as [sb'|] eqn:E.
    + split; [intros [= ->]; eauto | intros (? & [= <-] & ?); congruence].
    + split; [done | intros (? & [= <-] & ?); congruence].
Qed.

(** X16. [Add] of a sandbox whose ID is stored already fails with
    [store_ErrAlreadyExist], whatever the index holds; when the ID is new
    and the index refuses it, [Add] fails with the error of the index as it
    is.  When [Add] succeeds the ID was new, the store holds the sandbox
    under its ID and every other entry as before, and [List] lists the
    sandbox and what it listed before, in some order. *)
Theorem Add_List (s : Store I) (sb : Sandbox) :
  (is_Some (sandboxes s !! ID (metadata sb)) →
   Add s sb = inl store_ErrAlreadyExist) ∧
  (∀ err, sandboxes s !! ID (metadata sb) = None →
          idx_Add (idIndex s) (ID (metadata sb)) = inl err →
          Add s sb = inl (External err)) ∧
  (∀ s', Add s sb = inr s' →
         sandboxes s !! ID (metadata sb) = None ∧
         idx_Add (idIndex s) (ID (metadata sb)) = inr (idIndex s') ∧
         sandboxes s' !! ID (metadata sb) = Some sb ∧
         (∀ id, id ≠ ID (metadata sb) → sandboxes s' !! id = sandboxes s !! id) ∧
         List s' ≡ₚ sb :: List s).
Proof.
  unfold Add. split; [|split].
  - by intros [sb' ->].
  - by intros err -> ->.
  - intros s'. destruct (sandboxes s !! ID (metadata sb)) eqn:E; [done|].
    destruct (idx_Add (idIndex s) (ID (metadata sb))) as [err|idx']; [done|].
    intros [= <-]. cbn. split; [done|]. split; [done|].
    split; [by rewrite lookup_insert_eq|]. split.
    + intros id Hne. by rewrite lookup_insert_ne.
    + unfold List. cbn. by rewrite map_to_list_insert.
Qed.

(** X17. The sandbox [Get] returns is one [List] lists, and [Delete] of the
    same identifier takes exactly that sandbox off the list; when [Get]
    fails, [Delete] of the same identifier leaves the list as it is.  This
    holds of every index. *)
Theorem Get_Delete_List (s : Store I) (id : string) :
  (∀ sb, Get s id = inr sb →
         sb ∈ List s ∧ List s ≡ₚ sb :: List (Delete s id)) ∧
  (∀ e, Get s id = inl e → List (Delete s id) = List s).
Proof.
  split.
  - intros sb (id' & Hidx & Hsb)%Get_inr.
    assert (List s ≡ₚ sb :: List (Delete s id)) as HP.
    { unfold Delete, List. rewrite Hidx. cbn.
      by rewrite <- (map_to_list_delete (sandboxes s) id' sb Hsb). }
    split; [|done]. rewrite HP. apply list_elem_of_here.
  - intros e. unfold Get, Delete.
    destruct (idx_Get (idIndex s) id) as [err|id']; [done|].
    destruct (sandboxes s !! id') eqn:E; [done|]. intros _.
    unfold List. cbn. by rewrite delete_id.
Qed.

End Generic.

(** X18. Over the index modelled from the spec the two indices of a store
    agree at every moment: they do in the store [NewStore] makes, and [Add]
    and [Delete] keep them so. *)
Theorem consistent_invariant :
  consistent (NewStore (I := gset string)) ∧
  (∀ (s s' : SpecStore) sb, consistent s → Add s sb = inr s' → consistent s') ∧
  (∀ (s : SpecStore) id, consistent s → consistent (Delete s id)).
Proof.
  split; [apply NewStore_consistent|]. split.
  - intros s s' sb. apply Add_consistent.
  - intros s id. apply Delete_consistent.
Qed.

(** X19. Over the index modelled from the spec, on a consistent store: after
    [Add] of a sandbox, [Get] of its full ID returns it when no ID stored
    before has that ID as a prefix; when one has, [Get] of the full ID fails
    with [store_ErrNotExist], although the sandbox is stored. *)
Theorem Add_then_Get (s s' : SpecStore) (sb : Sandbox) :
  consistent s →
  Add s sb = inr s' →
  ((∀ id, ¬ matches s (ID (metadata sb)) id) →
   Get s' (ID (metadata sb)) = inr sb) ∧
  (∀ id, matches s (ID (metadata sb)) id →
         Get s' (ID (metadata sb)) = inl store_ErrNotExist) ∧
  sandboxes s' !! ID (metadata sb) = Some sb.
Proof.
  intros Hc Hadd. pose proof (Add_consistent s s' sb Hc Hadd) as Hc'.
  destruct Hc as [Hidx Hkey]. unfold Add in Hadd.
  destruct (sandboxes s !! ID (metadata sb)) eqn:Hnew; [done|].
  cbn in Hadd. injection Hadd as <-.
  assert (Hme : matches {| sandboxes := <[ID (metadata sb) := sb]> (sandboxes s);
                           idIndex := {[ID (metadata sb)]} ∪ idIndex s |}
                        (ID (metadata sb)) (ID (metadata sb))).
  { split; [cbn; rewrite lookup_insert_eq; eauto | apply HasPrefix_refl]. }
  split; [|split].
  - intros Hnone. apply Get_inr. exists (ID (metadata sb)). split.
    + apply idx_Get_resolved, matching_unique; [done..|].
      intros id' [Hin Hp]. cbn in Hin.
      destruct (decide (id' = ID (metadata sb))) as [|Hne]; [done|].
      rewrite lookup_insert_ne in Hin by done. destruct (Hnone id'). by split.
    + cbn. by rewrite lookup_insert_eq.
  - intros id [Hin Hp].
    assert (id ≠ ID (metadata sb)) as Hne.
    { intros ->. rewrite Hnew in Hin. by destruct Hin. }
    unfold Get.
    rewrite (idx_Get_ambiguous _ (ID (metadata sb)) id (ID (metadata sb)));
      [done | done | |].
    + rewrite elem_of_matching. split; [done|]. cbn.
      apply elem_of_union. right. by apply Hidx.
    + rewrite elem_of_matching. split; [apply HasPrefix_refl|]. cbn.
      apply elem_of_union. left. by apply elem_of_singleton.
  - cbn. by rewrite lookup_insert_eq.
Qed.

Lemma Add_then_Get_witness :
  Get instances.one_sandbox "abc123" = inr (instances.sb "abc123").
Proof.
  destruct (Add_then_Get NewStore instances.one_sandbox (instances.sb "abc123"))
    as (Hget & _ & _).
  - apply NewStore_consistent.
  - reflexivity.
  - apply Hget. intros id [[sb' Hin] _]. cbn in Hin.
    by rewrite lookup_empty in Hin.
Defined.

End store_facts.

(** ** The streaming runtime *)

Module stream_runtime_facts.
Import streamRuntime.

Lemma int_of_nonzero (bits code : Z) :
  (bits = 32 ∨ bits = 64)%Z → (0 < code < 2 ^ 32)%Z → int_of bits code ≠ 0%Z.
Proof.
  intros Hb Hc. unfold int_of.
  assert ((code mod 2 ^ bits)%Z = code) as ->.
  { apply Z.mod_small. destruct Hb as [-> | ->]; lia. }
  destruct (code <? 2 ^ (bits - 1))%Z; [lia|].
  destruct Hb as [-> | ->]; lia.
Qed.

Lemma int_of_64 (code : Z) : (0 ≤ code < 2 ^ 32)%Z → int_of 64 code = code.
Proof.
  intros Hc. unfold int_of. rewrite Z.mod_small by lia.
  destruct (code <? 2 ^ (64 - 1))%Z eqn:E; [done|].
  apply Z.ltb_ge in E. lia.
Qed.

Section Runtime.
Context {Stream Chan : Type}.
Variable bits : Z.
Variable execInContainer :
  string → execOptions Stream Chan → option Z * option exterror.
Variable portForward : string → Z → Stream → option exterror.

(** X20. What [Exec] returns tells what [execInContainer] gave, for an [int]
    of 32 or of 64 bits and an exit code that is a [uint32]: [nil] only for
    the exit code 0 and no error; the wrapped error only for an error, and
    then whatever the exit code is; a [CodeExitError] only for an exit code
    other than 0 and no error, and it carries the command and a code that is
    not 0, the exit code itself when [int] has 64 bits; and [Exec] panics only
    when it is given neither an exit code nor an error.  No other error is
    returned. *)
Theorem Exec_outcomes (containerID : string) (cmd : list string)
  (stdin stdout stderr : Stream) (tty : bool) (resize : Chan) :
  (bits = 32 ∨ bits = 64)%Z →
  (∀ code err,
     execInContainer containerID
       {| streamRuntime.cmd := cmd; streamRuntime.stdin := stdin;
          streamRuntime.stdout := stdout; streamRuntime.stderr := stderr;
          streamRuntime.tty := tty; streamRuntime.resize := resize |}
     = (Some code, err) → (0 ≤ code < 2 ^ 32)%Z) →
  let given :=
    execInContainer containerID
      {| streamRuntime.cmd := cmd; streamRuntime.stdin := stdin;
         streamRuntime.stdout := stdout; streamRuntime.stderr := stderr;
         streamRuntime.tty := tty; streamRuntime.resize := resize |} in
  match Exec bits execInContainer containerID cmd stdin stdout stderr tty resize with
  | Returns None => given = (Some 0%Z, None)
  | Returns (Some (ErrExecInContainer cause)) => given.2 = Some cause
  | Returns (Some (CodeExitError cmd' Code)) =>
      cmd' = cmd ∧ Code ≠ 0%Z ∧
      ∃ code, given = (Some code, None) ∧ code ≠ 0%Z ∧
              Code = int_of bits code ∧ (bits = 64%Z → Code = code)
  | Returns (Some _) => False
  | Panics => given = (None, None)
  end.
Proof.
  intros Hbits Hrange given. unfold Exec. fold given.
  destruct given as [exitCode [err|]] eqn:E; [done|].
  destruct exitCode as [code|]; [|done].
  pose proof (Hrange code None E) as Hc.
  destruct (code =? 0)%Z eqn:E0.
  - apply Z.eqb_eq in E0 as ->. done.
  - apply Z.eqb_neq in E0. split; [done|].
    split; [apply int_of_nonzero; [done | lia]|].
    exists code. split; [done|]. split; [done|]. split; [done|].
    intros ->. by apply int_of_64.
Qed.

(** [PortForward] returns the invalid-port error, with the port in it,
    exactly for a port that is not in 1..65535, whatever [portForward] would
    do; for a port in that range it returns what [portForward] returns for
    the same sandbox, port and stream. *)
Theorem PortForward_range (podSandboxID : string) (port : Z) (stream : Stream) :
  (∀ p, PortForward portForward podSandboxID port stream = Some (ErrInvalidPort p)
        ↔ p = port ∧ ¬ (1 ≤ port ≤ 65535)%Z) ∧
  ((1 ≤ port ≤ 65535)%Z →
   PortForward portForward podSandboxID port stream
   = Collaborator <$> portForward podSandboxID port stream).
Proof.
  unfold PortForward, MaxUint16.
  destruct (port <=? 0)%Z eqn:E1; [|destruct (65535 <? port)%Z eqn:E2]; cbn.
  - apply Z.leb_le in E1. split; [|lia].
    intros p. split; [intros [= ->]; lia | by intros [-> _]].
  - apply Z.ltb_lt in E2. split; [|lia].
    intros p. split; [intros [= ->]; lia | by intros [-> _]].
  - apply Z.leb_gt in E1. apply Z.ltb_ge in E2. split; [|done].
    intros p. split; [|lia].
    by destruct (portForward podSandboxID port stream).
Qed.

End Runtime.

Lemma Exec_outcomes_witness :
  Exec (Stream := unit) (Chan := unit) 64
       (λ _ opts, (Some (Z.of_nat (length (cmd opts))), None))
       "c" ["false"; "x"] tt tt tt true tt
  = Returns (Some (CodeExitError ["false"; "x"] 2)).
Proof.
  pose proof (Exec_outcomes (Stream := unit) (Chan := unit) 64
                (λ _ opts, (Some (Z.of_nat (length (cmd opts))), None))
                "c" ["false"; "x"] tt tt tt true tt) as Hx.
  cbv zeta in Hx.
  destruct (Exec 64 _ "c" ["false"; "x"] tt tt tt true tt) as [[e|]|] eqn:E.
  - destruct e as [err|cause|cmd' Code|port].
    + destruct Hx; [by right | intros code err' [= <- _]; cbn; lia].
    + discriminate E.
    + destruct Hx as (-> & _ & code & [= <-] & _ & _ & ->);
        [by right | intros code err' [= <- _]; cbn; lia | done |].
      reflexivity.
    + destruct Hx; [by right | intros code err' [= <- _]; cbn; lia].
  - discriminate E.
  - discriminate E.
Defined.

End stream_runtime_facts.

(** ** The stream executor *)

Module remotecommand_facts.
Import remotecommand.

Section Executor.
Context {Config Upgrader Transport Request Conn Options : Type}.
Variables V1Name V2Name V3Name V4Name : string.
Variable spdy_RoundTripperFor : Config → exterror + Transport * Upgrader.
Variable transport_DebugWrappers : Transport → Transport.
Variable http_NewRequest : string → string → exterror + Request.
Variable spdy_Negotiate :
  Upgrader → Transport → Request → list string → exterror + Conn * string.
Variable handler_stream : version → Options → Conn → option exterror.

#[local] Abbreviation streamer_of := (streamer_of V1Name V2Name V3Name V4Name).
#[local] Abbreviation Stream :=
  (Stream V1Name V2Name V3Name V4Name http_NewRequest spdy_Negotiate handler_stream).
#[local] Abbreviation NewSPDYExecutor :=
  (NewSPDYExecutor V1Name V2Name V3Name V4Name spdy_RoundTripperFor
                   transport_DebugWrappers).

Lemma streamer_of_none (p : string) :
  (streamer_of p).1 = None ↔ p ∉ [V4Name; V3Name; V2Name; ""; V1Name].
Proof.
  unfold remotecommand.streamer_of.
  rewrite !not_elem_of_cons.
  destruct (String.eqb_spec p V4Name); [cbn; naive_solver|].
  destruct (String.eqb_spec p V3Name); [cbn; naive_solver|].
  destruct (String.eqb_spec p V2Name); [cbn; naive_solver|].
  destruct (String.eqb_spec p ""); [cbn; naive_solver|].
  destruct (String.eqb_spec p V1Name); [cbn; naive_solver|].
  cbn. split; [|done]. intros _. repeat split; try done. apply not_elem_of_nil.
Qed.

(** The handler of a protocol when the names are distinct and not empty. *)
Lemma streamer_of_named (p : string) :
  NoDup [V4Name; V3Name; V2Name; ""; V1Name] →
  p ∈ [V4Name; V3Name; V2Name; V1Name] ∨ p = "" →
  ∃ v, streamer_of p = (Some v, String.eqb p "") ∧
       ((p = V4Name ∧ v = V4) ∨ (p = V3Name ∧ v = V3) ∨
        (p = V2Name ∧ v = V2) ∨ ((p = V1Name ∨ p = "") ∧ v = V1)).
Proof.
  intros Hnd Hp. unfold remotecommand.streamer_of.
  apply NoDup_cons in Hnd as [H4 Hnd]. apply NoDup_cons in Hnd as [H3 Hnd].
  apply NoDup_cons in Hnd as [H2 Hnd]. apply NoDup_cons in Hnd as [H0 _].
  assert (V4Name ≠ "") by (intros E; apply H4; rewrite E, !elem_of_cons; auto).
  assert (V3Name ≠ "") by (intros E; apply H3; rewrite E, !elem_of_cons; auto).
  assert (V2Name ≠ "") by (intros E; apply H2; rewrite E, !elem_of_cons; auto).
  clear H4 H3 H2 H0.
  destruct (String.eqb_spec p V4Name) as [E4|N4].
  { exists V4. split; [|by left]. subst p.
    by destruct (String.eqb_spec V4Name ""). }
  destruct (String.eqb_spec p V3Name) as [E3|N3].
  { exists V3. split; [|by right; left]. subst p.
    by destruct (String.eqb_spec V3Name ""). }
  destruct (String.eqb_spec p V2Name) as [E2|N2].
  { exists V2. split; [|by right; right; left]. subst p.
    by destruct (String.eqb_spec V2Name ""). }
  destruct (String.eqb_spec p "") as [E0|N0].
  { exists V1. split; [done|]. right; right; right. split; [by right | done]. }
  destruct (String.eqb_spec p V1Name) as [E1|N1].
  { exists V1. split; [done|]. right; right; right. split; [by left | done]. }
  destruct Hp as [Hp|Hp]; [|done].
  rewrite !elem_of_cons in Hp. destruct Hp as [?|[?|[?|[?|Hp]]]]; try done.
  by apply elem_of_nil in Hp.
Qed.

(** X21. A call of [Stream] that gets a connection closes it, once and as
    the last thing it does, also when it panics; at most one handler runs in
    between; and a call that gets no connection, because the URL is [nil],
    the request cannot be made or the negotiation fails, does nothing to any
    connection. *)
Theorem Stream_closes (e : streamExecutor Upgrader Transport) (options : Options) :
  let got_connection :=
    ∃ u req conn p,
      url e = Some u ∧ http_NewRequest (method e) u = inr req ∧
      spdy_Negotiate (upgrader e) (transport e) req (protocols e) = inr (conn, p) in
  ((Stream e options).2 = [] ↔ ¬ got_connection) ∧
  (got_connection →
   ∃ mid, (Stream e options).2 = Opened :: mid ++ [Closed] ∧
          (Opened ∉ mid) ∧ (Closed ∉ mid) ∧
          (mid = [] ∨ mid = [Notice] ∨
           ∃ v, mid = [Streamed v] ∨ mid = [Notice; Streamed v])).
Proof.
  intros got. subst got. unfold remotecommand.Stream.
  destruct (url e) as [u|] eqn:Eu;
    [|split; [split; [intros _ | done] | ];
      intros (? & ? & ? & ? & ? & ? & ?); congruence].
  destruct (http_NewRequest (method e) u) as [err|req] eqn:Er;
    [split; [split; [intros _ | done] | ];
     intros (? & ? & ? & ? & ? & ? & ?); congruence|].
  destruct (spdy_Negotiate (upgrader e) (transport e) req (protocols e))
    as [err|[conn p]] eqn:En;
    [split; [split; [intros _ | done] | ];
     intros (? & ? & ? & ? & ? & ? & ?); congruence|].
  destruct (streamer_of p) as [[v|] [|]]; cbn.
  all: split;
    [split; [done|]; intros Hn; exfalso; apply Hn;
     exists u, req, conn, p; repeat split; assumption || reflexivity
    | intros _].
  - exists [Notice; Streamed v]. split; [done|].
    rewrite !not_elem_of_cons. repeat split; try done; try apply not_elem_of_nil.
    right; right. exists v. by right.
  - exists [Streamed v]. split; [done|].
    rewrite !not_elem_of_cons. repeat split; try done; try apply not_elem_of_nil.
    right; right. exists v. by left.
  - exists [Notice]. split; [done|].
    rewrite !not_elem_of_cons. repeat split; try done; try apply not_elem_of_nil.
    right; by left.
  - exists []. split; [done|].
    repeat split; try done; try apply not_elem_of_nil. by left.
Qed.

(** X22. [Stream] panics in two cases only: the URL of the executor is
    [nil]; or the negotiation succeeds with a protocol that is none of the
    four names and not empty, so that no handler is chosen, and then no
    handler runs and the connection is closed. *)
Theorem Stream_panics (e : streamExecutor Upgrader Transport) (options : Options) :
  ((Stream e options).1 = Panics ↔
   url e = None ∨
   ∃ u req conn p,
     url e = Some u ∧ http_NewRequest (method e) u = inr req ∧
     spdy_Negotiate (upgrader e) (transport e) req (protocols e) = inr (conn, p) ∧
     (p ∉ [V4Name; V3Name; V2Name; ""; V1Name])) ∧
  ((Stream e options).1 = Panics →
   (Stream e options).2 = [] ∨ (Stream e options).2 = [Opened; Closed]).
Proof.
  unfold remotecommand.Stream.
  destruct (url e) as [u|] eqn:Eu; [|split; [split; [by left | done] | by left]].
  destruct (http_NewRequest (method e) u) as [err|req] eqn:Er.
  { split; [|by left]. split; [done|].
    intros [?|(? & ? & ? & ? & ? & ? & ? & _)]; congruence. }
  destruct (spdy_Negotiate (upgrader e) (transport e) req (protocols e))
    as [err|[conn p]] eqn:En.
  { split; [|by left]. split; [done|].
    intros [?|(? & ? & ? & ? & ? & ? & ? & _)]; congruence. }
  pose proof (streamer_of_none p) as Hnone.
  destruct (streamer_of p) as [[v|] notice] eqn:E; cbn in *.
  - split; [|done]. split; [done|].
    intros [?|(? & ? & ? & p' & ? & ? & ? & Hp)]; [done|].
    assert (p' = p) as -> by congruence. apply Hnone in Hp. done.
  - assert (notice = false) as ->.
    { unfold remotecommand.streamer_of in E.
      repeat match type of E with
             | (if ?b then _ else _) = _ => destruct b; [discriminate E|]
             end.
      congruence. }
    split; [|by right]. split; [|done]. intros _. right.
    exists u, req, conn, p. repeat split; try done. by apply Hnone.
Qed.

(** X23. The executor [NewSPDYExecutor] makes keeps the method and the URL
    it is given, unchecked, and offers the four protocols from the fourth to
    the first.  Every answer to that offer has its handler: with names that
    are distinct and not empty, when the negotiation gives one of the offered
    protocols, or none, [Stream] does not panic, it runs the handler of that
    protocol, the first one with the notice when none was negotiated, returns
    what the handler returns, and closes the connection. *)
Theorem NewSPDYExecutor_Stream (config : Config) (method : string)
  (url : option string) (e : streamExecutor Upgrader Transport)
  (options : Options) :
  NoDup [V4Name; V3Name; V2Name; ""; V1Name] →
  NewSPDYExecutor config method url = inr e →
  protocols e = [V4Name; V3Name; V2Name; V1Name] ∧
  remotecommand.method e = method ∧ remotecommand.url e = url ∧
  ∀ u req conn p,
    url = Some u →
    http_NewRequest method u = inr req →
    spdy_Negotiate (upgrader e) (transport e) req (protocols e) = inr (conn, p) →
    p ∈ protocols e ∨ p = "" →
    ∃ v, ((p = V4Name ∧ v = V4) ∨ (p = V3Name ∧ v = V3) ∨
          (p = V2Name ∧ v = V2) ∨ ((p = V1Name ∨ p = "") ∧ v = V1)) ∧
         Stream e options
         = (Returns (Collaborator <$> handler_stream v options conn),
            Opened :: (if String.eqb p "" then [Notice] else [])
                   ++ [Streamed v; Closed]).
Proof.
  intros Hnd. unfold remotecommand.NewSPDYExecutor,
    remotecommand.NewSPDYExecutorForProtocols.
  destruct (spdy_RoundTripperFor config) as [err|[wrapper up]]; [done|].
  intros [= <-]. cbn. repeat split.
  intros u req conn p -> Hreq Hneg Hp.
  destruct (streamer_of_named p Hnd Hp) as (v & Hv & Hcases).
  exists v. split; [done|].
  unfold remotecommand.Stream. cbn. rewrite Hreq, Hneg, Hv. done.
Qed.

End Executor.

Lemma NewSPDYExecutor_Stream_witness :
  ∃ e, NewSPDYExecutor "v1" "v2" "v3" "v4" (λ _ : unit, inr (tt, tt)) (λ t, t)
         tt "POST" (Some "http://node/exec") = inr e ∧
       Stream "v1" "v2" "v3" "v4" (λ _ _, inr tt)
              (λ _ _ _ ps, inr (tt, default "" (head ps)))
              (λ _ (_ _ : unit), None) e tt
       = (Returns None, [Opened; Streamed V4; Closed]).
Proof.
  eexists. split; [reflexivity|].
  edestruct (NewSPDYExecutor_Stream (Config := unit) (Options := unit)
               "v1" "v2" "v3" "v4" (λ _ : unit, inr (tt, tt)) (λ t, t)
               (λ _ _, inr tt) (λ _ _ _ ps, inr (tt, default "" (head ps)))
               (λ _ (_ _ : unit), None) tt "POST" (Some "http://node/exec"))
    as (_ & _ & _ & Hrun).
  - repeat constructor; rewrite ?not_elem_of_cons; repeat split;
      try discriminate; apply not_elem_of_nil.
  - reflexivity.
  - destruct (Hrun "http://node/exec" tt tt "v4") as (v & Hv & Hs);
      [reflexivity | reflexivity | reflexivity | left; apply list_elem_of_here|].
    destruct Hv as [[_ ->]|[[? _]|[[? _]|[[?|?] _]]]]; try discriminate.
    exact Hs.
Defined.

End remotecommand_facts.

(** ** The backend manager *)

Module backend_facts.
Import backend.

Lemma lower_byte_idem (c : ascii) : lower_byte (lower_byte c) = lower_byte c.
Proof.
  destruct c as [[] [] [] [] [] [] [] []]; vm_compute; reflexivity.
Qed.

Lemma ToLower_idem (s : string) : ToLower (ToLower s) = ToLower s.
Proof.
  induction s as [|c s IH]; [done|]. cbn. by rewrite lower_byte_idem, IH.
Qed.

Section Manager.
Context {Backend World : Type}.
Implicit Types (cs : Constructors Backend World) (bm : manager Backend).


(** X25. A constructor registered under a name with an upper-case letter is
    never found: [GetBackend] looks under lower-case names only, and does
    the same with and without that registration. *)
Theorem Register_mixed_case (name : string) (ctor : BackendCtor Backend World)
  cs bm (backendType : string) (w : World) :
  ToLower name ≠ name →
  GetBackend (Register name ctor cs) bm backendType w
  = GetBackend cs bm backendType w.
Proof.
  intros Hname. unfold GetBackend, Register, Constructors.
  rewrite lookup_insert_ne; [done|].
  intros ->. apply Hname. apply ToLower_idem.
Qed.

(** When [GetBackend] fails the manager is as before: no backend is
    active under the type and no goroutine is added.  It fails with the
    unknown-type error, which names the type in lower case, when no
    constructor is registered under the lower-case type, and then nothing
    outside is touched; else with the error of the constructor as it is. *)
Theorem GetBackend_failure cs bm (backendType : string) (w : World)
  (e : backend.error) bm' (w' : World) :
  GetBackend cs bm backendType w = (inl e, bm', w') →
  bm' = bm ∧ active bm !! ToLower backendType = None ∧
  ((e = ErrUnknownBackendType (ToLower backendType) ∧
    cs !! ToLower backendType = None ∧ w' = w) ∨
   (∃ ctor err, cs !! ToLower backendType = Some ctor ∧
                ctor w = (inl err, w') ∧ e = Collaborator err)).
Proof.
  unfold GetBackend.
  destruct (active bm !! ToLower backendType) as [be0|]; [done|].
  destruct (cs !! ToLower backendType) as [befunc|].
  - destruct (befunc w) as [[err|be1] w1] eqn:E; [|done].
    intros [= <- <- <-]. split; [done|]. split; [done|]. right. eauto.
  - intros [= <- <- <-]. split; [done|]. split; [done|]. by left.
Qed.

Lemma GetBackend_tracked cs bm (backendType : string) (w : World) :
  tracked bm → tracked (GetBackend cs bm backendType w).1.2.
Proof.
  intros (Hnd & Hiff & Hlow). unfold GetBackend.
  destruct (active bm !! ToLower backendType) as [be0|] eqn:E; [done|].
  destruct (cs !! ToLower backendType) as [befunc|]; [|done].
  destruct (befunc w) as [[err|be1] w1]; [done|]. cbn.
  assert (ToLower backendType ∉ waiting bm) as Hnew.
  { intros Hin%Hiff. rewrite E in Hin. by destruct Hin. }
  split; [|split]; cbn.
  - apply NoDup_app. split; [done|]. split; [|apply NoDup_singleton].
    intros x Hx ->%list_elem_of_singleton. done.
  - intros t. rewrite elem_of_app, list_elem_of_singleton, <- Hiff.
    destruct (decide (t = ToLower backendType)) as [->|Hne].
    + rewrite lookup_insert_eq. split; [by right | eauto].
    + rewrite lookup_insert_ne by done. naive_solver.
  - intros t [Hin| ->%list_elem_of_singleton]%elem_of_app;
      [by apply Hlow | apply ToLower_idem].
Qed.

Lemma take_off_tracked bm (i : nat) : tracked bm → tracked (take_off bm i).
Proof.
  intros (Hnd & Hiff & Hlow). unfold take_off.
  destruct (waiting bm !! i) as [t|] eqn:E; [|done].
  pose proof (take_drop_middle _ _ _ E) as Hl.
  set (a := take i (waiting bm)) in *. set (b := drop (S i) (waiting bm)) in *.
  rewrite <- Hl in Hnd.
  apply NoDup_app in Hnd as (Ha & Hab & Hb).
  apply NoDup_cons in Hb as [Htb Hb].
  assert (t ∉ a) as Hta.
  { intros Hin. apply (Hab t Hin). apply list_elem_of_here. }
  assert (∀ x, x ∈ waiting bm ↔ x = t ∨ x ∈ a ++ b) as Hin.
  { intros x. rewrite <- Hl, !elem_of_app, elem_of_cons. naive_solver. }
  split; [|split]; cbn.
  - apply NoDup_app. split; [done|]. split; [|done].
    intros x Hxa Hxb. apply (Hab x Hxa). by apply list_elem_of_further.
  - intros x. destruct (decide (x = t)) as [->|Hne].
    + rewrite lookup_delete_eq, elem_of_app. split; [by intros [? ?] | tauto].
    + rewrite lookup_delete_ne by done. rewrite Hiff, Hin. naive_solver.
  - intros x Hx. apply Hlow, Hin. by right.
Qed.

Lemma leave_tracked bm : tracked bm → tracked (leave bm).
Proof. unfold leave. by destruct (leaving bm). Qed.

(** X26. The active backends and the goroutines match, whatever the order
    of calls and of goroutines: a new manager has none of either, and after
    every [GetBackend], after every goroutine that takes its type off and
    after every [wg.Done], a type is active exactly when one goroutine has
    still to take it off, no two goroutines are there for one type, and
    every such type is in lower case.  The wait group counts the active
    backends together with the goroutines that have taken their type off and
    given the mutex back, and have not yet called [wg.Done]; so it can be
    ahead of the active backends, and once it is at zero no backend is
    active. *)
Theorem tracked_invariant :
  tracked (NewManager (Backend := Backend)) ∧
  (∀ cs bm (backendType : string) (w : World),
     tracked bm → tracked (GetBackend cs bm backendType w).1.2) ∧
  (∀ bm (i : nat), tracked bm → tracked (take_off bm i)) ∧
  (∀ bm, tracked bm → tracked (leave bm)) ∧
  (∀ bm, tracked bm →
         wg bm = size (active bm) + leaving bm ∧
         (wg bm = 0 → active bm = ∅)).
Proof.
  split; [|split; [|split; [|split]]].
  - split; [apply NoDup_nil_2|]. split; cbn.
    + intros t. rewrite lookup_empty. split; [by intros [? ?]|].
      by intros ?%elem_of_nil.
    + by intros t ?%elem_of_nil.
  - apply GetBackend_tracked.
  - apply take_off_tracked.
  - apply leave_tracked.
  - intros bm (Hnd & Hiff & _).
    assert (dom (active bm) = list_to_set (C := gset string) (waiting bm)) as Hdom.
    { apply set_eq. intros t. by rewrite elem_of_dom, elem_of_list_to_set. }
    assert (length (waiting bm) = size (active bm)) as Hlen
      by (by rewrite <- size_dom, Hdom, size_list_to_set).
    unfold wg. split; [by rewrite Hlen|].
    intros Hz. apply map_size_empty_inv. lia.
Qed.

End Manager.

(** The wait group ahead of the active backends: [vxlan] is asked for
    again between the [Unlock] and the [wg.Done] of the goroutine that took
    it off. *)
Example wait_group_ahead :
  tracked worked_backend.vxlan_again ∧
  wg worked_backend.vxlan_again = 2 ∧
  size (active worked_backend.vxlan_again) = 1.
Proof.
  assert (worked_backend.vxlan_again
          = {| active := <["vxlan" := 7]> ∅; waiting := ["vxlan"];
               leaving := 1 |}) as ->.
  { unfold worked_backend.vxlan_again, GetBackend, take_off,
      worked_backend.vxlan_active, worked_backend.vxlan_only, Register,
      Constructors.
    change (ToLower "vxlan") with "vxlan". cbn.
    rewrite delete_insert_eq, delete_empty, lookup_empty, lookup_insert_eq.
    reflexivity. }
  split; [|split].
  - split; [apply NoDup_singleton|]. split; cbn.
    + intros t. rewrite list_elem_of_singleton.
      destruct (decide (t = "vxlan")) as [->|Hne].
      * rewrite lookup_insert_eq. split; eauto.
      * rewrite lookup_insert_ne, lookup_empty by done.
        split; [by intros [? ?] | done].
    + by intros t ->%list_elem_of_singleton.
  - reflexivity.
  - cbn. rewrite map_size_insert_None by apply lookup_empty.
    by rewrite map_size_empty.
Qed.



Lemma Register_mixed_case_witness :
  GetBackend (Register "VXLAN" (λ w, (inr 8, w)) worked_backend.vxlan_only)
             NewManager "VXLAN" 0
  = GetBackend worked_backend.vxlan_only NewManager "VXLAN" 0.
Proof. apply Register_mixed_case. discriminate. Defined.

Lemma udp_unknown :
  GetBackend worked_backend.vxlan_only NewManager "udp" 0
  = (inl (ErrUnknownBackendType "udp"), NewManager, 0).
Proof.
  unfold GetBackend, worked_backend.vxlan_only, Register, Constructors.
  change (ToLower "udp") with "udp". cbn [active NewManager].
  rewrite lookup_empty, lookup_insert_ne by discriminate.
  by rewrite lookup_empty.
Qed.

Lemma GetBackend_failure_witness :
  active (NewManager (Backend := nat)) !! ToLower "udp" = None ∧
  ((ErrUnknownBackendType "udp" = ErrUnknownBackendType (ToLower "udp") ∧
    worked_backend.vxlan_only !! ToLower "udp" = None ∧ 0 = 0) ∨
   (∃ ctor err, worked_backend.vxlan_only !! ToLower "udp" = Some ctor ∧
                ctor 0 = (inl err, 0) ∧
                ErrUnknownBackendType "udp" = Collaborator err)).
Proof.
  exact (proj2 (GetBackend_failure worked_backend.vxlan_only NewManager "udp" 0
                  (ErrUnknownBackendType "udp") NewManager 0 udp_unknown)).
Defined.

End backend_facts.

(** ** Container creation *)

Module create_facts.
Import runtime create saga.

Section Mounts.
Context `{Helpers} {G : Type}.
Variable util_GenerateID : G → string * G.

Lemma volume_mounts_shape (containerRootDir : string) (criMounts : list Mount)
  (dsts : list string) (g : G) :
  let run := volume_mounts util_GenerateID containerRootDir criMounts dsts g in
  ContainerPath <$> run.1
  = List.filter (λ dst, negb (isInCRIMounts dst criMounts)) dsts ∧
  (∀ m, m ∈ run.1 →
        Readonly m = false ∧ SelinuxRelabel m = false ∧
        Propagation m = PROPAGATION_PRIVATE ∧
        ∃ volumeID, HostPath m = filepath_Join [containerRootDir; "volumes"; volumeID]) ∧
  (run.1 = [] → run.2 = g).
Proof.
  cbv zeta. revert g. induction dsts as [|dst dsts IH]; intros g; cbn.
  - split; [done|]. split; [by intros m ?%elem_of_nil | done].
  - destruct (isInCRIMounts dst criMounts); cbn; [apply IH|].
    destruct (util_GenerateID g) as [volumeID g1].
    destruct (IH g1) as (Hpaths & Hshape & _).
    destruct (volume_mounts util_GenerateID containerRootDir criMounts dsts g1)
      as [mounts g2]. cbn in *.
    split; [by rewrite Hpaths|]. split; [|done].
    intros m [->|Hin]%elem_of_cons; [|by apply Hshape].
    cbn. repeat split. by exists volumeID.
Qed.

(** X27. [generateVolumeMounts] makes one mount for each volume of the image
    that the mounts of the configuration do not claim, and none twice: the
    mount is writable, not relabelled, private, and its source is a directory
    named by an identifier under [volumes] in the root directory of the
    container.  When it makes no mount it draws no identifier. *)
Theorem generateVolumeMounts_shape (containerRootDir : string)
  (criMounts : list Mount) (volumes : gset string) (g : G) :
  let run := generateVolumeMounts util_GenerateID containerRootDir criMounts
                                  volumes g in
  ContainerPath <$> run.1
  = List.filter (λ dst, negb (isInCRIMounts dst criMounts)) (elements volumes) ∧
  NoDup (ContainerPath <$> run.1) ∧
  (∀ dst, dst ∈ ContainerPath <$> run.1
          ↔ dst ∈ volumes ∧ isInCRIMounts dst criMounts = false) ∧
  (∀ m, m ∈ run.1 →
        Readonly m = false ∧ SelinuxRelabel m = false ∧
        Propagation m = PROPAGATION_PRIVATE ∧
        ∃ volumeID, HostPath m = filepath_Join [containerRootDir; "volumes"; volumeID]) ∧
  (run.1 = [] → run.2 = g).
Proof.
  cbv zeta.
  assert (generateVolumeMounts util_GenerateID containerRootDir criMounts volumes g
          = volume_mounts util_GenerateID containerRootDir criMounts
                          (elements volumes) g
          ∨ (elements volumes = [] ∧
             generateVolumeMounts util_GenerateID containerRootDir criMounts
                                  volumes g = ([], g))) as [->| [Hnil ->]].
  { unfold generateVolumeMounts.
    destruct (decide (size volumes = 0)) as [Hz|]; [right | by left].
    apply size_empty_inv in Hz. apply leibniz_equiv in Hz. subst volumes.
    by rewrite elements_empty. }
  - destruct (volume_mounts_shape containerRootDir criMounts (elements volumes) g)
      as (Hpaths & Hshape & Hnone).
    split; [done|]. rewrite Hpaths. split; [|split; [|done]].
    + apply NoDup_ListNoDup, List.NoDup_filter, NoDup_ListNoDup, NoDup_elements.
    + intros dst. rewrite list_elem_of_In, List.filter_In, <- list_elem_of_In.
      rewrite elem_of_elements, negb_true_iff. done.
  - rewrite Hnil. cbn. split; [done|]. split; [apply NoDup_nil_2|].
    split; [|split; [by intros m ?%elem_of_nil | done]].
    intros dst. split; [by intros ?%elem_of_nil|].
    intros [Hin _]. apply elem_of_elements in Hin. rewrite Hnil in Hin.
    by apply elem_of_nil in Hin.
Qed.

(** X28. [generateContainerMounts] makes one mount for each of the hosts
    file, the resolver file and the shared memory, in this order, that the
    mounts of the configuration do not claim.  None is relabelled and all are
    private; the first two are read-only exactly when the root is; the shared
    memory is always writable, and its source is the host's own shared memory
    when the container shares the IPC namespace of the host, else the
    sandbox's. *)
Theorem generateContainerMounts_shape (sandboxRootDir : string)
  (config : ContainerConfig) :
  let mounts := generateContainerMounts sandboxRootDir config in
  let securityContext := GetSecurityContext (Linux config) in
  ContainerPath <$> mounts
  = List.filter (λ dst, negb (isInCRIMounts dst (runtime.Mounts config)))
                [etcHosts; resolvConfPath; devShm] ∧
  (∀ m, m ∈ mounts →
        SelinuxRelabel m = false ∧ Propagation m = PROPAGATION_PRIVATE ∧
        (Readonly m = true → GetReadonlyRootfs securityContext = true)) ∧
  (isInCRIMounts etcHosts (runtime.Mounts config) = false →
   head mounts = Some (mount_of etcHosts (getSandboxHosts sandboxRootDir)
                                (GetReadonlyRootfs securityContext))) ∧
  (isInCRIMounts resolvConfPath (runtime.Mounts config) = false →
   mount_of resolvConfPath (getResolvPath sandboxRootDir)
            (GetReadonlyRootfs securityContext) ∈ mounts) ∧
  (isInCRIMounts devShm (runtime.Mounts config) = false →
   last mounts
   = Some (mount_of devShm
             (if GetHostIpc (GetNamespaceOptions securityContext)
              then devShm else getSandboxDevShm sandboxRootDir) false)).
Proof.
  cbv zeta. unfold generateContainerMounts. cbn [List.filter].
  destruct (isInCRIMounts etcHosts (runtime.Mounts config)),
    (isInCRIMounts resolvConfPath (runtime.Mounts config)),
    (isInCRIMounts devShm (runtime.Mounts config)); cbn.
  all: split; [done|].
  all: split;
    [intros m Hm; rewrite ?elem_of_cons in Hm;
     repeat match goal with
            | Hm : _ ∨ _ |- _ => destruct Hm as [->|Hm]
            | Hm : _ ∈ [] |- _ => by apply elem_of_nil in Hm
            | Hm : m = _ |- _ => subst m
            end; cbn; repeat split; try done|].
  all: repeat split; try done; intros _;
    rewrite ?elem_of_cons; auto.
Qed.

End Mounts.

Section Service.
Context {H : Type} {os : HostOS H} {world : Collaborators} {helpers : Helpers}.
Context {I : Type} {index : sandbox.TruncIndex I}.
Context {G CMeta SMeta Labels : Type}.
Implicit Types (c : criContainerdService I) (out : Outside G CMeta SMeta Labels)
  (r : CreateContainerRequest CMeta SMeta Labels) (run : Run G CMeta SMeta Labels).





Lemma generateApparmorSpecOpts_kind (prof : string) (privileged enabled : bool)
  (o : server.SpecOpts) :
  server.generateApparmorSpecOpts prof privileged enabled = inr (Some o) →
  o ≠ server.seccomp_WithDefaultProfile ∧ ∀ p, o ≠ server.seccomp_WithProfile p.
Proof.
  unfold server.generateApparmorSpecOpts.
  repeat match goal with
         | |- context [if ?b then _ else _] => destruct b
         end; intros [= <-]; done.
Qed.

Lemma specOpts_of_profiles (rest : Rest CMeta SMeta Labels)
  (apparmorSpecOpts seccompSpecOpts : option server.SpecOpts) (o : server.SpecOpts) :
  Profile o ∈ specOpts_of rest apparmorSpecOpts seccompSpecOpts →
  apparmorSpecOpts = Some o ∨ seccompSpecOpts = Some o.
Proof.
  unfold specOpts_of.
  destruct (RunAsUser rest), (negb (String.eqb (RunAsUsername rest) "")),
    apparmorSpecOpts, seccompSpecOpts; cbn;
    rewrite ?elem_of_cons; intros Hin;
    repeat match goal with
           | H : _ ∨ _ |- _ => destruct H as [H|H]
           | H : Profile _ = Profile _ |- _ => injection H as ->
           | H : _ ∈ [] |- _ => by apply elem_of_nil in H
           end; try discriminate; auto.
Qed.

(** X30. When [CreateContainer] succeeds, the ID it returns is the first
    identifier drawn, and all is made under it: the reserved name, the root
    directory, the engine's container and the metadata.  The metadata names
    the sandbox by the full ID of the sandbox the store resolved, not by the
    identifier of the request, and the image by the ID of the resolved
    image.  The engine is given the snapshotter first, the specification
    [generateContainerSpec] made on the host as it is after the root
    directory was made, with the mounts of [generateContainerMounts] before
    those of [generateVolumeMounts] as extra mounts, and the volumes exactly
    when there is a volume mount.  For a privileged container no seccomp
    option goes with the specification.  Six things are acquired, in the
    order given, and nothing is given back. *)
Theorem CreateContainer_success c out (h : H) r run (id : string) :
  (CreateContainer c out h r run).1 = inr id →
  let name := makeContainerName out (Metadata (rest r)) (SandboxMetadata (rest r)) in
  let dir := getContainerRootDir (RootDir c) id in
  id = (util_GenerateID out (ids run)).1 ∧
  ∃ sb pid img h1 volumeMounts g2 spec st specOpts io cntr opts container meta,
    sandbox.Get (sandboxStore c) (PodSandboxId r) = inr sb ∧
    sandbox_Task_Pid out (sandbox.Container sb) = inr pid ∧
    localResolve out (Image (rest r)) = inr (Some img) ∧
    os_MkdirAll h dir 493 = (h1, None) ∧
    generateVolumeMounts (util_GenerateID out) dir (runtime.Mounts (Config r))
                         (img_Volumes img) (util_GenerateID out (ids run)).2
    = (volumeMounts, g2) ∧
    server.generateContainerSpec id pid (Config r) (SandboxConfig r) (img_Config img)
      (generateContainerMounts
         (getSandboxRootDir (RootDir c) (sandbox.ID (sandbox.metadata sb)))
         (Config r) ++ volumeMounts)
      {| gen := no_generator; host := h1; warnings := [] |} = inr (spec, st) ∧
    added run (CreateContainer c out h r run).2
    = [Reserved name id; MkdirAll dir; NewContainerIO io;
       client_NewContainer cntr id opts;
       containerstore_NewContainer container meta;
       containerStore_Add container] ∧
    meta_ID meta = id ∧ meta_Name meta = name ∧
    meta_SandboxID meta = sandbox.ID (sandbox.metadata sb) ∧
    meta_ImageRef meta = img_ID img ∧
    head opts = Some (WithSnapshotter (Snapshotter c)) ∧
    WithSpec spec specOpts ∈ opts ∧
    WithContainerExtension containerMetadataExtension meta ∈ opts ∧
    ((∃ mountMap, WithVolumes mountMap ∈ opts) ↔ volumeMounts ≠ []) ∧
    (GetPrivileged (GetSecurityContext (Linux (Config r))) = true →
     ∀ o, Profile o ∈ specOpts →
          o ≠ server.seccomp_WithDefaultProfile ∧
          ∀ p, o ≠ server.seccomp_WithProfile p).
Proof.
  cbv zeta. destruct (CreateContainer c out h r run) as [res run'] eqn:E.
  cbn [fst snd]. intros ->. revert E. unfold CreateContainer.
  remember (@server.generateContainerSpec H _ _) as genspec eqn:Hgenspec.
  remember (@generateVolumeMounts _ G) as genvol eqn:Hgenvol.
  remember (@generateContainerMounts _) as genmounts eqn:Hgenmounts.
  remember server.generateApparmorSpecOpts as apparmor eqn:Happarmor.
  remember server.generateSeccompSpecOpts as seccomp eqn:Hseccomp.
  remember (@specOpts_of CMeta SMeta Labels) as specopts eqn:Hspecopts.
  remember (@sandbox.Get I _) as get eqn:Hget.
  unfold returning, added.
  unfold mbind, C_mbind, C_bind, mret, C_mret, C_ret, check, check_err, throw,
    emit, defer, with_ids.
  destruct (get (sandboxStore c) (PodSandboxId r)) as [err|sb] eqn:Esb; cbn;
    [done|].
  destruct (sandbox_Task_Pid out (sandbox.Container sb)) as [err|pid] eqn:Epid;
    cbn; [done|].
  destruct (util_GenerateID out (ids run)) as [id' g1] eqn:Eid; cbn.
  destruct (containerNameIndex_Reserve out _ id') as [err|]; cbn; [done|].
  destruct (localResolve out (Image (rest r))) as [err|[img|]] eqn:Eimg; cbn;
    [done| |done].
  destruct (os_MkdirAll h _ 493) as [h1 [err|]] eqn:Emk; cbn; [done|].
  destruct (genvol _ _ _ _ g1) as [volumeMounts g2] eqn:Evol; cbn.
  destruct (genspec _ _ _ _ _ _ _) as [err|[spec st]] eqn:Espec; cbn; [done|].
  destruct (cio_NewContainerIO out id' _ _ _) as [err|io]; cbn; [done|].
  destruct (apparmor _ _ _) as [err|apparmorSpecOpts] eqn:Eapp; cbn; [done|].
  destruct (seccomp _ _ _) as [err|seccompSpecOpts] eqn:Esec; cbn; [done|].
  destruct (containerd_NewContainer out id' _) as [err|cntr]; cbn; [done|].
  destruct (store_NewContainer out _ _ _ _ _) as [err|container]; cbn; [done|].
  destruct (store_Add out container) as [err|]; cbn; [done|].
  intros [= <- <-]. cbn. split; [done|]. subst.
  eexists sb, pid, img, h1, volumeMounts, g2, spec, st, _, io, cntr, _,
    container, _.
  rewrite <- ?app_assoc, ?app_nil_r, drop_app_length.
  split; [done|]. split; [done|]. split; [done|]. split; [done|].
  split; [done|]. split; [done|]. split; [reflexivity|].
  split; [done|]. split; [done|]. split; [done|]. split; [done|].
  split; [by destruct volumeMounts|].
  split.
  { rewrite !elem_of_app. right. apply list_elem_of_here. }
  split.
  { rewrite !elem_of_app. right. rewrite !elem_of_cons. auto. }
  split.
  { destruct volumeMounts as [|v vs]; cbn.
    - split; [|done]. intros [mountMap Hin].
      rewrite !elem_of_cons, elem_of_nil in Hin.
      destruct Hin as [?|[?|[?|[?|[?|[?|[?|[]]]]]]]]; discriminate.
    - split; [done|]. intros _. eexists.
      rewrite !elem_of_cons. do 3 right. left. reflexivity. }
  intros Hpriv o [Ho|Ho]%specOpts_of_profiles.
  - subst apparmorSpecOpts. by eapply generateApparmorSpecOpts_kind.
  - rewrite Hpriv in Esec. cbn in Esec. congruence.
Qed.

End Service.

#[local] Existing Instance sandbox.spec_index.

Lemma created_ok : worked_create.created.1 = inr "a".
Proof. vm_compute. reflexivity. Qed.

(** A directory left behind.  On a host where the source [/x] of a mount of
    the configuration is not there, [generateContainerSpec] makes it; the
    creation then fails for want of the container's streams, gives back the
    root directory and the name, and nothing removes [/x]. *)
Example directory_left_behind :
  worked_create.without_io.1
  = inl (ErrCreateContainerIO (ErrorString "no fifo")) ∧
  added worked_create.fresh worked_create.without_io.2
  = [Reserved "web_pod" "a"; MkdirAll "/var/lib/cri/containers/a";
     RemoveAll "/var/lib/cri/containers/a"; ReleaseByName "web_pod"] ∧
  ∃ spec st', worked_create.compiled = inr (spec, st') ∧ "/x" ∈ host st'.
Proof.
  split; [vm_compute; reflexivity|]. split; [vm_compute; reflexivity|].
  assert (match worked_create.compiled with
          | inr (_, st') => existsb (String.eqb "/x") (host st') = true
          | inl _ => False
          end) as Hc by (vm_compute; reflexivity).
  destruct worked_create.compiled as [|[spec st']]; [done|].
  exists spec, st'. split; [done|].
  apply existsb_exists in Hc as (p & Hin%list_elem_of_In & ->%String.eqb_eq).
  done.
Qed.

Lemma CreateContainer_success_witness :
  ∃ sb io cntr opts container meta,
    sandbox.Get instances.one_sandbox "abc" = inr sb ∧
    added worked_create.fresh worked_create.created.2
    = [Reserved "web_pod" "a"; MkdirAll "/var/lib/cri/containers/a";
       NewContainerIO io; client_NewContainer cntr "a" opts;
       containerstore_NewContainer container meta;
       containerStore_Add container] ∧
    meta_SandboxID meta = sandbox.ID (sandbox.metadata sb) ∧
    head opts = Some (WithSnapshotter "overlayfs") ∧
    ∃ mountMap, WithVolumes mountMap ∈ opts.
Proof.
  destruct (CreateContainer_success (os := instances.quiet_host)
              (world := instances.small_world) (index := sandbox.spec_index)
              worked_create.service worked_create.outside tt
              worked_create.request worked_create.fresh "a" created_ok)
    as (_ & sb & pid & img & h1 & volumeMounts & g2 & spec & st & specOpts & io &
        cntr & opts & container & meta & Hsb & _ & Himg & _ & Hvol & _ & Hadded &
        _ & _ & Hmeta & _ & Hhead & _ & _ & Hvols & _).
  exists sb, io, cntr, opts, container, meta.
  split; [exact Hsb|]. split; [exact Hadded|]. split; [exact Hmeta|].
  split; [exact Hhead|]. apply Hvols.
  injection Himg as <-. vm_compute in Hvol. injection Hvol as <- _. discriminate.
Defined.

End create_facts.
